(** * Monopoly rules engine: a shallow embedding of [game_engine.py]

    The engine of [backend/game/logic/game_engine.py] together with the
    static data of [backend/game/data] ([tiles.py], [property.py],
    [card_decks.py]) is embedded as executable Rocq definitions:

    - Python [int] is [Z];
    - the dictionaries [self.players] and [self.tiles] are finite maps
      ([gmap]), so that the objects stored in them are shared: a method
      that holds [p = self.current_player] and assigns [p.money] updates
      the binding of that player in the store;
    - a method is a function in a state-and-fault monad over the engine
      object; a Python exception is a [Raise];
    - the calls to [random] are inputs of the operation: the two dice and
      the outcome of every [random.shuffle]. *)

From Stdlib Require Import ZArith List Permutation Lia Ascii.
From stdpp Require Import base tactics option list gmap strings pretty fin_maps.

Open Scope string_scope.
Open Scope list_scope.
Open Scope Z_scope.

(** ** Enumerations ([tiles.py], [game_engine.py]) *)

Inductive TileType :=
  | GO | PROPERTY | RAILROAD | UTILITY | TAX | CHANCE | COMMUNITY_CHEST
  | JAIL | FREE_PARKING | GO_TO_JAIL.

Inductive GamePhase :=
  | WAITING_FOR_ROLL | WAITING_FOR_BUY_DECISION | IN_JAIL | TURN_COMPLETE
  | GAME_OVER.

#[global] Instance TileType_eq_dec : EqDecision TileType.
Proof. solve_decision. Defined.

#[global] Instance GamePhase_eq_dec : EqDecision GamePhase.
Proof. solve_decision. Defined.

(** [StrEnum.value] *)
Definition tile_type_value (t : TileType) : string :=
  match t with
  | GO => "go" | PROPERTY => "property" | RAILROAD => "railroad"
  | UTILITY => "utility" | TAX => "tax" | CHANCE => "chance"
  | COMMUNITY_CHEST => "community_chest" | JAIL => "jail"
  | FREE_PARKING => "free_parking" | GO_TO_JAIL => "go_to_jail"
  end.

Definition phase_value (ph : GamePhase) : string :=
  match ph with
  | WAITING_FOR_ROLL => "waiting_for_roll"
  | WAITING_FOR_BUY_DECISION => "waiting_for_buy_decision"
  | IN_JAIL => "in_jail"
  | TURN_COMPLETE => "turn_complete"
  | GAME_OVER => "game_over"
  end.

(** ** Faults and fallible results *)

(** The exceptions the engine code can raise, and [NoReturn] for a [while]
    loop that never ends. *)
Inductive Fault :=
  | KeyError | IndexError | ValueError | RecursionError | NoReturn.

Inductive res (A : Type) :=
  | Ret (a : A)
  | Raise (e : Fault).
Arguments Ret {A} a.
Arguments Raise {A} e.

(** [str(z)] inside an f-string *)
Definition str (z : Z) : string := pretty z.

(** [l[i]] on a Python list: a negative index counts from the end. *)
Definition py_index {A} (l : list A) (i : Z) : res A :=
  let j := if 0 <=? i then i else Z.of_nat (length l) + i in
  if 0 <=? j then
    match l !! Z.to_nat j with
    | Some x => Ret x
    | None => Raise IndexError
    end
  else Raise IndexError.

(** ** Result dictionaries *)

Inductive Value :=
  | VInt (z : Z)
  | VBool (b : bool)
  | VStr (s : string)
  | VInts (l : list Z)
  | VStrs (l : list string)
  | VNone.

(** A returned [dict], in insertion order. *)
Definition Result := list (string * Value).

(** [d[k] = v] *)
Fixpoint dict_set (k : string) (v : Value) (d : Result) : Result :=
  match d with
  | [] => [(k, v)]
  | (k', v') :: d' =>
      if String.eqb k k' then (k, v) :: d' else (k', v') :: dict_set k v d'
  end.

Fixpoint dict_get (k : string) (d : Result) : option Value :=
  match d with
  | [] => None
  | (k', v') :: d' => if String.eqb k k' then Some v' else dict_get k d'
  end.

(** ["error" in result] *)
Definition has_error (d : Result) : bool :=
  match dict_get "error" d with Some _ => true | None => false end.

Definition VOptStr (o : option string) : Value :=
  match o with Some s => VStr s | None => VNone end.

(** ** Cards ([card_decks.py]) *)

Inductive CardKind :=
  | Move (to : Z)
  | Money (amount : Z)
  | MoveBack (spaces : Z)
  | JailCard
  | GoToJail.

Record Card := mkCard { card_kind : CardKind; card_text : string }.

#[global] Instance CardKind_eq_dec : EqDecision CardKind.
Proof. solve_decision. Defined.

#[global] Instance Card_eq_dec : EqDecision Card.
Proof. solve_decision. Defined.

Definition CHANCE_CARDS : list Card :=
  [ mkCard (Move 0) "Advance to GO";
    mkCard (Move 24) "Advance to Illinois Avenue";
    mkCard (Move 39) "Advance to Boardwalk";
    mkCard (Move 5) "Advance to Reading Railroad";
    mkCard (Money 150) "Bank pays you dividend of $150";
    mkCard (Money (-15)) "Speeding fine $15";
    mkCard JailCard "Get Out of Jail Free";
    mkCard GoToJail "Go directly to Jail";
    mkCard (Money 50) "Bank pays you $50";
    mkCard (MoveBack 3) "Go back 3 spaces" ].

Definition COMMUNITY_CARDS : list Card :=
  [ mkCard (Move 0) "Advance to GO";
    mkCard (Money 200) "Bank error in your favor, collect $200";
    mkCard (Money (-50)) "Doctor's fees, pay $50";
    mkCard (Money 100) "You inherit $100";
    mkCard (Money (-100)) "Pay hospital fees $100";
    mkCard JailCard "Get Out of Jail Free";
    mkCard GoToJail "Go to Jail";
    mkCard (Money 25) "Receive $25 consultancy fee";
    mkCard (Money 10) "You won second prize in beauty contest, collect $10";
    mkCard (Money (-150)) "Pay school fees $150" ].

(** ** The board ([tiles.py]) *)

(** One entry of [TILE_DATA].  The Python entries are dictionaries in which
    the keys other than ["name"] and ["type"] are optional and are read with
    [data.get(key, default)]; here an absent key holds that default ([0],
    the empty string or [[]]). *)
Record TileData := mkData {
  td_name : string;
  td_type : TileType;
  td_price : Z;
  td_mortgage : Z;
  td_color : string;
  td_house_cost : Z;
  td_rent : list Z;
  td_amount : Z
}.

Definition street (n : string) (price mortgage : Z) (color : string)
    (house_cost : Z) (rent : list Z) : TileData :=
  mkData n PROPERTY price mortgage color house_cost rent 0.
Definition railroad (n : string) : TileData := mkData n RAILROAD 200 100 EmptyString 0 [] 0.
Definition utility (n : string) : TileData := mkData n UTILITY 150 75 EmptyString 0 [] 0.
Definition tax (n : string) (amount : Z) : TileData := mkData n TAX 0 0 EmptyString 0 [] amount.
Definition plain (n : string) (ty : TileType) : TileData := mkData n ty 0 0 EmptyString 0 [] 0.

(** The items of [TILE_DATA], in the order of the dictionary. *)
Definition TILE_ITEMS : list (Z * TileData) :=
  [ (0, plain "GO" GO);
    (1, street "Mediterranean Avenue" 60 30 "brown" 50 [2; 10; 30; 90; 160; 250]);
    (2, plain "Community Chest" COMMUNITY_CHEST);
    (3, street "Baltic Avenue" 60 30 "brown" 50 [4; 20; 60; 180; 320; 450]);
    (4, tax "Income Tax" 200);
    (5, railroad "Reading Railroad");
    (6, street "Oriental Avenue" 100 50 "light_blue" 50 [6; 30; 90; 270; 400; 550]);
    (7, plain "Chance" CHANCE);
    (8, street "Vermont Avenue" 100 50 "light_blue" 50 [6; 30; 90; 270; 400; 550]);
    (9, street "Connecticut Avenue" 120 60 "light_blue" 50 [8; 40; 100; 300; 450; 600]);
    (10, plain "Jail / Just Visiting" JAIL);
    (11, street "St. Charles Place" 140 70 "pink" 100 [10; 50; 150; 450; 625; 750]);
    (12, utility "Electric Company");
    (13, street "States Avenue" 140 70 "pink" 100 [10; 50; 150; 450; 625; 750]);
    (14, street "Virginia Avenue" 160 80 "pink" 100 [12; 60; 180; 500; 700; 900]);
    (15, railroad "Pennsylvania Railroad");
    (16, street "St. James Place" 180 90 "orange" 100 [14; 70; 200; 550; 750; 950]);
    (17, plain "Community Chest" COMMUNITY_CHEST);
    (18, street "Tennessee Avenue" 180 90 "orange" 100 [14; 70; 200; 550; 750; 950]);
    (19, street "New York Avenue" 200 100 "orange" 100 [16; 80; 220; 600; 800; 1000]);
    (20, plain "Free Parking" FREE_PARKING);
    (21, street "Kentucky Avenue" 220 110 "red" 150 [18; 90; 250; 700; 875; 1050]);
    (22, plain "Chance" CHANCE);
    (23, street "Indiana Avenue" 220 110 "red" 150 [18; 90; 250; 700; 875; 1050]);
    (24, street "Illinois Avenue" 240 120 "red" 150 [20; 100; 300; 750; 925; 1100]);
    (25, railroad "B&O Railroad");
    (26, street "Atlantic Avenue" 260 130 "yellow" 150 [22; 110; 330; 800; 975; 1150]);
    (27, street "Ventnor Avenue" 260 130 "yellow" 150 [22; 110; 330; 800; 975; 1150]);
    (28, utility "Water Works");
    (29, street "Marvin Gardens" 280 140 "yellow" 150 [24; 120; 360; 850; 1025; 1200]);
    (30, plain "Go To Jail" GO_TO_JAIL);
    (31, street "Pacific Avenue" 300 150 "green" 200 [26; 130; 390; 900; 1100; 1275]);
    (32, street "North Carolina Avenue" 300 150 "green" 200 [26; 130; 390; 900; 1100; 1275]);
    (33, plain "Community Chest" COMMUNITY_CHEST);
    (34, street "Pennsylvania Avenue" 320 160 "green" 200 [28; 150; 450; 1000; 1200; 1400]);
    (35, railroad "Short Line Railroad");
    (36, plain "Chance" CHANCE);
    (37, street "Park Place" 350 175 "dark_blue" 200 [35; 175; 500; 1100; 1300; 1500]);
    (38, tax "Luxury Tax" 100);
    (39, street "Boardwalk" 400 200 "dark_blue" 200 [50; 200; 600; 1400; 1700; 2000]) ].

Definition TILE_DATA : gmap Z TileData := list_to_map TILE_ITEMS.

(** ** Properties ([property.py]) *)

Module Property.

Record t := mk {
  position : Z;
  name : string;
  tile_type : TileType;
  price : Z;
  mortgage_value : Z;
  color_group : string;
  house_cost : Z;
  rent : list Z;
  owner : option string;
  houses : Z;
  is_mortgaged : bool
}.

Definition with_owner (o : option string) (x : t) : t :=
  mk (position x) (name x) (tile_type x) (price x) (mortgage_value x)
     (color_group x) (house_cost x) (rent x) o (houses x) (is_mortgaged x).
Definition with_houses (h : Z) (x : t) : t :=
  mk (position x) (name x) (tile_type x) (price x) (mortgage_value x)
     (color_group x) (house_cost x) (rent x) (owner x) h (is_mortgaged x).
Definition with_is_mortgaged (b : bool) (x : t) : t :=
  mk (position x) (name x) (tile_type x) (price x) (mortgage_value x)
     (color_group x) (house_cost x) (rent x) (owner x) (houses x) b.

(** [rr_rent.get(railroads_owned, 25)] with
    [rr_rent = {1: 25, 2: 50, 3: 100, 4: 200}] *)
Definition rr_rent (railroads_owned : Z) : Z :=
  if railroads_owned =? 1 then 25
  else if railroads_owned =? 2 then 50
  else if railroads_owned =? 3 then 100
  else if railroads_owned =? 4 then 200
  else 25.

(** [Property.get_rent(dice_roll=0, railroads_owned=1, utilities_owned=1)];
    the callers below pass the defaults themselves. *)
Definition get_rent (self : t) (dice_roll railroads_owned utilities_owned : Z)
    : res Z :=
  if is_mortgaged self then Ret 0
  else match tile_type self with
       | PROPERTY => py_index (rent self) (Z.min (houses self) 5)
       | RAILROAD => Ret (rr_rent railroads_owned)
       | UTILITY =>
           let multiplier := if utilities_owned =? 2 then 10 else 4 in
           Ret (dice_roll * multiplier)
       | _ => Ret 0
       end.

End Property.

Definition COLOR_GROUPS : gmap string (list Z) :=
  list_to_map
    [ ("brown", [1; 3]);
      ("light_blue", [6; 8; 9]);
      ("pink", [11; 13; 14]);
      ("orange", [16; 18; 19]);
      ("red", [21; 23; 24]);
      ("yellow", [26; 27; 29]);
      ("green", [31; 32; 34]);
      ("dark_blue", [37; 39]) ].

(** ** Players *)

Module Player.

(** Modelled from the spec: the class [Player] of [game/data/player.py],
    which the engine imports, is not among the sources.  Its fields are
    those the engine reads and writes; their initial values are those of
    the spec's player record at game start (cash 1500, position 0, no
    holdings, not in jail, counters at zero, not bankrupt). *)
Record t := mk {
  name : string;
  money : Z;
  position : Z;
  properties : list Z;
  in_jail : bool;
  jail_turns : Z;
  jail_cards : Z;
  doubles_count : Z;
  bankrupt : bool
}.

(** [Player(name=name)] *)
Definition new (n : string) : t := mk n 1500 0 [] false 0 0 0 false.

Definition with_money (v : Z) (p : t) : t :=
  mk (name p) v (position p) (properties p) (in_jail p) (jail_turns p)
     (jail_cards p) (doubles_count p) (bankrupt p).
Definition with_position (v : Z) (p : t) : t :=
  mk (name p) (money p) v (properties p) (in_jail p) (jail_turns p)
     (jail_cards p) (doubles_count p) (bankrupt p).
Definition with_properties (v : list Z) (p : t) : t :=
  mk (name p) (money p) (position p) v (in_jail p) (jail_turns p)
     (jail_cards p) (doubles_count p) (bankrupt p).
Definition with_in_jail (v : bool) (p : t) : t :=
  mk (name p) (money p) (position p) (properties p) v (jail_turns p)
     (jail_cards p) (doubles_count p) (bankrupt p).
Definition with_jail_turns (v : Z) (p : t) : t :=
  mk (name p) (money p) (position p) (properties p) (in_jail p) v
     (jail_cards p) (doubles_count p) (bankrupt p).
Definition with_jail_cards (v : Z) (p : t) : t :=
  mk (name p) (money p) (position p) (properties p) (in_jail p) (jail_turns p)
     v (doubles_count p) (bankrupt p).
Definition with_doubles_count (v : Z) (p : t) : t :=
  mk (name p) (money p) (position p) (properties p) (in_jail p) (jail_turns p)
     (jail_cards p) v (bankrupt p).
Definition with_bankrupt (v : bool) (p : t) : t :=
  mk (name p) (money p) (position p) (properties p) (in_jail p) (jail_turns p)
     (jail_cards p) (doubles_count p) v.

End Player.

(** ** The engine object ([MonopolyGameEngine]) *)

Record Engine := mkEngine {
  players : gmap string Player.t;
  player_order : list string;
  current_player_idx : nat;
  phase : GamePhase;
  tiles : gmap Z Property.t;
  last_dice : Z * Z;
  turn_number : Z;
  messages : list string;
  chance_deck : list Card;
  community_deck : list Card
}.

Definition with_players (v : gmap string Player.t) (s : Engine) : Engine :=
  mkEngine v (player_order s) (current_player_idx s) (phase s) (tiles s)
    (last_dice s) (turn_number s) (messages s) (chance_deck s) (community_deck s).
Definition with_current_player_idx (v : nat) (s : Engine) : Engine :=
  mkEngine (players s) (player_order s) v (phase s) (tiles s)
    (last_dice s) (turn_number s) (messages s) (chance_deck s) (community_deck s).
Definition with_phase (v : GamePhase) (s : Engine) : Engine :=
  mkEngine (players s) (player_order s) (current_player_idx s) v (tiles s)
    (last_dice s) (turn_number s) (messages s) (chance_deck s) (community_deck s).
Definition with_tiles (v : gmap Z Property.t) (s : Engine) : Engine :=
  mkEngine (players s) (player_order s) (current_player_idx s) (phase s) v
    (last_dice s) (turn_number s) (messages s) (chance_deck s) (community_deck s).
Definition with_last_dice (v : Z * Z) (s : Engine) : Engine :=
  mkEngine (players s) (player_order s) (current_player_idx s) (phase s) (tiles s)
    v (turn_number s) (messages s) (chance_deck s) (community_deck s).
Definition with_turn_number (v : Z) (s : Engine) : Engine :=
  mkEngine (players s) (player_order s) (current_player_idx s) (phase s) (tiles s)
    (last_dice s) v (messages s) (chance_deck s) (community_deck s).
Definition with_messages (v : list string) (s : Engine) : Engine :=
  mkEngine (players s) (player_order s) (current_player_idx s) (phase s) (tiles s)
    (last_dice s) (turn_number s) v (chance_deck s) (community_deck s).
Definition with_chance_deck (v : list Card) (s : Engine) : Engine :=
  mkEngine (players s) (player_order s) (current_player_idx s) (phase s) (tiles s)
    (last_dice s) (turn_number s) (messages s) v (community_deck s).
Definition with_community_deck (v : list Card) (s : Engine) : Engine :=
  mkEngine (players s) (player_order s) (current_player_idx s) (phase s) (tiles s)
    (last_dice s) (turn_number s) (messages s) (chance_deck s) v.

(** ** The monad of engine methods: state passing with faults *)

Definition M (A : Type) : Type := Engine -> res (A * Engine).

Definition ret {A} (a : A) : M A := fun s => Ret (a, s).
Definition bind {A B} (m : M A) (k : A -> M B) : M B :=
  fun s => match m s with
           | Ret (a, s') => k a s'
           | Raise e => Raise e
           end.
Definition raise {A} (e : Fault) : M A := fun _ => Raise e.
Definition get : M Engine := fun s => Ret (s, s).
Definition modify (f : Engine -> Engine) : M unit := fun s => Ret (tt, f s).
Definition lift {A} (r : res A) : M A :=
  fun s => match r with Ret a => Ret (a, s) | Raise e => Raise e end.

Declare Scope engine_scope.
Delimit Scope engine_scope with engine.
Notation "x <- m ;; k" := (bind m (fun x => k))
  (at level 100, m at next level, right associativity) : engine_scope.
Notation "m ;; k" := (bind m (fun _ => k))
  (at level 100, right associativity) : engine_scope.
Open Scope engine_scope.

(** A player or a tile held in a Python variable is a reference into
    [self.players] or [self.tiles]: here the key of the object.  A field
    read goes through the store ([player], [tile]) and an assignment to a
    field updates the store ([update_player], [update_tile]). *)

Definition player (pn : string) : M Player.t :=
  s <- get ;;
  match players s !! pn with
  | Some p => ret p
  | None => raise KeyError
  end.

Definition tile (key : Z) : M Property.t :=
  s <- get ;;
  match tiles s !! key with
  | Some t => ret t
  | None => raise KeyError
  end.

Definition update_player (pn : string) (f : Player.t -> Player.t) : M unit :=
  modify (fun s => with_players (alter f pn (players s)) s).

Definition update_tile (key : Z) (f : Property.t -> Property.t) : M unit :=
  modify (fun s => with_tiles (alter f key (tiles s)) s).

Definition set_phase (ph : GamePhase) : M unit := modify (with_phase ph).

(** [self.current_player]:
    [self.players[self.player_order[self.current_player_idx]]] *)
Definition current_player : M string :=
  s <- get ;;
  match player_order s !! current_player_idx s with
  | None => raise IndexError
  | Some pn => player pn ;; ret pn
  end.

(** [self.current_tile]: [self.tiles[self.current_player.position]] *)
Definition current_tile : M Z :=
  pn <- current_player ;;
  p <- player pn ;;
  tile (Player.position p) ;; ret (Player.position p).

(** [_log]: append, then keep the last 50 messages. *)
Definition _log (msg : string) : M unit :=
  modify (fun s =>
    let ms := messages s ++ [msg] in
    with_messages
      (if (50 <? length ms)%nat then drop (length ms - 50) ms else ms) s).

(** ** Construction and [initialize] *)

(** [MonopolyGameEngine(player_names)]; the two arguments after the names
    are the outcomes of the two calls to [random.shuffle]. *)
Definition __init__ (player_names : list string)
    (chance_shuffled community_shuffled : list Card) : Engine :=
  mkEngine ∅ player_names 0 WAITING_FOR_ROLL ∅ (0, 0) 0 []
    chance_shuffled community_shuffled.

Definition new_property (pos : Z) (data : TileData) : Property.t :=
  Property.mk pos (td_name data) (td_type data) (td_price data)
    (td_mortgage data) (td_color data) (td_house_cost data) (td_rent data)
    None 0 false.

(** [", ".join(l)] *)
Definition join (sep : string) (l : list string) : string := String.concat sep l.

(** The body of the loop of [initialize] over [TILE_DATA.items()]: the
    start message is appended there, once per tile, and not through
    [_log]. *)
Definition add_tile (s : Engine) (item : Z * TileData) : Engine :=
  let '(pos, data) := item in
  with_messages
    (messages s ++ ["Game started with players: " +:+ join ", " (player_order s)])
    (with_tiles (<[pos := new_property pos data]> (tiles s)) s).

Definition initialize : M Result :=
  modify (fun s =>
    with_players
      (foldl (fun m n => <[n := Player.new n]> m) (players s) (player_order s)) s) ;;
  modify (fun s => foldl add_tile s TILE_ITEMS) ;;
  s <- get ;;
  ret [ ("status", VStr "success");
        ("message",
         VStr ("Game initialized with " +:+ pretty (size (players s)) +:+ " players"));
        ("players", VStrs (player_order s)) ].

(** ** Jail, rent, cards and landing *)

Definition _send_to_jail (pn : string) (reason : string) : M unit :=
  update_player pn (Player.with_position 10) ;;
  update_player pn (Player.with_in_jail true) ;;
  update_player pn (Player.with_jail_turns 0) ;;
  update_player pn (Player.with_doubles_count 0) ;;
  set_phase TURN_COMPLETE ;;
  p <- player pn ;;
  _log (Player.name p +:+ " sent to jail (" +:+ reason +:+ ")").

(** [sum(1 for pos in props if self.tiles[pos].tile_type == ty)] *)
Fixpoint count_type (tl : gmap Z Property.t) (ty : TileType) (props : list Z)
    : res Z :=
  match props with
  | [] => Ret 0
  | pos :: rest =>
      match tl !! pos with
      | None => Raise KeyError
      | Some t =>
          match count_type tl ty rest with
          | Ret c =>
              Ret ((if decide (Property.tile_type t = ty) then 1 else 0) + c)
          | Raise e => Raise e
          end
      end
  end.

Definition _calculate_rent (t : Property.t) (dice : Z) : M Z :=
  s <- get ;;
  match Property.owner t with
  | None => raise KeyError
  | Some o =>
      owner <- player o ;;
      match Property.tile_type t with
      | RAILROAD =>
          count <- lift (count_type (tiles s) RAILROAD (Player.properties owner)) ;;
          lift (Property.get_rent t 0 count 1)
      | UTILITY =>
          count <- lift (count_type (tiles s) UTILITY (Player.properties owner)) ;;
          lift (Property.get_rent t dice 1 count)
      | _ => lift (Property.get_rent t 0 1 1)
      end
  end.

(** The outcome of [random.shuffle] for the reshuffle at each depth of the
    landing resolution. *)
Definition Shuffle := nat -> list Card -> list Card.

(** [sum(self.last_dice)] *)
Definition last_dice_sum : M Z :=
  s <- get ;; ret (fst (last_dice s) + snd (last_dice s)).

Section Landing.

Variable shuffle : Shuffle.

(** [_draw_card], with the recursive call to [_handle_landing] as
    [landing].  [deck] is the engine's deck itself while that is not
    empty, so that [deck.pop(0)] removes the card from it; on an empty
    deck the name [deck] is bound to a shuffled copy of the full deck, the
    card is popped from the copy and the engine's deck is not assigned. *)
Definition _draw_card (landing : string -> Property.t -> Z -> M Result)
    (depth : nat) (pn : string) (card_type : TileType) : M Result :=
  s <- get ;;
  let is_chance := bool_decide (card_type = CHANCE) in
  card <-
    match (if is_chance then chance_deck s else community_deck s) with
    | c :: rest =>
        modify (if is_chance then with_chance_deck rest
                else with_community_deck rest) ;;
        ret c
    | [] =>
        match shuffle depth (if is_chance then CHANCE_CARDS else COMMUNITY_CARDS) with
        | c :: _ => ret c
        | [] => raise IndexError
        end
    end ;;
  p <- player pn ;;
  _log (Player.name p +:+ " drew: " +:+ card_text card) ;;
  match card_kind card with
  | Money amount =>
      update_player pn (fun p => Player.with_money (Player.money p + amount) p) ;;
      set_phase TURN_COMPLETE ;;
      ret [("result", VStr (card_text card)); ("money_change", VInt amount)]
  | Move to =>
      p <- player pn ;;
      let old := Player.position p in
      update_player pn (Player.with_position to) ;;
      (if to <? old
       then update_player pn (fun p => Player.with_money (Player.money p + 200) p)
       else ret tt) ;;
      set_phase TURN_COMPLETE ;;
      p <- player pn ;;
      t <- tile (Player.position p) ;;
      dice <- last_dice_sum ;;
      landing pn t dice
  | MoveBack spaces =>
      update_player pn
        (fun p => Player.with_position ((Player.position p - spaces) mod 40) p) ;;
      set_phase TURN_COMPLETE ;;
      p <- player pn ;;
      t <- tile (Player.position p) ;;
      dice <- last_dice_sum ;;
      landing pn t dice
  | JailCard =>
      update_player pn (fun p => Player.with_jail_cards (Player.jail_cards p + 1) p) ;;
      set_phase TURN_COMPLETE ;;
      ret [("result", VStr "Received Get Out of Jail Free card")]
  | GoToJail =>
      _send_to_jail pn "card" ;;
      ret [("result", VStr "Go to Jail!")]
  end.

(** [TILE_DATA[tile.position].get("amount", 0)] *)
Definition tax_amount (t : Property.t) : M Z :=
  match TILE_DATA !! Property.position t with
  | Some data => ret (td_amount data)
  | None => raise KeyError
  end.

(** [_handle_landing]: [fuel] bounds the depth of the recursion through
    [_draw_card], as the interpreter's recursion limit does. *)
Fixpoint _handle_landing (fuel depth : nat) (pn : string) (t : Property.t)
    (dice_total : Z) : M Result :=
  match fuel with
  | O => raise RecursionError
  | S fuel' =>
      match Property.tile_type t with
      | GO_TO_JAIL =>
          _send_to_jail pn "landed on Go To Jail" ;;
          ret [("result", VStr "Go to Jail!")]
      | TAX =>
          amount <- tax_amount t ;;
          update_player pn (fun p => Player.with_money (Player.money p - amount) p) ;;
          p <- player pn ;;
          _log (Player.name p +:+ " paid $" +:+ str amount +:+ " tax") ;;
          set_phase TURN_COMPLETE ;;
          ret [("result", VStr ("Paid $" +:+ str amount +:+ " tax"))]
      | CHANCE | COMMUNITY_CHEST =>
          _draw_card (_handle_landing fuel' (S depth)) depth pn
            (Property.tile_type t)
      | PROPERTY | RAILROAD | UTILITY =>
          p <- player pn ;;
          match Property.owner t with
          | None =>
              set_phase WAITING_FOR_BUY_DECISION ;;
              ret [ ("result", VStr "unowned_property");
                    ("price", VInt (Property.price t));
                    ("can_afford",
                     VBool (Property.price t <=? Player.money p)) ]
          | Some o =>
              if negb (String.eqb o (Player.name p)) then
                rent <- _calculate_rent t dice_total ;;
                update_player pn
                  (fun p => Player.with_money (Player.money p - rent) p) ;;
                update_player o
                  (fun q => Player.with_money (Player.money q + rent) q) ;;
                _log (Player.name p +:+ " paid $" +:+ str rent +:+ " rent to " +:+ o) ;;
                set_phase TURN_COMPLETE ;;
                ret [("result",
                      VStr ("Paid $" +:+ str rent +:+ " rent to " +:+ o))]
              else
                set_phase TURN_COMPLETE ;;
                ret [("result", VStr "Landed on own property")]
          end
      | GO | JAIL | FREE_PARKING =>
          set_phase TURN_COMPLETE ;;
          ret [("result", VStr "Nothing happens")]
      end
  end.

End Landing.

(** ** Operations *)

Definition error (msg : string) : Result := [("error", VStr msg)].

(** The end of [roll_and_move], after the landing: the result is completed
    and a double whose turn is complete rolls again. *)
Definition finish_roll (d1 d2 : Z) (pn : string) (t : Property.t)
    (result : Result) : M Result :=
  p <- player pn ;;
  let result := dict_set "dice" (VInts [d1; d2]) result in
  let result := dict_set "doubles" (VBool (d1 =? d2)) result in
  let result := dict_set "new_position" (VInt (Player.position p)) result in
  let result := dict_set "tile" (VStr (Property.name t)) result in
  let result := dict_set "money" (VInt (Player.money p)) result in
  s <- get ;;
  if (d1 =? d2) && bool_decide (phase s = TURN_COMPLETE) then
    set_phase WAITING_FOR_ROLL ;;
    ret (dict_set "roll_again" (VBool true) result)
  else ret result.

(** [roll_and_move]; [d1] and [d2] are the two [random.randint(1, 6)]. *)
Definition roll_and_move (fuel : nat) (d1 d2 : Z) (shuffle : Shuffle) : M Result :=
  s <- get ;;
  if decide (phase s = IN_JAIL) then
    ret (error "You are in jail. Use jail actions instead.")
  else if decide (phase s <> WAITING_FOR_ROLL) then
    ret (error ("Cannot roll now. Current phase: " +:+ phase_value (phase s)))
  else
    pn <- current_player ;;
    modify (with_last_dice (d1, d2)) ;;
    let total := d1 + d2 in
    let is_doubles := d1 =? d2 in
    p <- player pn ;;
    _log (Player.name p +:+ " rolled [" +:+ str d1 +:+ "][" +:+ str d2 +:+ "] = "
          +:+ str total +:+ (if is_doubles then " DOUBLES!" else EmptyString)) ;;
    third <-
      (if is_doubles then
         update_player pn
           (fun p => Player.with_doubles_count (Player.doubles_count p + 1) p) ;;
         p <- player pn ;;
         ret (3 <=? Player.doubles_count p)
       else
         update_player pn (Player.with_doubles_count 0) ;;
         ret false) ;;
    if third : bool then
      _send_to_jail pn "three doubles" ;;
      ret [ ("dice", VInts [d1; d2]);
            ("doubles", VBool true);
            ("result", VStr "Sent to jail for 3 doubles!") ]
    else
      p <- player pn ;;
      let old_pos := Player.position p in
      update_player pn
        (fun p => Player.with_position ((Player.position p + total) mod 40) p) ;;
      p <- player pn ;;
      (if (Player.position p <? old_pos) && negb (Player.position p =? 10) then
         update_player pn (fun p => Player.with_money (Player.money p + 200) p) ;;
         _log (Player.name p +:+ " passed GO and collected $200")
       else ret tt) ;;
      key <- current_tile ;;
      t <- tile key ;;
      _log (Player.name p +:+ " landed on " +:+ Property.name t) ;;
      result <- _handle_landing shuffle fuel 0 pn t total ;;
      finish_roll d1 d2 pn t result.

Definition buy_current_property : M Result :=
  s <- get ;;
  if decide (phase s <> WAITING_FOR_BUY_DECISION) then
    ret (error "No property available to buy")
  else
    pn <- current_player ;;
    key <- current_tile ;;
    p <- player pn ;;
    t <- tile key ;;
    if Player.money p <? Property.price t then
      ret (error ("Not enough money. Need $" +:+ str (Property.price t)
                  +:+ ", have $" +:+ str (Player.money p)))
    else
      update_player pn
        (fun p => Player.with_money (Player.money p - Property.price t) p) ;;
      update_tile key (Property.with_owner (Some (Player.name p))) ;;
      update_player pn
        (fun p => Player.with_properties
                    (Player.properties p ++ [Property.position t]) p) ;;
      _log (Player.name p +:+ " bought " +:+ Property.name t +:+ " for $"
            +:+ str (Property.price t)) ;;
      set_phase TURN_COMPLETE ;;
      p <- player pn ;;
      ret [ ("success", VBool true);
            ("property", VStr (Property.name t));
            ("price", VInt (Property.price t));
            ("remaining_money", VInt (Player.money p)) ].

Definition decline_purchase : M Result :=
  s <- get ;;
  if decide (phase s <> WAITING_FOR_BUY_DECISION) then
    ret (error "No property to decline")
  else
    key <- current_tile ;;
    t <- tile key ;;
    set_phase TURN_COMPLETE ;;
    _log ("Declined property purchase  for " +:+ Property.name t) ;;
    ret [ ("success", VBool true);
          ("successfully declined purchase of property", VBool true);
          ("property", VStr (Property.name t)) ].

Definition pay_bail : M Result :=
  pn <- current_player ;;
  p <- player pn ;;
  if negb (Player.in_jail p) then ret (error "Not in jail")
  else if Player.money p <? 50 then ret (error "Not enough money for bail")
  else
    update_player pn (fun p => Player.with_money (Player.money p - 50) p) ;;
    update_player pn (Player.with_in_jail false) ;;
    update_player pn (Player.with_jail_turns 0) ;;
    set_phase WAITING_FOR_ROLL ;;
    _log (Player.name p +:+ " paid $50 bail") ;;
    p <- player pn ;;
    ret [("success", VBool true); ("remaining_money", VInt (Player.money p))].

Definition use_jail_card : M Result :=
  pn <- current_player ;;
  p <- player pn ;;
  if negb (Player.in_jail p) then ret (error "Not in jail")
  else if Player.jail_cards p <? 1 then ret (error "No jail cards")
  else
    update_player pn
      (fun p => Player.with_jail_cards (Player.jail_cards p - 1) p) ;;
    update_player pn (Player.with_in_jail false) ;;
    update_player pn (Player.with_jail_turns 0) ;;
    set_phase WAITING_FOR_ROLL ;;
    _log (Player.name p +:+ " used Get Out of Jail Free card") ;;
    ret [("success", VBool true)].

Definition roll_for_doubles (d1 d2 : Z) : M Result :=
  pn <- current_player ;;
  p <- player pn ;;
  if negb (Player.in_jail p) then ret (error "Not in jail")
  else
    modify (with_last_dice (d1, d2)) ;;
    _log (Player.name p +:+ " rolled [" +:+ str d1 +:+ "][" +:+ str d2
          +:+ "] trying for doubles") ;;
    if d1 =? d2 then
      update_player pn (Player.with_in_jail false) ;;
      update_player pn (Player.with_jail_turns 0) ;;
      set_phase WAITING_FOR_ROLL ;;
      _log (Player.name p +:+ " rolled doubles and escaped jail!") ;;
      ret [ ("success", VBool true); ("dice", VInts [d1; d2]);
            ("escaped", VBool true) ]
    else
      update_player pn
        (fun p => Player.with_jail_turns (Player.jail_turns p + 1) p) ;;
      p <- player pn ;;
      if 3 <=? Player.jail_turns p then
        update_player pn (fun p => Player.with_money (Player.money p - 50) p) ;;
        update_player pn (Player.with_in_jail false) ;;
        update_player pn (Player.with_jail_turns 0) ;;
        set_phase WAITING_FOR_ROLL ;;
        _log (Player.name p +:+ " forced to pay $50 after 3 turns") ;;
        ret [ ("dice", VInts [d1; d2]); ("escaped", VBool false);
              ("forced_bail", VBool true) ]
      else
        set_phase TURN_COMPLETE ;;
        ret [ ("dice", VInts [d1; d2]); ("escaped", VBool false);
              ("turns_remaining", VInt (3 - Player.jail_turns p)) ].

(** [[self.tiles[g].houses for g in group]] *)
Fixpoint group_houses (tl : gmap Z Property.t) (group : list Z) : res (list Z) :=
  match group with
  | [] => Ret []
  | g :: rest =>
      match tl !! g with
      | None => Raise KeyError
      | Some t =>
          match group_houses tl rest with
          | Ret hs => Ret (Property.houses t :: hs)
          | Raise e => Raise e
          end
      end
  end.

(** [min(...)]: a [ValueError] on an empty sequence. *)
Definition py_min (l : list Z) : res Z :=
  match l with
  | [] => Raise ValueError
  | x :: rest => Ret (foldl Z.min x rest)
  end.

(** [COLOR_GROUPS.get(color, [])] *)
Definition color_group_positions (color : string) : list Z :=
  default [] (COLOR_GROUPS !! color).

(** The body of the loop of [_get_buildable_properties] for one [pos]:
    whether [pos] is appended. *)
Definition buildable_here (tl : gmap Z Property.t) (p : Player.t) (pos : Z)
    : res bool :=
  match tl !! pos with
  | None => Raise KeyError
  | Some t =>
      if negb (bool_decide (Property.tile_type t = PROPERTY))
         || (5 <=? Property.houses t) || Property.is_mortgaged t
      then Ret false
      else
        let group := color_group_positions (Property.color_group t) in
        if forallb (fun g => bool_decide (g ∈ Player.properties p)) group then
          match group_houses tl group with
          | Raise e => Raise e
          | Ret hs =>
              match py_min hs with
              | Raise e => Raise e
              | Ret min_houses =>
                  Ret ((Property.houses t <=? min_houses)
                       && (Property.house_cost t <=? Player.money p))
              end
          end
        else Ret false
  end.

Fixpoint buildable_loop (tl : gmap Z Property.t) (p : Player.t) (props : list Z)
    : res (list Z) :=
  match props with
  | [] => Ret []
  | pos :: rest =>
      match buildable_here tl p pos with
      | Raise e => Raise e
      | Ret b =>
          match buildable_loop tl p rest with
          | Raise e => Raise e
          | Ret l => Ret (if b then pos :: l else l)
          end
      end
  end.

Definition _get_buildable_properties (pn : string) : M (list Z) :=
  s <- get ;;
  p <- player pn ;;
  lift (buildable_loop (tiles s) p (Player.properties p)).

Definition build_house (position : Z) : M Result :=
  pn <- current_player ;;
  p <- player pn ;;
  if negb (bool_decide (position ∈ Player.properties p)) then
    ret (error "You don't own this property")
  else
    t <- tile position ;;
    buildable <- _get_buildable_properties pn ;;
    if negb (bool_decide (position ∈ buildable)) then
      ret (error "Cannot build here. Check monopoly ownership and even building rules.")
    else
      update_player pn
        (fun p => Player.with_money (Player.money p - Property.house_cost t) p) ;;
      update_tile position (fun t => Property.with_houses (Property.houses t + 1) t) ;;
      t <- tile position ;;
      let building :=
        if Property.houses t =? 5 then "hotel"
        else str (Property.houses t) +:+ " house(s)" in
      _log (Player.name p +:+ " built on " +:+ Property.name t +:+ " - now has "
            +:+ building) ;;
      ret [ ("success", VBool true);
            ("property", VStr (Property.name t));
            ("houses", VInt (Property.houses t));
            ("cost", VInt (Property.house_cost t)) ].

Definition mortgage_property (position : Z) : M Result :=
  pn <- current_player ;;
  p <- player pn ;;
  if negb (bool_decide (position ∈ Player.properties p)) then
    ret (error "You don't own this property")
  else
    t <- tile position ;;
    if Property.is_mortgaged t then ret (error "Already mortgaged")
    else if 0 <? Property.houses t then ret (error "Sell houses first")
    else
      update_tile position (Property.with_is_mortgaged true) ;;
      update_player pn
        (fun p => Player.with_money (Player.money p + Property.mortgage_value t) p) ;;
      _log (Player.name p +:+ " mortgaged " +:+ Property.name t +:+ " for $"
            +:+ str (Property.mortgage_value t)) ;;
      ret [ ("success", VBool true);
            ("property", VStr (Property.name t));
            ("received", VInt (Property.mortgage_value t)) ].

(** [int(mortgage_value * 1.1)].  The product is a binary floating-point
    number and [int] truncates towards zero; the integer [Z.quot (11 * m) 10]
    is the same number for every mortgage value of the board (the multiples
    of 5 from 30 to 200), where the rounding error of [m * 1.1] stays far
    below the distance to the next integer. *)
Definition unmortgage_cost (mortgage_value : Z) : Z :=
  Z.quot (mortgage_value * 11) 10.

Definition unmortgage_property (position : Z) : M Result :=
  pn <- current_player ;;
  p <- player pn ;;
  if negb (bool_decide (position ∈ Player.properties p)) then
    ret (error "You don't own this property")
  else
    t <- tile position ;;
    if negb (Property.is_mortgaged t) then ret (error "Not mortgaged")
    else
      let cost := unmortgage_cost (Property.mortgage_value t) in
      if Player.money p <? cost then
        ret (error ("Need $" +:+ str cost +:+ " to unmortgage"))
      else
        update_player pn (fun p => Player.with_money (Player.money p - cost) p) ;;
        update_tile position (Property.with_is_mortgaged false) ;;
        _log (Player.name p +:+ " unmortgaged " +:+ Property.name t +:+ " for $"
              +:+ str cost) ;;
        ret [ ("success", VBool true);
              ("property", VStr (Property.name t));
              ("cost", VInt cost) ].

(** [[n for n in self.player_order if not self.players[n].bankrupt]] *)
Fixpoint active_players (pl : gmap string Player.t) (order : list string)
    : res (list string) :=
  match order with
  | [] => Ret []
  | n :: rest =>
      match pl !! n with
      | None => Raise KeyError
      | Some p =>
          match active_players pl rest with
          | Raise e => Raise e
          | Ret l => Ret (if Player.bankrupt p then l else n :: l)
          end
      end
  end.

(** [self.current_player_idx = (self.current_player_idx + 1) % len(self.player_order)];
    where [end_turn] runs it the order holds two active players, so that
    the modulus is not zero. *)
Definition advance_idx : M unit :=
  modify (fun s =>
    with_current_player_idx
      ((current_player_idx s + 1) mod length (player_order s))%nat s).

(** The [while] loop of [end_turn].  The loop leaves the engine as it is
    but for the index, which runs through the player order cyclically: when
    [len(self.player_order)] advances have not left it, every player is
    bankrupt and it never ends. *)
Fixpoint skip_bankrupt (fuel : nat) : M unit :=
  s <- get ;;
  match player_order s !! current_player_idx s with
  | None => raise IndexError
  | Some n =>
      p <- player n ;;
      if Player.bankrupt p then
        match fuel with
        | O => raise NoReturn
        | S fuel' => advance_idx ;; skip_bankrupt fuel'
        end
      else ret tt
  end.

(** The second part of [end_turn], under its comment "Move to next
    player". *)
Definition move_to_next_player : M Result :=
  s <- get ;;
  active <- lift (active_players (players s) (player_order s)) ;;
  if (length active <=? 1)%nat then
    set_phase GAME_OVER ;;
    ret [("game_over", VBool true); ("winner", VOptStr (head active))]
  else
    advance_idx ;;
    skip_bankrupt (length (player_order s)) ;;
    modify (fun s => with_turn_number (turn_number s + 1) s) ;;
    new_player <- current_player ;;
    np <- player new_player ;;
    set_phase (if Player.in_jail np then IN_JAIL else WAITING_FOR_ROLL) ;;
    s <- get ;;
    ret [ ("success", VBool true);
          ("next_player", VStr (Player.name np));
          ("turn", VInt (turn_number s));
          ("phase", VStr (phase_value (phase s))) ].

Definition end_turn : M Result :=
  s <- get ;;
  if decide (phase s <> TURN_COMPLETE) then
    ret (error ("Cannot end turn in phase: " +:+ phase_value (phase s)))
  else
    pn <- current_player ;;
    update_player pn (Player.with_doubles_count 0) ;;
    p <- player pn ;;
    (if Player.money p <? 0 then
       update_player pn (Player.with_bankrupt true) ;;
       _log (Player.name p +:+ " is BANKRUPT!")
     else ret tt) ;;
    move_to_next_player.

Definition get_property_info (position : Z) : M Result :=
  s <- get ;;
  match tiles s !! position with
  | None => ret (error "Invalid position")
  | Some t =>
      ret [ ("position", VInt position);
            ("name", VStr (Property.name t));
            ("type", VStr (tile_type_value (Property.tile_type t)));
            ("price", VInt (Property.price t));
            ("owner", VOptStr (Property.owner t));
            ("houses", VInt (Property.houses t));
            ("mortgage_value", VInt (Property.mortgage_value t));
            ("is_mortgaged", VBool (Property.is_mortgaged t));
            ("color_group", VStr (Property.color_group t));
            ("rent", VInts (Property.rent t));
            ("house_cost", VInt (Property.house_cost t)) ]
  end.

(** ** Specifications: weakest preconditions, inputs, reachable states *)

(** [wp m s Q]: run from [s], the method [m] returns, without a fault, a
    value and a state that satisfy [Q]. *)
Definition wp {A} (m : M A) (s : Engine) (Q : A -> Engine -> Prop) : Prop :=
  match m s with
  | Ret (a, s') => Q a s'
  | Raise _ => False
  end.

(** What [random] can produce: a die shows 1 to 6 and a shuffle permutes. *)
Definition die (d : Z) : Prop := 1 <= d <= 6.
Definition fair (shuffle : Shuffle) : Prop :=
  forall depth l, Permutation (shuffle depth l) l.

(** The operations of the engine, with their arguments and random inputs. *)
Inductive Op :=
  | RollAndMove (fuel : nat) (d1 d2 : Z) (shuffle : Shuffle)
  | BuyCurrentProperty
  | DeclinePurchase
  | PayBail
  | UseJailCard
  | RollForDoubles (d1 d2 : Z)
  | BuildHouse (position : Z)
  | MortgageProperty (position : Z)
  | UnmortgageProperty (position : Z)
  | EndTurn
  | GetPropertyInfo (position : Z).

Definition run_op (op : Op) : M Result :=
  match op with
  | RollAndMove fuel d1 d2 shuffle => roll_and_move fuel d1 d2 shuffle
  | BuyCurrentProperty => buy_current_property
  | DeclinePurchase => decline_purchase
  | PayBail => pay_bail
  | UseJailCard => use_jail_card
  | RollForDoubles d1 d2 => roll_for_doubles d1 d2
  | BuildHouse position => build_house position
  | MortgageProperty position => mortgage_property position
  | UnmortgageProperty position => unmortgage_property position
  | EndTurn => end_turn
  | GetPropertyInfo position => get_property_info position
  end.

(** The random inputs are those [random] can produce, and the recursion
    budget is at least the three frames a landing can need on this board
    (the interpreter's limit is far above). *)
Definition valid_op (op : Op) : Prop :=
  match op with
  | RollAndMove fuel d1 d2 shuffle =>
      (3 <= fuel)%nat /\ die d1 /\ die d2 /\ fair shuffle
  | RollForDoubles d1 d2 => die d1 /\ die d2
  | _ => True
  end.

(** The states of a running engine: constructed for a non-empty list of
    names, initialized, and then driven by operations that returned. *)
Inductive reachable : Engine -> Prop :=
  | reachable_init names chance community r s :
      names <> [] ->
      Permutation chance CHANCE_CARDS ->
      Permutation community COMMUNITY_CARDS ->
      initialize (__init__ names chance community) = Ret (r, s) ->
      reachable s
  | reachable_step s op r s' :
      reachable s ->
      valid_op op ->
      run_op op s = Ret (r, s') ->
      reachable s'.

(** *** The invariant of reachable states *)

Definition in_board (pos : Z) : Prop := 0 <= pos < 40.

Definition player_ok (n : string) (p : Player.t) : Prop :=
  Player.name p = n /\
  in_board (Player.position p) /\
  Forall in_board (Player.properties p).

(** The fields of a tile that no operation assigns are those of the board. *)
Definition reset (t : Property.t) : Property.t :=
  Property.with_owner None (Property.with_houses 0 (Property.with_is_mortgaged false t)).

Definition tile_ok (pl : gmap string Player.t) (pos : Z) (t : Property.t) : Prop :=
  (exists data, TILE_DATA !! pos = Some data /\ reset t = new_property pos data) /\
  0 <= Property.houses t <= 5 /\
  (forall o, Property.owner t = Some o -> is_Some (pl !! o)).

Record base (pl : gmap string Player.t) (order : list string) (idx : nat)
    (tl : gmap Z Property.t) (chance community : list Card) : Prop := mkBase {
  base_idx : (idx < length order)%nat;
  base_order : forall n, n ∈ order -> is_Some (pl !! n);
  base_players : forall n p, pl !! n = Some p -> player_ok n p;
  base_tiles : forall pos, in_board pos ->
               exists t, tl !! pos = Some t /\ tile_ok pl pos t;
  base_chance : forall c, c ∈ chance -> c ∈ CHANCE_CARDS;
  base_community : forall c, c ∈ community -> c ∈ COMMUNITY_CARDS
}.

Definition Base (s : Engine) : Prop :=
  base (players s) (player_order s) (current_player_idx s) (tiles s)
    (chance_deck s) (community_deck s).

Definition ownable (ty : TileType) : Prop :=
  ty = PROPERTY \/ ty = RAILROAD \/ ty = UTILITY.

(** While a purchase is pending the current player stands on an ownable
    tile that nobody owns. *)
Definition buy_pending (s : Engine) : Prop :=
  phase s = WAITING_FOR_BUY_DECISION ->
  exists pn p t,
    player_order s !! current_player_idx s = Some pn /\
    players s !! pn = Some p /\
    tiles s !! Player.position p = Some t /\
    ownable (Property.tile_type t) /\
    Property.owner t = None.

Definition Inv (s : Engine) : Prop := Base s /\ buy_pending s.

(** [n] names a player who is not bankrupt. *)
Definition is_active (pl : gmap string Player.t) (n : string) : bool :=
  match pl !! n with
  | Some p => negb (Player.bankrupt p)
  | None => false
  end.

(** The player at index [i] of the order is bankrupt. *)
Definition bankrupt_at (pl : gmap string Player.t) (order : list string) (i : nat)
    : Prop :=
  exists n p, order !! i = Some n /\ pl !! n = Some p /\ Player.bankrupt p = true.

(** The engine after running a method that returns. *)
Definition exec {A} (m : M A) (s : Engine) : Engine :=
  match m s with
  | Ret (_, s') => s'
  | Raise _ => s
  end.

(** What "Move to next player" does from [s], by the players of the order
    who are not bankrupt: at most one of them ends the game with that one
    as the winner; otherwise the turn goes to the first of them after the
    current index, cyclically. *)
Definition rotated (s : Engine) (r : Result) (s' : Engine) : Prop :=
  let n := length (player_order s) in
  let active := List.filter (is_active (players s)) (player_order s) in
  has_error r = false /\
  exists ph tn i,
    s' = with_phase ph (with_turn_number tn (with_current_player_idx i s)) /\
    if (length active <=? 1)%nat then
      ph = GAME_OVER /\ tn = turn_number s /\ i = current_player_idx s /\
      r = [("game_over", VBool true); ("winner", VOptStr (head active))]
    else
      tn = turn_number s + 1 /\
      exists k name np,
        (1 <= k)%nat /\
        i = ((current_player_idx s + k) mod n)%nat /\
        player_order s !! i = Some name /\
        players s !! name = Some np /\
        Player.bankrupt np = false /\
        (forall j, (1 <= j < k)%nat ->
           bankrupt_at (players s) (player_order s)
             ((current_player_idx s + j) mod n)%nat) /\
        ph = (if Player.in_jail np then IN_JAIL else WAITING_FOR_ROLL) /\
        dict_get "next_player" r = Some (VStr (Player.name np)).

(** What an operation establishes: the invariant, and the engine as it was
    when the result holds the key ["error"]. *)
Definition kept (s : Engine) (r : Result) (s' : Engine) : Prop :=
  Inv s' /\ (has_error r = true -> s' = s).

(** What landing resolution establishes for the player named [pn] at index
    [idx] of [order]. *)
Definition landed (order : list string) (idx : nat) (r : Result) (s' : Engine)
    : Prop :=
  Inv s' /\ has_error r = false /\
  player_order s' = order /\ current_player_idx s' = idx.

(** The record of the acting player after the first part of [end_turn]. *)
Definition turn_ended (p : Player.t) : Player.t :=
  Player.with_bankrupt ((Player.money p <? 0) || Player.bankrupt p)
    (Player.with_doubles_count 0 p).

(** The engine after a mortgage and the unmortgage that follows it: the
    log apart, only the owner's cash differs from the engine before. *)
Definition after_round_trip (s : Engine) (pn : string) (p : Player.t)
    (t : Property.t) (s2 : Engine) : Prop :=
  players s2 =
    <[pn := Player.with_money (Player.money p - Z.quot (Property.mortgage_value t) 10) p]>
      (players s) /\
  tiles s2 = tiles s /\
  player_order s2 = player_order s /\
  current_player_idx s2 = current_player_idx s /\
  phase s2 = phase s /\
  last_dice s2 = last_dice s /\
  turn_number s2 = turn_number s /\
  chance_deck s2 = chance_deck s /\
  community_deck s2 = community_deck s.

(** The full deck [_draw_card] reshuffles for a tile type. *)
Definition deck_of (card_type : TileType) : list Card :=
  if bool_decide (card_type = CHANCE) then CHANCE_CARDS else COMMUNITY_CARDS.

(** Where a Chance card can send a player who stands on a Chance tile. *)
Definition chance_dest (z : Z) : Prop :=
  z = 0 \/ z = 24 \/ z = 39 \/ z = 5 \/ z = 4 \/ z = 19 \/ z = 33.

(** The color group of a street of the board holds the street and lies on
    the board (checked on [TILE_ITEMS] by computation). *)
Definition street_group_okb (item : Z * TileData) : bool :=
  match td_type (snd item) with
  | PROPERTY =>
      let group := color_group_positions (td_color (snd item)) in
      bool_decide (fst item ∈ group)
      && forallb (fun z => (0 <=? z) && (z <? 40)) group
  | _ => true
  end.

(** When [build_house(position)] is accepted for the current player [p],
    in the words of the specification, the phase apart: the player owns the
    tile, a street that is not mortgaged and has fewer than five houses; the
    player owns every position of its color group; no tile of the group has
    fewer houses; and the cash covers the house cost. *)
Definition can_build (s : Engine) (p : Player.t) (position : Z) : Prop :=
  position ∈ Player.properties p /\
  exists t,
    tiles s !! position = Some t /\
    Property.tile_type t = PROPERTY /\
    Property.is_mortgaged t = false /\
    Property.houses t < 5 /\
    (forall g, g ∈ color_group_positions (Property.color_group t) ->
               g ∈ Player.properties p) /\
    (forall g tg, g ∈ color_group_positions (Property.color_group t) ->
                  tiles s !! g = Some tg ->
                  Property.houses t <= Property.houses tg) /\
    Property.house_cost t <= Player.money p.

(** The engine after an accepted [build_house(position)] by the player
    [pn]: the log apart, the house cost is debited and the tile has one
    house more. *)
Definition built (s : Engine) (pn : string) (position : Z) (s' : Engine) : Prop :=
  exists p t ms,
    players s !! pn = Some p /\
    tiles s !! position = Some t /\
    s' = with_messages ms
           (with_tiles
              (<[position := Property.with_houses (Property.houses t + 1) t]> (tiles s))
              (with_players
                 (<[pn := Player.with_money (Player.money p - Property.house_cost t) p]>
                    (players s)) s)).


(** What the move of [roll_and_move] credits, by the positions before and
    after it: 200 when the position went down, the position 10 apart. *)
Definition go_credit (old_pos new_pos : Z) : Z :=
  if (new_pos <? old_pos) && negb (new_pos =? 10) then 200 else 0.

(** The record of the acting player after the move of [roll_and_move] for
    the dice [d1] and [d2], before the landing is resolved. *)
Definition moved (d1 d2 : Z) (p : Player.t) : Player.t :=
  let new_pos := (Player.position p + (d1 + d2)) mod 40 in
  Player.mk (Player.name p)
    (Player.money p + go_credit (Player.position p) new_pos)
    new_pos (Player.properties p) (Player.in_jail p) (Player.jail_turns p)
    (Player.jail_cards p)
    (if d1 =? d2 then Player.doubles_count p + 1 else 0)
    (Player.bankrupt p).

(** The engine in which [roll_and_move] resolves the landing: the dice are
    recorded, the acting player has moved and the log holds [ms]. *)
Definition after_move (s : Engine) (pn : string) (d1 d2 : Z) (p : Player.t)
    (ms : list string) : Engine :=
  with_messages ms
    (with_players (<[pn := moved d1 d2 p]> (players s)) (with_last_dice (d1, d2) s)).

(** The engine after a sequence of operations. *)
Definition play (ops : list Op) (s : Engine) : Engine :=
  foldl (fun s op => exec (run_op op) s) s ops.

(** A [random.shuffle] that leaves the list as it is. *)
Definition keep_order : Shuffle := fun _ l => l.

(** A new game of the players A and B. *)
Definition new_game (chance community : list Card) : Engine :=
  exec initialize (__init__ ["A"; "B"] chance community).

Definition roll (d1 d2 : Z) : Op := RollAndMove 3 d1 d2 keep_order.

(** ** Example games

    The games below are played by A and B, the third one by A, B and C,
    from decks in an order that a shuffle can produce, with dice that can
    be rolled; [keep_order] stands for every later shuffle. *)

(** A Chance deck in the order money, money, money, jail card, then the
    cards that move. *)
Definition chance_money_first : list Card :=
  [ mkCard (Money 150) "Bank pays you dividend of $150";
    mkCard (Money (-15)) "Speeding fine $15";
    mkCard (Money 50) "Bank pays you $50";
    mkCard JailCard "Get Out of Jail Free";
    mkCard (Move 0) "Advance to GO";
    mkCard (Move 39) "Advance to Boardwalk";
    mkCard (Move 24) "Advance to Illinois Avenue";
    mkCard (Move 5) "Advance to Reading Railroad";
    mkCard (MoveBack 3) "Go back 3 spaces";
    mkCard GoToJail "Go directly to Jail" ].

(** A Chance deck with "Go directly to Jail" on top. *)
Definition chance_jail_first : list Card :=
  [ mkCard GoToJail "Go directly to Jail";
    mkCard (Move 0) "Advance to GO";
    mkCard (Move 24) "Advance to Illinois Avenue";
    mkCard (Move 39) "Advance to Boardwalk";
    mkCard (Move 5) "Advance to Reading Railroad";
    mkCard (Money 150) "Bank pays you dividend of $150";
    mkCard (Money (-15)) "Speeding fine $15";
    mkCard JailCard "Get Out of Jail Free";
    mkCard (Money 50) "Bank pays you $50";
    mkCard (MoveBack 3) "Go back 3 spaces" ].

(** A Community Chest deck with "Go to Jail" on top. *)
Definition community_jail_first : list Card :=
  [ mkCard GoToJail "Go to Jail";
    mkCard (Move 0) "Advance to GO";
    mkCard (Money 200) "Bank error in your favor, collect $200";
    mkCard (Money (-50)) "Doctor's fees, pay $50";
    mkCard (Money 100) "You inherit $100";
    mkCard (Money (-100)) "Pay hospital fees $100";
    mkCard JailCard "Get Out of Jail Free";
    mkCard (Money 25) "Receive $25 consultancy fee";
    mkCard (Money 10) "You won second prize in beauty contest, collect $10";
    mkCard (Money (-150)) "Pay school fees $150" ].

(** The first game: nobody buys.  After [to_chance_22] both players
    stand on the Chance tile 22 and A is to roll. *)
Definition to_chance_22 : list Op :=
  [ roll 3 4; EndTurn;
    roll 3 4; EndTurn;
    roll 4 5; DeclinePurchase; EndTurn;
    roll 4 5; DeclinePurchase; EndTurn;
    roll 2 4; EndTurn;
    roll 2 4; EndTurn ].

(** After [to_boardwalk], B stands on Boardwalk (39) and is to roll. *)
Definition to_boardwalk : list Op :=
  to_chance_22 ++
  [ roll 4 5; DeclinePurchase; EndTurn;
    roll 4 5; DeclinePurchase; EndTurn;
    roll 2 3; EndTurn;
    roll 2 3; DeclinePurchase; EndTurn;
    roll 3 4; DeclinePurchase; EndTurn ].

(** After [to_empty_deck] the ten Chance cards have been drawn; B
    stands on Reading Railroad (5) and is to roll. *)
Definition to_empty_deck : list Op :=
  to_boardwalk ++
  [ roll 3 5; DeclinePurchase; EndTurn;
    roll 6 6; roll 3 4; EndTurn ].

Definition first_game : Engine := new_game chance_money_first COMMUNITY_CARDS.
Definition at_chance_22 : Engine := play to_chance_22 first_game.
Definition at_boardwalk : Engine := play to_boardwalk first_game.
Definition chance_exhausted : Engine := play to_empty_deck first_game.

(** The second game.  After [to_baltic], B has bought Baltic Avenue and
    can end the turn. *)
Definition to_baltic : list Op :=
  [ roll 3 4; EndTurn;
    roll 1 2; BuyCurrentProperty ].

(** B goes on to buy Virginia Avenue, the B&O Railroad, Park Place,
    Boardwalk and Mediterranean Avenue, builds on the dark blue group and
    pays the income tax: after [to_tax], B has negative cash and can end
    the turn; A stands on B's Virginia Avenue. *)
Definition to_tax : list Op :=
  to_baltic ++
  [ EndTurn;
    RollForDoubles 1 2; EndTurn;
    roll 6 5; BuyCurrentProperty; EndTurn;
    RollForDoubles 1 2; EndTurn;
    roll 6 5; BuyCurrentProperty; EndTurn;
    RollForDoubles 1 2; roll 1 3; EndTurn;
    roll 6 6; BuyCurrentProperty; EndTurn;
    roll 5 6; EndTurn;
    roll 1 1; BuyCurrentProperty; EndTurn;
    roll 2 3; EndTurn;
    roll 1 1; BuyCurrentProperty; BuildHouse 37; BuildHouse 39; EndTurn;
    PayBail; roll 1 3; EndTurn;
    roll 1 2 ].

(** B ends the turn, is bankrupt, and the game is over. *)
Definition to_game_over : list Op := to_tax ++ [EndTurn].

Definition second_game : Engine := new_game chance_jail_first COMMUNITY_CARDS.
Definition owns_baltic : Engine := play to_baltic second_game.
Definition in_debt : Engine := play to_tax second_game.
Definition game_over : Engine := play to_game_over second_game.

(** The game is over and B, bankrupt, has mortgaged the railroad and
    Virginia Avenue. *)
Definition game_over_with_cash : Engine :=
  play [MortgageProperty 25; MortgageProperty 14] game_over.

(** In the first game, A's first roll of 1 and 2 leads to Baltic Avenue. *)
Definition on_baltic : Engine := play [roll 1 2] first_game.

(** Records of these games. *)
Definition B_on_boardwalk : Player.t := Player.mk "B" 1485 39 [] false 0 1 0 false.
Definition B_with_baltic : Player.t := Player.mk "B" 1440 3 [3] false 0 0 0 false.
Definition B_in_debt : Player.t :=
  Player.mk "B" (-81) 4 [3; 14; 25; 37; 39; 1] false 0 0 0 false.
Definition B_bankrupt : Player.t := Player.with_bankrupt true B_in_debt.
Definition B_with_cash : Player.t := Player.with_money 99 B_bankrupt.

Definition baltic_of_B : Property.t :=
  Property.with_owner (Some "B")
    (new_property 3 (street "Baltic Avenue" 60 30 "brown" 50 [4; 20; 60; 180; 320; 450])).
Definition virginia_of_B : Property.t :=
  Property.with_owner (Some "B")
    (new_property 14 (street "Virginia Avenue" 160 80 "pink" 100 [12; 60; 180; 500; 700; 900])).

(** Boardwalk with a hotel, mortgaged. *)
Definition boardwalk_hotel_mortgaged : Property.t :=
  Property.with_is_mortgaged true
    (Property.with_houses 5
       (Property.with_owner (Some "A")
          (new_property 39
             (street "Boardwalk" 400 200 "dark_blue" 200 [50; 200; 600; 1400; 1700; 2000])))).

(** ** What the operations do to the engine *)

(** The engine with the record of [pn] replaced, the phase set and the log
    [ms]. *)
Definition set_player (pn : string) (p' : Player.t) (ph : GamePhase)
    (ms : list string) (s : Engine) : Engine :=
  with_messages ms (with_phase ph (with_players (<[pn := p']> (players s)) s)).

(** The engine after an accepted purchase by [pn], with record [p], of the
    tile [t] under that player. *)
Definition bought (s : Engine) (pn : string) (p : Player.t) (t : Property.t)
    (ms : list string) : Engine :=
  with_messages ms
    (with_phase TURN_COMPLETE
       (with_tiles
          (<[Player.position p := Property.with_owner (Some (Player.name p)) t]> (tiles s))
          (with_players
             (<[pn := Player.with_properties
                        (Player.properties p ++ [Property.position t])
                        (Player.with_money (Player.money p - Property.price t) p)]>
                (players s)) s))).

(** A player let out of jail. *)
Definition released (p : Player.t) : Player.t :=
  Player.with_jail_turns 0 (Player.with_in_jail false p).

(** A player sent to jail. *)
Definition jailed (p : Player.t) : Player.t :=
  Player.with_doubles_count 0
    (Player.with_jail_turns 0 (Player.with_in_jail true (Player.with_position 10 p))).

(** The record of a player in jail after [roll_for_doubles] with the dice
    [d1] and [d2]: out on a double; out, 50 poorer, on the third miss;
    one more turn in jail otherwise. *)
Definition jail_roll (d1 d2 : Z) (p : Player.t) : Player.t :=
  if d1 =? d2 then released p
  else if 3 <=? Player.jail_turns p + 1
       then released (Player.with_money (Player.money p - 50) p)
       else Player.with_jail_turns (Player.jail_turns p + 1) p.

Definition jail_roll_phase (d1 d2 : Z) (p : Player.t) : GamePhase :=
  if (d1 =? d2) || (3 <=? Player.jail_turns p + 1) then WAITING_FOR_ROLL
  else TURN_COMPLETE.

(** More states and records of the example games. *)
Definition baltic : Property.t :=
  new_property 3 (street "Baltic Avenue" 60 30 "brown" 50 [4; 20; 60; 180; 320; 450]).
Definition A_on_baltic : Player.t := Player.mk "A" 1500 3 [] false 0 0 0 false.

(** In the second game A is in jail and is to act. *)
Definition A_in_jail : Engine := play (to_baltic ++ [EndTurn]) second_game.
Definition A_jailed : Player.t := Player.mk "A" 1500 10 [] true 0 0 0 false.

(** In the first game A has rolled two doubles onto Community Chest. *)
Definition two_doubles : Engine := play [roll 1 1; roll 1 1] first_game.
Definition A_after_two_doubles : Player.t := Player.mk "A" 1900 2 [] false 0 0 2 false.

(** The engine after a roll of [pn], with record [p], onto a tile of [o],
    with record [q], for which [rent] is charged: the dice are recorded,
    [pn] has moved and paid, [o] has received, the log holds [ms], and the
    turn is complete unless a double rolls again. *)
Definition rent_paid (s : Engine) (pn o : string) (d1 d2 : Z) (p q : Player.t)
    (rent : Z) (ms : list string) : Engine :=
  with_phase (if d1 =? d2 then WAITING_FOR_ROLL else TURN_COMPLETE)
    (with_messages ms
       (with_players
          (<[o := Player.with_money (Player.money q + rent) q]>
             (<[pn := Player.with_money (Player.money (moved d1 d2 p) - rent)
                        (moved d1 d2 p)]>
                (players s)))
          (with_last_dice (d1, d2) s))).





(** In the first game A buys Baltic Avenue and mortgages it; B is to
    roll. *)
Definition baltic_is_mortgaged : Engine :=
  play [roll 1 2; BuyCurrentProperty; MortgageProperty 3; EndTurn] first_game.
Definition baltic_mortgaged_by_A : Property.t :=
  Property.with_is_mortgaged true (Property.with_owner (Some "A") baltic).

(** The engine with the tile at [position] and the record of [pn]
    replaced, and the log [ms]. *)
Definition tile_and_player (s : Engine) (position : Z) (t' : Property.t)
    (pn : string) (p' : Player.t) (ms : list string) : Engine :=
  with_messages ms
    (with_tiles (<[position := t']> (tiles s))
       (with_players (<[pn := p']> (players s)) s)).

(** When [mortgage_property(position)] is accepted for the current player
    [p]. *)
Definition can_mortgage (s : Engine) (p : Player.t) (position : Z) : Prop :=
  position ∈ Player.properties p /\
  exists t, tiles s !! position = Some t /\
            Property.is_mortgaged t = false /\ Property.houses t <= 0.

(** When [unmortgage_property(position)] is accepted for the current
    player [p]. *)
Definition can_unmortgage (s : Engine) (p : Player.t) (position : Z) : Prop :=
  position ∈ Player.properties p /\
  exists t, tiles s !! position = Some t /\
            Property.is_mortgaged t = true /\
            unmortgage_cost (Property.mortgage_value t) <= Player.money p.

(** ** What the operations leave alone *)

(** Whenever the method [m] returns, the engines before and after it are
    related by [R]. *)
Definition preserves {A} (R : Engine -> Engine -> Prop) (m : M A) : Prop :=
  forall s a s', m s = Ret (a, s') -> R s s'.

(** The tiles, and the holdings of every player, are the same. *)
Definition same_holdings (s s' : Engine) : Prop :=
  tiles s' = tiles s /\
  forall n, Player.properties <$> (players s' !! n)
            = Player.properties <$> (players s !! n).

(** The operations that trade: they change a tile. *)
Definition trades (op : Op) : bool :=
  match op with
  | BuyCurrentProperty | BuildHouse _ | MortgageProperty _ | UnmortgageProperty _ => true
  | _ => false
  end.

(** ** Holdings, houses and mortgages on reachable states *)

(** Holdings and owners agree: a player holds a position, once, exactly
    when the tile there names that player as its owner. *)
Definition holdings_ok (s : Engine) : Prop :=
  forall n p, players s !! n = Some p ->
    NoDup (Player.properties p) /\
    forall pos, pos ∈ Player.properties p <->
                exists t, tiles s !! pos = Some t /\ Property.owner t = Some n.

(** Houses stand on streets that are not mortgaged; a tile with a house or
    a mortgage has an owner; a tile with an owner is a street, a railroad
    or a utility. *)
Definition tile_sound (t : Property.t) : Prop :=
  (0 < Property.houses t ->
   Property.tile_type t = PROPERTY /\ Property.is_mortgaged t = false) /\
  (0 < Property.houses t \/ Property.is_mortgaged t = true ->
   is_Some (Property.owner t)) /\
  (is_Some (Property.owner t) -> ownable (Property.tile_type t)).

Definition tiles_sound (s : Engine) : Prop :=
  forall pos t, tiles s !! pos = Some t -> in_board pos /\ tile_sound t.

Definition Sound (s : Engine) : Prop := holdings_ok s /\ tiles_sound s.

(** The holdings of every player and the owner of every tile are the
    same. *)
Definition same_ownership (s s' : Engine) : Prop :=
  (forall n, Player.properties <$> (players s' !! n)
             = Player.properties <$> (players s !! n)) /\
  (forall pos, Property.owner <$> (tiles s' !! pos)
               = Property.owner <$> (tiles s !! pos)).

(** The players and their order are the same. *)
Definition same_roster (s s' : Engine) : Prop :=
  player_order s' = player_order s /\
  forall n, is_Some (players s' !! n) <-> is_Some (players s !! n).

(** The log holds at most 50 messages. *)
Definition log_bounded (s : Engine) : Prop := (length (messages s) <= 50)%nat.

(** The bound on the log is kept. *)
Definition keeps_log_bound (s s' : Engine) : Prop := log_bounded s -> log_bounded s'.

(** ** The actions on offer ([get_available_actions]) and their dispatch
    ([mcp_server.py]) *)

(** [str(l)] of a list of integers: ["[1, 3]"].  *)
Definition py_list_repr (l : list Z) : string :=
  "[" +:+ join ", " (map str l) +:+ "]".

(** The first part of [get_available_actions]: the actions of the phase. *)
Definition phase_actions (ph : GamePhase) (p : Player.t) : list string :=
  match ph with
  | WAITING_FOR_ROLL => ["roll_dice_and_move"]
  | IN_JAIL =>
      ["roll_for_doubles"; "pay_jail_bail"]
      ++ (if 0 <? Player.jail_cards p then ["use_jail_card"] else [])
  | WAITING_FOR_BUY_DECISION => ["buy_property"; "decline_purchase"]
  | TURN_COMPLETE => ["end_turn"]
  | GAME_OVER => []
  end.

Definition get_available_actions : M Result :=
  pn <- current_player ;;
  p <- player pn ;;
  s <- get ;;
  let actions := phase_actions (phase s) p in
  actions <-
    (if negb (bool_decide (phase s = GAME_OVER)) then
       buildable <- _get_buildable_properties pn ;;
       match buildable with
       | [] => ret actions
       | _ :: _ =>
           ret (actions ++
                ["build_house (on positions: " +:+ py_list_repr buildable +:+ ")"])
       end
     else ret actions) ;;
  ret [ ("current_player", VStr (Player.name p));
        ("phase", VStr (phase_value (phase s)));
        ("actions", VStrs actions) ].

(** ["(" in action] *)
Fixpoint contains_char (c : Ascii.ascii) (s : string) : bool :=
  match s with
  | EmptyString => false
  | String a rest => Ascii.eqb a c || contains_char c rest
  end.

(** [action.split("(")[0]]: the part before the first ["("]. *)
Fixpoint before_char (c : Ascii.ascii) (s : string) : string :=
  match s with
  | EmptyString => EmptyString
  | String a rest => if Ascii.eqb a c then EmptyString else String a (before_char c rest)
  end.

(** The white space of [str.strip()] among the ASCII characters: the
    codes 9 to 13, 28 to 31 and 32.  The action names are ASCII. *)
Definition is_space (a : Ascii.ascii) : bool :=
  let n := Ascii.nat_of_ascii a in
  ((9 <=? n) && (n <=? 13) || (28 <=? n) && (n <=? 32))%nat.

Fixpoint lstrip (s : string) : string :=
  match s with
  | EmptyString => EmptyString
  | String a rest => if is_space a then lstrip rest else s
  end.

Fixpoint rstrip (s : string) : string :=
  match s with
  | EmptyString => EmptyString
  | String a rest =>
      match rstrip rest with
      | EmptyString => if is_space a then EmptyString else String a EmptyString
      | rest' => String a rest'
      end
  end.

Definition strip (s : string) : string := rstrip (lstrip s).

(** [s.replace(c, d)] for single characters. *)
Fixpoint replace_char (c d : Ascii.ascii) (s : string) : string :=
  match s with
  | EmptyString => EmptyString
  | String a rest => String (if Ascii.eqb a c then d else a) (replace_char c d rest)
  end.

Definition _clean_action_name (action : string) : string :=
  let action :=
    if contains_char "("%char action then strip (before_char "("%char action) else action in
  replace_char " "%char "_"%char action.

(** The [action_map] of [_execute_runner_action]; [position] is
    [params.get("property_position", 0)] and the random inputs are those of
    the engine method. *)
Definition action_map (fuel : nat) (d1 d2 : Z) (shuffle : Shuffle) (position : Z)
    (action : string) : option Op :=
  if String.eqb action "roll_dice_and_move" then Some (RollAndMove fuel d1 d2 shuffle)
  else if String.eqb action "buy_property" then Some BuyCurrentProperty
  else if String.eqb action "decline_purchase" then Some DeclinePurchase
  else if String.eqb action "pay_jail_bail" then Some PayBail
  else if String.eqb action "use_jail_card" then Some UseJailCard
  else if String.eqb action "roll_for_doubles" then Some (RollForDoubles d1 d2)
  else if String.eqb action "build_house" then Some (BuildHouse position)
  else if String.eqb action "mortgage" then Some (MortgageProperty position)
  else if String.eqb action "unmortgage" then Some (UnmortgageProperty position)
  else if String.eqb action "end_turn" then Some EndTurn
  else None.

Definition _execute_runner_action (fuel : nat) (d1 d2 : Z) (shuffle : Shuffle)
    (action : string) (params : option Z) : M Result :=
  match action_map fuel d1 d2 shuffle (default 0 params) action with
  | Some op => run_op op
  | None => ret (error ("Unknown action: " +:+ action))
  end.

(** Each deck is what is left of it: a suffix of the deck before. *)
Definition decks_shrink (s s' : Engine) : Prop :=
  chance_deck s' `suffix_of` chance_deck s /\
  community_deck s' `suffix_of` community_deck s.

(** ** The players who are not acting *)

(** Two records that differ at most in cash. *)
Definition cash_only (q q' : Player.t) : Prop :=
  q' = Player.with_money (Player.money q') q.

(** The record of every player other than [pn] is related by [rel] to the
    record before. *)
Definition others_rel (rel : Player.t -> Player.t -> Prop) (pn : string)
    (s s' : Engine) : Prop :=
  forall n q, n <> pn -> players s !! n = Some q ->
    exists q', players s' !! n = Some q' /\ rel q q'.

(** Within the turn of [pn]: the order and the index stay, and so do, up
    to [rel], the other players. *)
Definition turn_frame (rel : Player.t -> Player.t -> Prop) (pn : string)
    (s s' : Engine) : Prop :=
  player_order s !! current_player_idx s = Some pn ->
  player_order s' = player_order s /\
  current_player_idx s' = current_player_idx s /\
  others_rel rel pn s s'.

Definition is_roll (op : Op) : bool :=
  match op with RollAndMove _ _ _ _ => true | _ => false end.

(** [l] is a strictly increasing list of numbers that are not negative. *)
Fixpoint increasing_from (lo : Z) (l : list Z) : bool :=
  match l with
  | [] => true
  | x :: rest => (lo <? x) && increasing_from x rest
  end.

(** The rent table of a street of the board has six entries, positive and
    strictly increasing (checked on [TILE_ITEMS] by computation). *)
Definition street_rents_okb (item : Z * TileData) : bool :=
  match td_type (snd item) with
  | PROPERTY =>
      (length (td_rent (snd item)) =? 6)%nat && increasing_from 0 (td_rent (snd item))
  | _ => true
  end.

(** * Reasoning rules *)

Section WpRules.

Context {A B : Type}.

Lemma wp_intro (m : M A) s a s' (Q : A -> Engine -> Prop) :
  m s = Ret (a, s') -> Q a s' -> wp m s Q.
Proof. unfold wp. intros ->. auto. Qed.

Lemma wp_elim (m : M A) s (Q : A -> Engine -> Prop) :
  wp m s Q -> exists a s', m s = Ret (a, s') /\ Q a s'.
Proof. unfold wp. destruct (m s) as [[a s']|e]; [eauto | tauto]. Qed.

Lemma wp_mono (m : M A) s (Q Q' : A -> Engine -> Prop) :
  wp m s Q -> (forall a s', Q a s' -> Q' a s') -> wp m s Q'.
Proof. unfold wp. destruct (m s) as [[a s']|e]; auto. Qed.

Lemma wp_bind (m : M A) (k : A -> M B) s (Q : B -> Engine -> Prop) :
  wp m s (fun a s' => wp (k a) s' Q) -> wp (bind m k) s Q.
Proof. unfold wp, bind. destruct (m s) as [[a s']|e]; auto. Qed.

Lemma wp_ret (a : A) s (Q : A -> Engine -> Prop) : Q a s -> wp (ret a) s Q.
Proof. auto. Qed.

Lemma wp_lift (r : res A) a s (Q : A -> Engine -> Prop) :
  r = Ret a -> Q a s -> wp (lift r) s Q.
Proof. intros ->. auto. Qed.

End WpRules.

Lemma wp_get s (Q : Engine -> Engine -> Prop) : Q s s -> wp get s Q.
Proof. auto. Qed.

Lemma wp_modify f s (Q : unit -> Engine -> Prop) : Q tt (f s) -> wp (modify f) s Q.
Proof. auto. Qed.

Lemma wp_player pn s p (Q : Player.t -> Engine -> Prop) :
  players s !! pn = Some p -> Q p s -> wp (player pn) s Q.
Proof. intros H HQ. unfold wp, player, bind, get. rewrite H. exact HQ. Qed.

Lemma wp_tile key s t (Q : Property.t -> Engine -> Prop) :
  tiles s !! key = Some t -> Q t s -> wp (tile key) s Q.
Proof. intros H HQ. unfold wp, tile, bind, get. rewrite H. exact HQ. Qed.

Lemma wp_current_player s pn p (Q : string -> Engine -> Prop) :
  player_order s !! current_player_idx s = Some pn ->
  players s !! pn = Some p ->
  Q pn s -> wp current_player s Q.
Proof.
  intros H Hp HQ. unfold wp, current_player, player, bind, get.
  rewrite H, Hp. exact HQ.
Qed.

Lemma wp_current_tile s pn p t (Q : Z -> Engine -> Prop) :
  player_order s !! current_player_idx s = Some pn ->
  players s !! pn = Some p ->
  tiles s !! Player.position p = Some t ->
  Q (Player.position p) s -> wp current_tile s Q.
Proof.
  intros H Hp Ht HQ. unfold current_tile.
  apply wp_bind, (wp_current_player s pn p); [assumption..|].
  apply wp_bind, (wp_player pn s p); [assumption|].
  apply wp_bind, (wp_tile _ s t); [assumption|].
  apply wp_ret, HQ.
Qed.

Global Opaque wp.

(** Projections of an updated engine. *)
Ltac eng_simpl :=
  cbn [players player_order current_player_idx phase tiles last_dice turn_number
       messages chance_deck community_deck
       with_players with_current_player_idx with_phase with_tiles with_last_dice
       with_turn_number with_messages with_chance_deck with_community_deck] in *.

(** A lookup in a store after some field assignments. *)
Ltac lookup_simpl :=
  eng_simpl;
  repeat first
    [ rewrite lookup_alter_eq
    | rewrite lookup_alter_ne by (first [assumption | congruence | lia]) ];
  cbn [fmap option_fmap option_map].

Ltac solve_lookup :=
  lookup_simpl;
  first [ eassumption
        | match goal with
          | H : _ !! _ = Some _ |- _ =>
              rewrite H; cbn [fmap option_fmap option_map]; reflexivity
          end ].

(** One step through a method body. *)
Ltac wp_prim :=
  lazymatch goal with
  | |- wp (bind _ _) _ _ => apply wp_bind
  | |- wp (ret _) _ _ => apply wp_ret
  | |- wp get _ _ => apply wp_get
  | |- wp (modify _) _ _ => apply wp_modify
  | |- wp (update_player _ _) _ _ => apply wp_modify
  | |- wp (update_tile _ _) _ _ => apply wp_modify
  | |- wp (set_phase _) _ _ => apply wp_modify
  | |- wp (_log _) _ _ => apply wp_modify
  | |- wp advance_idx _ _ => apply wp_modify
  | |- wp last_dice_sum _ _ => unfold last_dice_sum
  | |- wp (player _) _ _ => eapply wp_player; [solve_lookup|]
  | |- wp (tile _) _ _ => eapply wp_tile; [solve_lookup|]
  | |- wp current_player _ _ => eapply wp_current_player; [solve_lookup|solve_lookup|]
  | |- wp current_tile _ _ =>
      eapply wp_current_tile; [solve_lookup|solve_lookup|solve_lookup|]
  end.

Ltac wp_steps := repeat wp_prim.

(** * Rent of a mortgaged tile *)

(** C8. [get_rent] of a tile whose mortgaged flag is set returns 0, whatever
    the tile's type and house count, the dice total and the numbers of
    railroads and utilities of the owner. *)
Theorem get_rent_mortgaged (t : Property.t) (dice_roll railroads_owned utilities_owned : Z) :
  Property.is_mortgaged t = true ->
  Property.get_rent t dice_roll railroads_owned utilities_owned = Ret 0.
Proof. intros Hm. unfold Property.get_rent. rewrite Hm. reflexivity. Qed.

Lemma get_rent_mortgaged_witness :
  Property.get_rent boardwalk_hotel_mortgaged 12 4 2 = Ret 0.
Proof. apply get_rent_mortgaged. reflexivity. Defined.

(** * Mortgage round trip *)

Lemma unmortgage_cost_split (m : Z) : unmortgage_cost m = m + Z.quot m 10.
Proof.
  unfold unmortgage_cost.
  replace (m * 11) with (m + m * 10) by lia.
  rewrite Z.quot_add by nia. lia.
Qed.

Lemma alter_twice_insert `{Countable K} {V} (f g : V -> V) (k : K) (m : gmap K V) x :
  m !! k = Some x -> alter g k (alter f k m) = <[k := g (f x)]> m.
Proof.
  intros Hx. apply map_eq. intros j. destruct (decide (k = j)) as [<-|Hne].
  - rewrite !lookup_alter_eq, lookup_insert_eq, Hx. reflexivity.
  - rewrite !lookup_alter_ne, lookup_insert_ne by assumption. reflexivity.
Qed.

Lemma alter_twice_id `{Countable K} {V} (f g : V -> V) (k : K) (m : gmap K V) x :
  m !! k = Some x -> g (f x) = x -> alter g k (alter f k m) = m.
Proof.
  intros Hx Hgf. rewrite (alter_twice_insert f g k m x Hx), Hgf.
  apply insert_id, Hx.
Qed.

(** C7. On a tile the current player owns, not mortgaged and without
    houses, [mortgage_property] followed by [unmortgage_property] succeeds
    when the owner's cash covers the surcharge; the tile is mortgaged in
    between and afterwards the tile store is the one before, and the owner
    has paid the truncated tenth of the mortgage value: the unmortgage
    debits the mortgage value plus that surcharge. *)
Theorem mortgage_unmortgage_round_trip (s : Engine) (pn : string) (p : Player.t)
    (position : Z) (t : Property.t) :
  player_order s !! current_player_idx s = Some pn ->
  players s !! pn = Some p ->
  position ∈ Player.properties p ->
  tiles s !! position = Some t ->
  Property.is_mortgaged t = false ->
  Property.houses t = 0 ->
  Z.quot (Property.mortgage_value t) 10 <= Player.money p ->
  exists r1 s1 r2 s2,
    mortgage_property position s = Ret (r1, s1) /\
    has_error r1 = false /\
    tiles s1 !! position = Some (Property.with_is_mortgaged true t) /\
    unmortgage_property position s1 = Ret (r2, s2) /\
    has_error r2 = false /\
    dict_get "cost" r2 =
      Some (VInt (Property.mortgage_value t + Z.quot (Property.mortgage_value t) 10)) /\
    after_round_trip s pn p t s2.
Proof.
  intros Ho Hp Hin Ht Hm Hh Hcash.
  assert (Hone : wp (mortgage_property position) s (fun r1 s1 =>
            has_error r1 = false /\
            exists ms, s1 =
              with_messages ms
                (with_players
                   (alter (fun p => Player.with_money
                             (Player.money p + Property.mortgage_value t) p) pn (players s))
                   (with_tiles
                      (alter (Property.with_is_mortgaged true) position (tiles s)) s)))).
  { unfold mortgage_property. wp_steps.
    rewrite bool_decide_true by assumption. cbn [negb]. wp_steps.
    rewrite Hm, Hh. cbn [Z.ltb Z.compare]. wp_steps.
    split; [reflexivity | eexists; reflexivity]. }
  apply wp_elim in Hone as (r1 & s1 & E1 & Herr1 & ms1 & ->).
  match type of E1 with _ = Ret (_, ?s') => set (s1 := s') in * end.
  assert (Ht1 : tiles s1 !! position = Some (Property.with_is_mortgaged true t)).
  { subst s1. solve_lookup. }
  assert (Hp1 : players s1 !! pn =
            Some (Player.with_money (Player.money p + Property.mortgage_value t) p)).
  { subst s1. solve_lookup. }
  assert (Ho1 : player_order s1 !! current_player_idx s1 = Some pn) by exact Ho.
  assert (Htwo : wp (unmortgage_property position) s1 (fun r2 s2 =>
            has_error r2 = false /\
            dict_get "cost" r2 = Some (VInt (unmortgage_cost (Property.mortgage_value t))) /\
            exists ms, s2 =
              with_messages ms
                (with_tiles
                   (alter (Property.with_is_mortgaged false) position (tiles s1))
                   (with_players
                      (alter (fun p => Player.with_money
                                (Player.money p - unmortgage_cost (Property.mortgage_value t)) p)
                         pn (players s1)) s1)))).
  { unfold unmortgage_property. wp_steps.
    cbn [Player.properties Player.with_money].
    rewrite bool_decide_true by assumption. cbn [negb]. wp_steps.
    cbn [Property.is_mortgaged Property.with_is_mortgaged negb
         Property.mortgage_value Player.money Player.with_money].
    rewrite unmortgage_cost_split.
    destruct (Z.ltb_spec (Player.money p + Property.mortgage_value t)
                (Property.mortgage_value t + Z.quot (Property.mortgage_value t) 10));
      [lia|].
    wp_steps. split; [reflexivity|]. split; [|eexists; reflexivity].
    rewrite <- unmortgage_cost_split. reflexivity. }
  apply wp_elim in Htwo as (r2 & s2 & E2 & Herr2 & Hcost & ms2 & ->).
  rewrite unmortgage_cost_split in Hcost.
  exists r1, s1, r2.
  match type of E2 with _ = Ret (_, ?s') => exists s' end.
  repeat split; try assumption; subst s1; eng_simpl; try reflexivity.
  - rewrite (alter_twice_insert _ _ pn (players s) p Hp). f_equal.
    rewrite unmortgage_cost_split.
    destruct p. unfold Player.with_money. cbn. f_equal. lia.
  - apply (alter_twice_id _ _ position (tiles s) t Ht).
    destruct t; cbn in *. subst. reflexivity.
Qed.

(** * The invariant under the assignments the methods make *)

Lemma has_error_dict_set (k : string) (v : Value) (d : Result) :
  String.eqb "error" k = false -> has_error (dict_set k v d) = has_error d.
Proof.
  intros Hk. unfold has_error. induction d as [|[k' v'] d IH]; cbn [dict_set dict_get].
  - rewrite Hk. reflexivity.
  - destruct (String.eqb k k') eqn:E; cbn [dict_set dict_get].
    + apply String.eqb_eq in E. subst k'. rewrite Hk. reflexivity.
    + destruct (String.eqb "error" k'); [reflexivity | exact IH].
Qed.

(** A literal result without the key ["error"]. *)
Ltac no_error :=
  let H := fresh in
  intros H; exfalso; revert H;
  repeat (rewrite has_error_dict_set by reflexivity);
  first [ discriminate
        | match goal with E : has_error _ = false |- _ => rewrite E; discriminate end ].

Lemma is_Some_alter `{Countable K} {V} (f : V -> V) (k j : K) (m : gmap K V) :
  is_Some (alter f k m !! j) <-> is_Some (m !! j).
Proof.
  destruct (decide (k = j)) as [<-|Hne].
  - rewrite lookup_alter_eq, fmap_is_Some. reflexivity.
  - rewrite lookup_alter_ne by assumption. reflexivity.
Qed.

Lemma tile_ok_alter_player pl pn f pos t :
  tile_ok pl pos t -> tile_ok (alter f pn pl) pos t.
Proof.
  intros (Hst & Hh & Ho). repeat split; try assumption; try apply Hh.
  intros o E. apply is_Some_alter, Ho, E.
Qed.

Section BaseUpdates.

Context {pl : gmap string Player.t} {order : list string} {idx : nat}
        {tl : gmap Z Property.t} {chance community : list Card}.
Hypothesis HB : base pl order idx tl chance community.

Lemma base_alter_player pn f :
  (forall p, pl !! pn = Some p -> player_ok pn p -> player_ok pn (f p)) ->
  base (alter f pn pl) order idx tl chance community.
Proof.
  intros Hf. destruct HB as [Hi Ho Hp Ht Hc1 Hc2]. split; try assumption.
  - intros n Hn. apply is_Some_alter, Ho, Hn.
  - intros n p. destruct (decide (pn = n)) as [<-|Hne].
    + rewrite lookup_alter_eq. destruct (pl !! pn) as [q|] eqn:E; [|discriminate].
      cbn. intros [= <-]. apply Hf; [reflexivity | apply Hp, E].
    + rewrite lookup_alter_ne by assumption. apply Hp.
  - intros pos Hpos. destruct (Ht pos Hpos) as (t & E & Hok).
    exists t. split; [assumption | apply tile_ok_alter_player, Hok].
Qed.

Lemma base_alter_tile key f :
  (forall t, tl !! key = Some t -> tile_ok pl key t -> tile_ok pl key (f t)) ->
  base pl order idx (alter f key tl) chance community.
Proof.
  intros Hf. destruct HB as [Hi Ho Hp Ht Hc1 Hc2]. split; try assumption.
  intros pos Hpos. destruct (Ht pos Hpos) as (t & E & Hok).
  destruct (decide (key = pos)) as [<-|Hne].
  - exists (f t). rewrite lookup_alter_eq, E. split; [reflexivity | apply Hf; assumption].
  - exists t. rewrite lookup_alter_ne by assumption. split; assumption.
Qed.

Lemma base_set_idx i :
  (i < length order)%nat -> base pl order i tl chance community.
Proof. intros Hi'. destruct HB. split; assumption. Qed.

End BaseUpdates.

Lemma base_chance_tail pl order idx tl c chance community :
  base pl order idx tl (c :: chance) community ->
  base pl order idx tl chance community.
Proof.
  intros [Hi Ho Hp Ht Hc1 Hc2]. split; try assumption.
  intros c' Hc'. apply Hc1. right. exact Hc'.
Qed.

Lemma base_community_tail pl order idx tl c chance community :
  base pl order idx tl chance (c :: community) ->
  base pl order idx tl chance community.
Proof.
  intros [Hi Ho Hp Ht Hc1 Hc2]. split; try assumption.
  intros c' Hc'. apply Hc2. right. exact Hc'.
Qed.

(** What the invariant gives about the current player and the tile under
    that player. *)
Lemma Base_current s :
  Base s ->
  exists pn p t,
    player_order s !! current_player_idx s = Some pn /\
    players s !! pn = Some p /\
    player_ok pn p /\
    tiles s !! Player.position p = Some t /\
    tile_ok (players s) (Player.position p) t.
Proof.
  intros [Hi Ho Hp Ht _ _].
  destruct (lookup_lt_is_Some_2 _ _ Hi) as [pn Hpn].
  destruct (Ho pn) as [p Hpl]; [eapply list_elem_of_lookup_2, Hpn|].
  pose proof (Hp pn p Hpl) as Hok.
  destruct (Ht (Player.position p)) as (t & E & Htok); [apply Hok|].
  exists pn, p, t. repeat split; try assumption; apply Hok || apply Htok.
Qed.

(** The fields of a tile that are those of the board. *)
Lemma reset_fields t pos data :
  reset t = new_property pos data ->
  Property.position t = pos /\
  Property.name t = td_name data /\
  Property.tile_type t = td_type data /\
  Property.price t = td_price data /\
  Property.mortgage_value t = td_mortgage data /\
  Property.color_group t = td_color data /\
  Property.house_cost t = td_house_cost data /\
  Property.rent t = td_rent data.
Proof. destruct t. cbv [reset new_property Property.with_owner Property.with_houses
  Property.with_is_mortgaged Property.position Property.name Property.tile_type
  Property.price Property.mortgage_value Property.color_group Property.house_cost
  Property.rent Property.owner Property.houses Property.is_mortgaged].
  intros [= -> -> -> -> -> -> -> ->]. repeat split.
Qed.

Lemma tile_data_item pos data :
  TILE_DATA !! pos = Some data -> (pos, data) ∈ TILE_ITEMS.
Proof. apply elem_of_list_to_map_2. Qed.

(** * The operations keep the invariant, and an error leaves the engine as it was *)

Lemma kept_error s msg : Inv s -> kept s (error msg) s.
Proof. intros H. split; [exact H | reflexivity]. Qed.

Lemma phase_not_not (ph ph' : GamePhase) : ~ ph <> ph' -> ph = ph'.
Proof. intros H. destruct (decide (ph = ph')); [assumption | contradiction]. Qed.

Ltac player_ok_same :=
  let q := fresh "q" in let Hq := fresh "Hq" in let Hok := fresh "Hok" in
  intros q Hq Hok; exact Hok.

Ltac tile_ok_same :=
  let u := fresh "u" in let Hu := fresh "Hu" in let Hok := fresh "Hok" in
  intros u Hu Hok; exact Hok.

(** The invariant after assignments to fields that the player and tile
    conditions do not read. *)
Ltac base_step :=
  first [ assumption
        | apply base_alter_player; [| player_ok_same]
        | apply base_alter_tile; [| tile_ok_same] ].

Ltac base_simple := unfold Base in *; eng_simpl; repeat base_step.

Ltac not_pending :=
  let H := fresh in unfold buy_pending; eng_simpl; intros H; discriminate H.

Lemma buy_current_property_kept s :
  Inv s -> wp buy_current_property s (kept s).
Proof.
  intros [HB Hbuy]. unfold buy_current_property. wp_steps.
  destruct (decide (phase s <> WAITING_FOR_BUY_DECISION)) as [|Hph].
  { wp_steps. apply kept_error. split; assumption. }
  apply phase_not_not in Hph.
  destruct (Hbuy Hph) as (pn & p & t & Hpn & Hp & Ht & Hown & Hnone).
  pose proof (base_players _ _ _ _ _ _ HB pn p Hp) as (Hname & Hpos & Hprops).
  destruct (base_tiles _ _ _ _ _ _ HB _ Hpos) as (t' & Ht' & (data & Hdata & Hst) & Hh & Ho).
  rewrite Ht in Ht'. injection Ht' as <-.
  apply reset_fields in Hst as (Hposn & _).
  wp_steps. destruct (Z.ltb_spec (Player.money p) (Property.price t)).
  { wp_steps. apply kept_error. split; assumption. }
  wp_steps. split; [split|no_error].
  - unfold Base in *. eng_simpl.
    apply base_alter_player.
    + apply base_alter_tile; [apply base_alter_player; [assumption | player_ok_same]|].
      intros u Hu (Hst' & Hh' & _). rewrite Ht in Hu. injection Hu as <-.
      split; [exact Hst'|]. split; [exact Hh|].
      cbn. intros o [= <-]. rewrite is_Some_alter, Hname, Hp. eauto.
    + intros q Hq (Hn & Hps & Hpr). split; [exact Hn|]. split; [exact Hps|].
      cbn. apply Forall_app. split; [assumption|].
      constructor; [|constructor]. rewrite Hposn. exact Hpos.
  - not_pending.
Qed.

Lemma decline_purchase_kept s :
  Inv s -> wp decline_purchase s (kept s).
Proof.
  intros [HB Hbuy]. unfold decline_purchase. wp_steps.
  destruct (decide (phase s <> WAITING_FOR_BUY_DECISION)) as [|Hph].
  { wp_steps. apply kept_error. split; assumption. }
  apply phase_not_not in Hph.
  destruct (Hbuy Hph) as (pn & p & t & Hpn & Hp & Ht & Hown & Hnone).
  wp_steps. split; [split|no_error].
  - base_simple.
  - not_pending.
Qed.

Lemma pay_bail_kept s :
  Inv s -> wp pay_bail s (kept s).
Proof.
  intros [HB Hbuy]. unfold pay_bail.
  destruct (Base_current s HB) as (pn & p & t & Hpn & Hp & Hok & Ht & Htok).
  wp_steps. destruct (Player.in_jail p); cbn [negb].
  2: { wp_steps. apply kept_error. split; assumption. }
  destruct (Z.ltb_spec (Player.money p) 50).
  { wp_steps. apply kept_error. split; assumption. }
  wp_steps. split; [split|no_error].
  - base_simple.
  - not_pending.
Qed.

Lemma use_jail_card_kept s :
  Inv s -> wp use_jail_card s (kept s).
Proof.
  intros [HB Hbuy]. unfold use_jail_card.
  destruct (Base_current s HB) as (pn & p & t & Hpn & Hp & Hok & Ht & Htok).
  wp_steps. destruct (Player.in_jail p); cbn [negb].
  2: { wp_steps. apply kept_error. split; assumption. }
  destruct (Z.ltb_spec (Player.jail_cards p) 1).
  { wp_steps. apply kept_error. split; assumption. }
  wp_steps. split; [split|no_error].
  - base_simple.
  - not_pending.
Qed.

Lemma roll_for_doubles_kept s d1 d2 :
  Inv s -> wp (roll_for_doubles d1 d2) s (kept s).
Proof.
  intros [HB Hbuy]. unfold roll_for_doubles.
  destruct (Base_current s HB) as (pn & p & t & Hpn & Hp & Hok & Ht & Htok).
  wp_steps. destruct (Player.in_jail p); cbn [negb].
  2: { wp_steps. apply kept_error. split; assumption. }
  wp_steps. destruct (d1 =? d2).
  { wp_steps. split; [split|no_error]; [base_simple | not_pending]. }
  wp_steps.
  match goal with |- context [3 <=? ?x] => destruct (3 <=? x) end.
  - wp_steps. split; [split|no_error]; [base_simple | not_pending].
  - wp_steps. split; [split|no_error]; [base_simple | not_pending].
Qed.

Lemma get_property_info_kept s position :
  Inv s -> wp (get_property_info position) s (kept s).
Proof.
  intros HI. unfold get_property_info. wp_steps.
  destruct (tiles s !! position); wp_steps.
  - split; [assumption | no_error].
  - apply kept_error, HI.
Qed.

(** A pending purchase stays pending under assignments that move no
    player and change neither the type nor the owner of a tile. *)
Lemma buy_pending_same s s' :
  buy_pending s ->
  phase s' = phase s ->
  player_order s' = player_order s ->
  current_player_idx s' = current_player_idx s ->
  (forall pn p, players s !! pn = Some p ->
     exists p', players s' !! pn = Some p' /\ Player.position p' = Player.position p) ->
  (forall k t, tiles s !! k = Some t ->
     exists t', tiles s' !! k = Some t' /\
                Property.tile_type t' = Property.tile_type t /\
                Property.owner t' = Property.owner t) ->
  buy_pending s'.
Proof.
  intros Hbuy Hph Hord Hidx Hpl Htl Hph'. rewrite Hph in Hph'.
  destruct (Hbuy Hph') as (pn & p & t & Hpn & Hp & Ht & Hown & Hnone).
  destruct (Hpl pn p Hp) as (p' & Hp' & Hpos).
  destruct (Htl _ t Ht) as (t' & Ht' & Hty & Howner).
  exists pn, p', t'. rewrite Hord, Hidx, Hpos, Hty, Howner. auto.
Qed.

Lemma lookup_alter_with `{Countable K} {V} (f : V -> V) (i k : K) (m : gmap K V) x
    (R : V -> V -> Prop) :
  m !! k = Some x -> R x x -> R (f x) x ->
  exists x', alter f i m !! k = Some x' /\ R x' x.
Proof.
  intros Hx Hrefl Hf. destruct (decide (i = k)) as [->|Hne].
  - exists (f x). rewrite lookup_alter_eq, Hx. auto.
  - exists x. rewrite lookup_alter_ne by assumption. auto.
Qed.

Lemma alter_keeps_position (f : Player.t -> Player.t) pn (pl : gmap string Player.t) :
  (forall p, Player.position (f p) = Player.position p) ->
  forall n q, pl !! n = Some q ->
  exists p', alter f pn pl !! n = Some p' /\ Player.position p' = Player.position q.
Proof.
  intros Hf n q Hq.
  apply (lookup_alter_with f pn n pl q
           (fun a b => Player.position a = Player.position b) Hq); auto.
Qed.

Lemma alter_keeps_owner (g : Property.t -> Property.t) key (tl : gmap Z Property.t) :
  (forall t, Property.tile_type (g t) = Property.tile_type t /\
             Property.owner (g t) = Property.owner t) ->
  forall k t, tl !! k = Some t ->
  exists t', alter g key tl !! k = Some t' /\
             Property.tile_type t' = Property.tile_type t /\
             Property.owner t' = Property.owner t.
Proof.
  intros Hg k t Ht.
  apply (lookup_alter_with g key k tl t
           (fun a b => Property.tile_type a = Property.tile_type b /\
                       Property.owner a = Property.owner b) Ht); auto.
Qed.

Lemma Base_owned_tile s pn p position :
  Base s -> players s !! pn = Some p -> position ∈ Player.properties p ->
  exists t, tiles s !! position = Some t /\ tile_ok (players s) position t.
Proof.
  intros HB Hp Hin. apply (base_tiles _ _ _ _ _ _ HB).
  pose proof (base_players _ _ _ _ _ _ HB pn p Hp) as (_ & _ & Hprops).
  rewrite Forall_forall in Hprops. apply Hprops, Hin.
Qed.

Lemma mortgage_property_kept s position :
  Inv s -> wp (mortgage_property position) s (kept s).
Proof.
  intros [HB Hbuy]. unfold mortgage_property.
  destruct (Base_current s HB) as (pn & p & t0 & Hpn & Hp & Hok & _ & _).
  wp_steps. destruct (decide (position ∈ Player.properties p)) as [Hin|Hin].
  2: { rewrite bool_decide_false by assumption. cbn [negb]. wp_steps.
       apply kept_error. split; assumption. }
  rewrite bool_decide_true by assumption. cbn [negb].
  destruct (Base_owned_tile s pn p position HB Hp Hin) as (t & Ht & Htok).
  wp_steps. destruct (Property.is_mortgaged t).
  { wp_steps. apply kept_error. split; assumption. }
  destruct (0 <? Property.houses t).
  { wp_steps. apply kept_error. split; assumption. }
  wp_steps. split; [split|no_error].
  - base_simple.
  - eapply buy_pending_same; [exact Hbuy | reflexivity..| |]; eng_simpl.
    + apply alter_keeps_position. reflexivity.
    + apply alter_keeps_owner. split; reflexivity.
Qed.

Lemma unmortgage_property_kept s position :
  Inv s -> wp (unmortgage_property position) s (kept s).
Proof.
  intros [HB Hbuy]. unfold unmortgage_property.
  destruct (Base_current s HB) as (pn & p & t0 & Hpn & Hp & Hok & _ & _).
  wp_steps. destruct (decide (position ∈ Player.properties p)) as [Hin|Hin].
  2: { rewrite bool_decide_false by assumption. cbn [negb]. wp_steps.
       apply kept_error. split; assumption. }
  rewrite bool_decide_true by assumption. cbn [negb].
  destruct (Base_owned_tile s pn p position HB Hp Hin) as (t & Ht & Htok).
  wp_steps. destruct (Property.is_mortgaged t); cbn [negb].
  2: { wp_steps. apply kept_error. split; assumption. }
  destruct (Player.money p <? unmortgage_cost (Property.mortgage_value t)).
  { wp_steps. apply kept_error. split; assumption. }
  wp_steps. split; [split|no_error].
  - base_simple.
  - eapply buy_pending_same; [exact Hbuy | reflexivity..| |]; eng_simpl.
    + apply alter_keeps_position. reflexivity.
    + apply alter_keeps_owner. split; reflexivity.
Qed.

(** * End of turn: bankruptcy and rotation *)

Section Rotation.

Variable pl : gmap string Player.t.
Variable order : list string.
Hypothesis Hall : forall n, n ∈ order -> is_Some (pl !! n).

Lemma active_players_filter :
  active_players pl order = Ret (List.filter (is_active pl) order).
Proof.
  revert Hall. induction order as [|n rest IH]; intros Hall'; [reflexivity|].
  cbn [active_players List.filter]. unfold is_active at 1.
  destruct (Hall' n) as [p Hp]; [left|]. rewrite Hp.
  rewrite IH by (intros m Hm; apply Hall'; right; exact Hm).
  destruct (Player.bankrupt p); reflexivity.
Qed.

Lemma at_index i :
  (i < length order)%nat ->
  exists n p, order !! i = Some n /\ pl !! n = Some p.
Proof.
  intros Hi. destruct (lookup_lt_is_Some_2 _ _ Hi) as [n Hn].
  destruct (Hall n) as [p Hp]; [eapply list_elem_of_lookup_2, Hn|]. eauto.
Qed.

Lemma active_index :
  List.filter (is_active pl) order <> [] ->
  exists m n p, order !! m = Some n /\ pl !! n = Some p /\ Player.bankrupt p = false.
Proof.
  intros Hne. destruct (List.filter (is_active pl) order) as [|n l] eqn:E; [congruence|].
  assert (Hin : In n (List.filter (is_active pl) order)) by (rewrite E; left; reflexivity).
  apply filter_In in Hin as [Hin Hact]. unfold is_active in Hact.
  destruct (pl !! n) as [p|] eqn:Hp; [|discriminate].
  apply list_elem_of_In, list_elem_of_lookup_1 in Hin as [m Hm].
  exists m, n, p. split; [assumption|]. split; [exact Hp|].
  destruct (Player.bankrupt p); [discriminate | reflexivity].
Qed.

End Rotation.

Lemma mod_shift (a j n : nat) :
  (((a + 1) mod n + j) mod n = (a + S j) mod n)%nat.
Proof.
  destruct n as [|n]; [cbn; lia|].
  rewrite Nat.Div0.add_mod_idemp_l. f_equal. lia.
Qed.

Lemma with_idx_same s : with_current_player_idx (current_player_idx s) s = s.
Proof. destruct s. reflexivity. Qed.

(** The [while] loop stops at the first player from the current index on
    who is not bankrupt, when there is one within [fuel] steps. *)
Lemma skip_bankrupt_spec fuel : forall s,
  (forall n, n ∈ player_order s -> is_Some (players s !! n)) ->
  (current_player_idx s < length (player_order s))%nat ->
  (exists j n p, (j <= fuel)%nat /\
      player_order s !! ((current_player_idx s + j) mod length (player_order s))%nat
        = Some n /\
      players s !! n = Some p /\ Player.bankrupt p = false) ->
  wp (skip_bankrupt fuel) s (fun _ s' =>
    exists j n p, (j <= fuel)%nat /\
      s' = with_current_player_idx
             ((current_player_idx s + j) mod length (player_order s))%nat s /\
      player_order s !! current_player_idx s' = Some n /\
      players s !! n = Some p /\ Player.bankrupt p = false /\
      forall j', (j' < j)%nat ->
        bankrupt_at (players s) (player_order s)
          ((current_player_idx s + j') mod length (player_order s))%nat).
Proof.
  induction fuel as [|fuel IH]; intros s Hall Hidx (j0 & n0 & p0 & Hj0 & Hn0 & Hp0 & Hb0).
  - assert (j0 = 0%nat) by lia. subst j0.
    rewrite Nat.add_0_r, Nat.mod_small in Hn0 by assumption.
    cbn [skip_bankrupt]. wp_steps. rewrite Hn0. wp_steps. rewrite Hb0. wp_steps.
    exists 0%nat, n0, p0. rewrite Nat.add_0_r, Nat.mod_small by assumption.
    rewrite with_idx_same. repeat split; try assumption; try reflexivity.
    all: intros j' Hj'; lia.
  - destruct (at_index _ _ Hall _ Hidx) as (n & p & Hn & Hp).
    cbn [skip_bankrupt]. wp_steps. rewrite Hn. wp_steps.
    destruct (Player.bankrupt p) eqn:Hb.
    + destruct j0 as [|j0].
      { rewrite Nat.add_0_r, Nat.mod_small in Hn0 by assumption. congruence. }
      wp_steps. eapply wp_mono.
      * apply IH; eng_simpl; [assumption | |].
        -- apply Nat.mod_upper_bound. lia.
        -- exists j0, n0, p0. rewrite mod_shift. repeat split; try assumption. lia.
      * cbn beta. eng_simpl. intros _ s' (j & n1 & p1 & Hj & -> & Hn1 & Hp1 & Hb1 & Hmin).
        exists (S j), n1, p1. eng_simpl. rewrite mod_shift in *.
        repeat split; try assumption; try reflexivity; try lia.
        intros [|j'] Hj'.
        -- rewrite Nat.add_0_r, Nat.mod_small by assumption. exists n, p. auto.
        -- rewrite <- mod_shift. apply Hmin. lia.
    + wp_steps. exists 0%nat, n, p. rewrite Nat.add_0_r, Nat.mod_small by assumption.
      rewrite with_idx_same. repeat split; try assumption; try reflexivity; try lia.
      all: intros j' Hj'; lia.
Qed.

Lemma reach_index (a m n : nat) :
  (a < n)%nat -> (m < n)%nat -> exists j, (j <= n)%nat /\ ((a + j) mod n = m)%nat.
Proof.
  intros Ha Hm. destruct (le_lt_dec a m) as [Hle|Hlt].
  - exists (m - a)%nat. split; [lia|].
    replace (a + (m - a))%nat with m by lia. apply Nat.mod_small, Hm.
  - exists (n + m - a)%nat. split; [lia|].
    replace (a + (n + m - a))%nat with (m + 1 * n)%nat by lia.
    rewrite Nat.Div0.mod_add. apply Nat.mod_small, Hm.
Qed.

Lemma filter_length_le {A} (f : A -> bool) (l : list A) :
  (length (List.filter f l) <= length l)%nat.
Proof. induction l as [|x l IH]; cbn; [lia|]. destruct (f x); cbn; lia. Qed.

Lemma move_to_next_player_spec s :
  (forall n, n ∈ player_order s -> is_Some (players s !! n)) ->
  (current_player_idx s < length (player_order s))%nat ->
  wp move_to_next_player s (rotated s).
Proof.
  intros Hall Hidx. unfold move_to_next_player. wp_steps.
  eapply wp_lift; [apply active_players_filter, Hall|].
  unfold rotated.
  destruct (length (List.filter (is_active (players s)) (player_order s)) <=? 1)%nat eqn:Hlen.
  - wp_steps. split; [reflexivity|].
    exists GAME_OVER, (turn_number s), (current_player_idx s).
    rewrite with_idx_same. split; [destruct s; reflexivity|]. auto.
  - apply Nat.leb_gt in Hlen.
    pose proof (filter_length_le (is_active (players s)) (player_order s)) as Hle.
    destruct (active_index (players s) (player_order s)) as (m & n0 & p0 & Hm & Hp0 & Hb0).
    { intros E. rewrite E in Hlen. cbn in Hlen. lia. }
    pose proof (lookup_lt_Some _ _ _ Hm) as Hmlt.
    set (n := length (player_order s)) in *.
    assert (Hidx1 : ((current_player_idx s + 1) mod n < n)%nat)
      by (apply Nat.mod_upper_bound; lia).
    destruct (reach_index _ m n Hidx1 Hmlt) as (j0 & Hj0 & Hreach).
    wp_steps. eapply wp_mono.
    { apply skip_bankrupt_spec; eng_simpl; [assumption | assumption |].
      exists j0, n0, p0. fold n. rewrite Hreach. auto. }
    cbn beta. eng_simpl. fold n.
    intros _ s' (j & n1 & p1 & Hj & -> & Hn1 & Hp1 & Hb1 & Hmin). eng_simpl.
    wp_steps. split; [reflexivity|].
    eexists _, _, _. split; [reflexivity|]. split; [reflexivity|].
    exists (S j), n1, p1.
    repeat split; try assumption; try reflexivity; try lia; try apply mod_shift.
    intros [|j'] Hj'; [lia|]. rewrite <- mod_shift. apply Hmin. lia.
Qed.

Lemma alter_insert `{Countable K} {V} (f : V -> V) (k : K) (m : gmap K V) x :
  m !! k = Some x -> alter f k m = <[k := f x]> m.
Proof.
  intros Hx. apply map_eq. intros j. destruct (decide (k = j)) as [<-|Hne].
  - rewrite lookup_alter_eq, lookup_insert_eq, Hx. reflexivity.
  - rewrite lookup_alter_ne, lookup_insert_ne by assumption. reflexivity.
Qed.

Lemma is_Some_insert_present `{Countable K} {V} (k j : K) (x y : V) (m : gmap K V) :
  m !! k = Some x -> is_Some (m !! j) -> is_Some (<[k := y]> m !! j).
Proof.
  intros Hx Hj. destruct (decide (k = j)) as [<-|Hne].
  - rewrite lookup_insert_eq. eauto.
  - rewrite lookup_insert_ne by assumption. exact Hj.
Qed.

Lemma end_turn_spec s pn p :
  phase s = TURN_COMPLETE ->
  player_order s !! current_player_idx s = Some pn ->
  players s !! pn = Some p ->
  (forall n, n ∈ player_order s -> is_Some (players s !! n)) ->
  wp end_turn s (fun r s' =>
    exists ms,
      rotated (with_messages ms (with_players (<[pn := turn_ended p]> (players s)) s))
              r s').
Proof.
  intros Hph Hpn Hp Hall.
  pose proof (lookup_lt_Some _ _ _ Hpn) as Hidx.
  unfold end_turn. wp_steps.
  destruct (decide (phase s <> TURN_COMPLETE)) as [Hne|_]; [contradiction|].
  wp_steps. cbn [Player.money Player.with_doubles_count].
  destruct (Player.money p <? 0) eqn:Hneg.
  - wp_steps. eng_simpl.
    rewrite (alter_twice_insert _ _ pn (players s) p Hp).
    replace (Player.with_bankrupt true (Player.with_doubles_count 0 p))
      with (turn_ended p) by (unfold turn_ended; rewrite Hneg; reflexivity).
    eapply wp_mono.
    + apply move_to_next_player_spec; eng_simpl; [|exact Hidx].
      intros n Hn. eapply is_Some_insert_present; [exact Hp | apply Hall, Hn].
    + cbn beta. intros r s' Hrot. eexists. exact Hrot.
  - wp_steps. eng_simpl.
    rewrite (alter_insert _ pn (players s) p Hp).
    replace (Player.with_doubles_count 0 p) with (turn_ended p)
      by (unfold turn_ended; rewrite Hneg; destruct p; reflexivity).
    eapply wp_mono.
    + apply move_to_next_player_spec; eng_simpl; [|exact Hidx].
      intros n Hn. eapply is_Some_insert_present; [exact Hp | apply Hall, Hn].
    + cbn beta. intros r s' Hrot. exists (messages s).
      replace (with_messages (messages s)
                 (with_players (<[pn:=turn_ended p]> (players s)) s))
        with (with_players (<[pn:=turn_ended p]> (players s)) s)
        by (destruct s; reflexivity).
      exact Hrot.
Qed.

(** C5. [end_turn] in phase TURN_COMPLETE returns.  It resets the doubles
    counter of the acting player and sets the bankrupt flag exactly when
    the cash is negative (the flag is never cleared).  Counting then the
    players of the order who are not bankrupt: with at most one the phase
    is GAME_OVER and the winner is that one, or none; otherwise the turn
    counter goes up by one, the index moves to the first player after it,
    cyclically in registration order, who is not bankrupt (those skipped
    are bankrupt), and the phase is IN_JAIL when that player is in jail and
    WAITING_FOR_ROLL otherwise. *)
Theorem end_turn_bankruptcy_and_rotation (s : Engine) (pn : string) (p : Player.t) :
  phase s = TURN_COMPLETE ->
  player_order s !! current_player_idx s = Some pn ->
  players s !! pn = Some p ->
  (forall n, n ∈ player_order s -> is_Some (players s !! n)) ->
  Player.bankrupt (turn_ended p) = (Player.money p <? 0) || Player.bankrupt p /\
  exists r s' ms,
    end_turn s = Ret (r, s') /\
    rotated (with_messages ms (with_players (<[pn := turn_ended p]> (players s)) s))
            r s'.
Proof.
  intros Hph Hpn Hp Hall. split; [reflexivity|].
  destruct (wp_elim _ _ _ (end_turn_spec s pn p Hph Hpn Hp Hall))
    as (r & s' & E & ms & Hrot).
  exists r, s', ms. split; assumption.
Qed.

Lemma end_turn_kept s :
  Inv s -> wp end_turn s (kept s).
Proof.
  intros [HB Hbuy].
  destruct (decide (phase s = TURN_COMPLETE)) as [Hph|Hph].
  2: { unfold end_turn. wp_steps.
       destruct (decide (phase s <> TURN_COMPLETE)); [|contradiction].
       wp_steps. apply kept_error. split; assumption. }
  destruct (Base_current s HB) as (pn & p & t & Hpn & Hp & Hok & Ht & Htok).
  eapply wp_mono; [apply (end_turn_spec s pn p Hph Hpn Hp), HB|].
  cbn beta. intros r s' (ms & Herr & ph & tn & i & -> & Hcase). split; [split|].
  - unfold Base in *. eng_simpl. rewrite <- (alter_insert (fun _ => turn_ended p) pn _ p Hp).
    apply base_alter_player.
    + apply (base_set_idx HB).
      destruct (_ <=? _)%nat.
      * destruct Hcase as (_ & _ & -> & _). apply HB.
      * destruct Hcase as (_ & k & name & np & _ & -> & _).
        apply Nat.mod_upper_bound. pose proof (base_idx _ _ _ _ _ _ HB). lia.
    + intros q Hq Hokq. rewrite Hp in Hq. injection Hq as <-. exact Hokq.
  - unfold buy_pending. eng_simpl. intros E. exfalso.
    destruct (_ <=? _)%nat.
    + destruct Hcase as (-> & _). discriminate.
    + destruct Hcase as (_ & k & name & np & _ & _ & _ & _ & _ & _ & -> & _).
      destruct (Player.in_jail np); discriminate.
  - rewrite Herr. discriminate.
Qed.

(** * Landing *)

(** ** Facts of the board *)

Ltac board_cases H :=
  unfold TILE_ITEMS in H;
  repeat (apply elem_of_cons in H as [H|H];
          [injection H as -> ->; cbn in *; try discriminate; auto 10 |]);
  try (apply elem_of_nil in H; contradiction).

Lemma chance_positions pos data :
  (pos, data) ∈ TILE_ITEMS -> td_type data = CHANCE ->
  pos = 7 \/ pos = 22 \/ pos = 36.
Proof. intros H Hty. board_cases H. Qed.

Lemma street_rent_table pos data :
  (pos, data) ∈ TILE_ITEMS -> td_type data = PROPERTY ->
  length (td_rent data) = 6%nat.
Proof. intros H Hty. board_cases H. Qed.

Lemma tile_ok_fields pl pos t :
  tile_ok pl pos t ->
  exists data,
    (pos, data) ∈ TILE_ITEMS /\
    TILE_DATA !! pos = Some data /\
    Property.position t = pos /\
    Property.tile_type t = td_type data /\
    Property.rent t = td_rent data /\
    Property.color_group t = td_color data.
Proof.
  intros ((data & Hdata & Hst) & _).
  apply reset_fields in Hst as (H1 & _ & H3 & _ & _ & H6 & _ & H8).
  exists data. repeat split; try assumption. apply tile_data_item, Hdata.
Qed.

(** The tile of the board at a given position. *)
Lemma Base_tile_at s pos data :
  Base s -> TILE_DATA !! pos = Some data -> in_board pos ->
  exists t, tiles s !! pos = Some t /\ Property.tile_type t = td_type data.
Proof.
  intros HB Hdata Hpos.
  destruct (base_tiles _ _ _ _ _ _ HB pos Hpos) as (t & Ht & (data' & Hdata' & Hst) & _).
  rewrite Hdata in Hdata'. injection Hdata' as <-.
  apply reset_fields in Hst as (_ & _ & H3 & _).
  exists t. split; assumption.
Qed.

(** ** Rent *)

Lemma py_index_ok {A} (l : list A) (i : Z) :
  0 <= i < Z.of_nat (length l) -> exists x, py_index l i = Ret x.
Proof.
  intros Hi. unfold py_index.
  assert (E : (0 <=? i) = true) by (apply Z.leb_le; lia).
  cbv zeta. rewrite !E.
  destruct (lookup_lt_is_Some_2 l (Z.to_nat i)) as [x Hx]; [lia|].
  rewrite Hx. eauto.
Qed.

Lemma get_rent_ok pl pos t dice rr ut :
  tile_ok pl pos t -> exists rent, Property.get_rent t dice rr ut = Ret rent.
Proof.
  intros Hok. destruct (tile_ok_fields _ _ _ Hok) as (data & Hitem & _ & _ & Hty & Hrent & _).
  destruct Hok as (_ & Hh & _).
  unfold Property.get_rent. destruct (Property.is_mortgaged t); [eauto|].
  destruct (Property.tile_type t) eqn:E; eauto.
  apply py_index_ok. rewrite Hrent, (street_rent_table pos data Hitem) by congruence.
  lia.
Qed.

Lemma count_type_ok (tl : gmap Z Property.t) ty props :
  (forall pos, in_board pos -> is_Some (tl !! pos)) ->
  Forall in_board props ->
  exists c, count_type tl ty props = Ret c.
Proof.
  intros Htl Hprops. induction Hprops as [|pos rest Hpos _ IH]; cbn [count_type]; [eauto|].
  destruct (Htl pos Hpos) as [t Ht]. rewrite Ht. destruct IH as [c ->]. eauto.
Qed.

Lemma Base_tiles_total s :
  Base s -> forall pos, in_board pos -> is_Some (tiles s !! pos).
Proof.
  intros HB pos Hpos. destruct (base_tiles _ _ _ _ _ _ HB pos Hpos) as (t & Ht & _). eauto.
Qed.

(** [_calculate_rent] returns and reads only. *)
Lemma calculate_rent_ok s pos t o dice (Q : Z -> Engine -> Prop) :
  Base s -> tile_ok (players s) pos t -> Property.owner t = Some o ->
  (forall rent, Q rent s) ->
  wp (_calculate_rent t dice) s Q.
Proof.
  intros HB Hok Ho HQ. unfold _calculate_rent. wp_steps. rewrite Ho.
  pose proof Hok as (Hst & Hh & Howner).
  destruct (Howner o Ho) as [q Hq].
  pose proof (base_players _ _ _ _ _ _ HB o q Hq) as (_ & _ & Hprops).
  wp_steps.
  destruct (count_type_ok (tiles s) RAILROAD _ (Base_tiles_total s HB) Hprops) as [c1 Hc1].
  destruct (count_type_ok (tiles s) UTILITY _ (Base_tiles_total s HB) Hprops) as [c2 Hc2].
  assert (Hrent : forall d rr ut, exists rent, Property.get_rent t d rr ut = Ret rent).
  { intros. eapply get_rent_ok, Hok. }
  destruct (Property.tile_type t).
  all: try (destruct (Hrent 0 1 1) as [rent Hr]; eapply wp_lift; [exact Hr | apply HQ]).
  - wp_steps. eapply wp_lift; [exact Hc1|]. wp_steps.
    destruct (Hrent 0 c1 1) as [rent Hr]. eapply wp_lift; [exact Hr | apply HQ].
  - wp_steps. eapply wp_lift; [exact Hc2|]. wp_steps.
    destruct (Hrent dice 1 c2) as [rent Hr]. eapply wp_lift; [exact Hr | apply HQ].
Qed.

(** ** Landing on a tile that is not a card tile *)

Ltac in_board_tac :=
  cbn [Player.position Player.with_position Player.with_money Player.with_in_jail
       Player.with_jail_turns Player.with_doubles_count Player.with_jail_cards];
  first [ assumption
        | unfold in_board; lia
        | apply Z.mod_pos_bound; lia ].

(** A field assignment to a player keeps [player_ok]. *)
Ltac player_ok_tac :=
  first
    [ player_ok_same
    | let q := fresh "q" in let Hq := fresh "Hq" in
      let Hn := fresh "Hn" in let Hps := fresh "Hps" in let Hpr := fresh "Hpr" in
      intros q Hq (Hn & Hps & Hpr);
      split; [exact Hn | split; [in_board_tac | exact Hpr]] ].

Ltac base_tac :=
  unfold Base in *; eng_simpl;
  repeat first
    [ assumption
    | apply base_alter_player; [| player_ok_tac]
    | apply base_alter_tile; [| tile_ok_same]
    | eapply base_chance_tail
    | eapply base_community_tail ].

Ltac wp_step :=
  first
    [ wp_prim
    | lazymatch goal with
      | |- wp (_send_to_jail _ _) _ _ => unfold _send_to_jail
      end ].

Ltac wp_run := repeat wp_step.

Ltac landed_leaf :=
  split; [split; [base_tac | try not_pending] |
          split; [reflexivity | split; reflexivity]].

Section LandingProofs.

Variable shuffle : Shuffle.

Lemma landing_plain fuel depth s pn p t dice :
  Base s ->
  player_order s !! current_player_idx s = Some pn ->
  players s !! pn = Some p ->
  tiles s !! Player.position p = Some t ->
  Property.tile_type t <> CHANCE ->
  Property.tile_type t <> COMMUNITY_CHEST ->
  wp (_handle_landing shuffle (S fuel) depth pn t dice) s
     (landed (player_order s) (current_player_idx s)).
Proof.
  intros HB Hpn Hp Ht Hnc Hnk.
  pose proof (base_players _ _ _ _ _ _ HB pn p Hp) as (Hname & Hpos & Hprops).
  destruct (base_tiles _ _ _ _ _ _ HB _ Hpos) as (t' & Ht' & Htok).
  rewrite Ht in Ht'. injection Ht' as <-.
  destruct (tile_ok_fields _ _ _ Htok) as (data & Hitem & Hdata & Htpos & Hty & _).
  cbn [_handle_landing].
  destruct (Property.tile_type t) eqn:Etype; try contradiction.
  - (* GO *) wp_run. landed_leaf.
  - (* PROPERTY *)
    wp_run. destruct (Property.owner t) as [o|] eqn:Eo.
    + destruct (negb (String.eqb o (Player.name p))).
      * apply wp_bind. eapply calculate_rent_ok; [exact HB | exact Htok | exact Eo|].
        intros rent. wp_run. landed_leaf.
      * wp_run. landed_leaf.
    + wp_run. landed_leaf.
      intros _. exists pn, p, t. eng_simpl. unfold ownable. auto 10.
  - (* RAILROAD *)
    wp_run. destruct (Property.owner t) as [o|] eqn:Eo.
    + destruct (negb (String.eqb o (Player.name p))).
      * apply wp_bind. eapply calculate_rent_ok; [exact HB | exact Htok | exact Eo|].
        intros rent. wp_run. landed_leaf.
      * wp_run. landed_leaf.
    + wp_run. landed_leaf.
      intros _. exists pn, p, t. eng_simpl. unfold ownable. auto 10.
  - (* UTILITY *)
    wp_run. destruct (Property.owner t) as [o|] eqn:Eo.
    + destruct (negb (String.eqb o (Player.name p))).
      * apply wp_bind. eapply calculate_rent_ok; [exact HB | exact Htok | exact Eo|].
        intros rent. wp_run. landed_leaf.
      * wp_run. landed_leaf.
    + wp_run. landed_leaf.
      intros _. exists pn, p, t. eng_simpl. unfold ownable. auto 10.
  - (* TAX *)
    apply wp_bind. unfold tax_amount. rewrite Htpos, Hdata. wp_run. landed_leaf.
  - (* JAIL *) wp_run. landed_leaf.
  - (* FREE_PARKING *) wp_run. landed_leaf.
  - (* GO_TO_JAIL *) wp_run. landed_leaf.
Qed.

End LandingProofs.

(** ** Drawing a card *)

Lemma community_card_kinds c :
  c ∈ COMMUNITY_CARDS ->
  match card_kind c with
  | Move to => to = 0
  | MoveBack _ => False
  | _ => True
  end.
Proof.
  intros H. unfold COMMUNITY_CARDS in H.
  repeat (apply elem_of_cons in H as [->|H]; [cbn; auto|]).
  apply elem_of_nil in H. contradiction.
Qed.

Lemma chance_card_kinds c :
  c ∈ CHANCE_CARDS ->
  match card_kind c with
  | Move to => to = 0 \/ to = 24 \/ to = 39 \/ to = 5
  | MoveBack spaces => spaces = 3
  | _ => True
  end.
Proof.
  intros H. unfold CHANCE_CARDS in H.
  repeat (apply elem_of_cons in H as [->|H]; [cbn; auto|]).
  apply elem_of_nil in H. contradiction.
Qed.

Lemma shuffled_head (sh : Shuffle) depth (full : list Card) :
  fair sh -> full <> [] ->
  exists c rest, sh depth full = c :: rest /\ c ∈ full.
Proof.
  intros Hfair Hne. pose proof (Hfair depth full) as Hperm.
  destruct (sh depth full) as [|c rest] eqn:E.
  - apply Permutation_nil in Hperm. contradiction.
  - exists c, rest. split; [reflexivity|].
    rewrite <- Hperm. left.
Qed.

Section DrawCard.

Variable shuffle : Shuffle.
Hypothesis Hfair : fair shuffle.

Variable landing : string -> Property.t -> Z -> M Result.
Variable order : list string.
Variable idx : nat.
Variable pn : string.
(** The positions a card of the deck can send the player to. *)
Variable dest_ok : Z -> Prop.

Hypothesis Hland : forall s1 p1 t1 dice,
  Base s1 -> player_order s1 = order -> current_player_idx s1 = idx ->
  players s1 !! pn = Some p1 ->
  tiles s1 !! Player.position p1 = Some t1 ->
  dest_ok (Player.position p1) ->
  wp (landing pn t1 dice) s1 (landed order idx).

Lemma draw_card_ok depth s p card_type :
  Base s ->
  player_order s = order -> current_player_idx s = idx ->
  order !! idx = Some pn ->
  players s !! pn = Some p ->
  (forall c, c ∈ deck_of card_type ->
     match card_kind c with
     | Move to => in_board to /\ dest_ok to
     | MoveBack spaces => dest_ok ((Player.position p - spaces) mod 40)
     | _ => True
     end) ->
  wp (_draw_card shuffle landing depth pn card_type) s (landed order idx).
Proof.
  intros HB Hord Hidx Hpn Hp Hcards. unfold _draw_card.
  apply wp_bind, wp_get. apply wp_bind.
  apply wp_mono with (Q := fun c s1 =>
    c ∈ deck_of card_type /\ Base s1 /\
    player_order s1 = order /\ current_player_idx s1 = idx /\
    players s1 = players s /\ tiles s1 = tiles s).
  { unfold deck_of. destruct (bool_decide (card_type = CHANCE)).
    - destruct (chance_deck s) as [|c rest] eqn:E.
      + destruct (shuffled_head shuffle depth CHANCE_CARDS Hfair) as (c & rest & -> & Hc);
          [discriminate|].
        wp_run. auto 10.
      + wp_run. split; [|split; [|auto]].
        * apply (base_chance _ _ _ _ _ _ HB). rewrite E. left.
        * unfold Base in *. eng_simpl. rewrite E in HB. eapply base_chance_tail, HB.
    - destruct (community_deck s) as [|c rest] eqn:E.
      + destruct (shuffled_head shuffle depth COMMUNITY_CARDS Hfair) as (c & rest & -> & Hc);
          [discriminate|].
        wp_run. auto 10.
      + wp_run. split; [|split; [|auto]].
        * apply (base_community _ _ _ _ _ _ HB). rewrite E. left.
        * unfold Base in *. eng_simpl. rewrite E in HB. eapply base_community_tail, HB. }
  cbn beta. clear HB. intros c s1 (Hc & HB & Hord1 & Hidx1 & Hpl1 & Htl1).
  rewrite <- Hpl1 in Hp. specialize (Hcards c Hc).
  pose proof (base_players _ _ _ _ _ _ HB pn p Hp) as (Hname & Hpos & Hprops).
  wp_run. destruct (card_kind c) as [to|amount|spaces| |].
  - (* Move *)
    destruct Hcards as (Hto & Hdest).
    destruct (base_tiles _ _ _ _ _ _ HB to Hto) as (t1 & Ht1 & _).
    wp_run. destruct (to <? Player.position p).
    + wp_run.
      eapply Hland; eng_simpl; try assumption; try reflexivity.
      * base_tac.
      * solve_lookup.
      * exact Ht1.
      * exact Hdest.
    + wp_run.
      eapply Hland; eng_simpl; try assumption; try reflexivity.
      * base_tac.
      * solve_lookup.
      * exact Ht1.
      * exact Hdest.
  - (* Money *)
    wp_run. rewrite <- Hord1, <- Hidx1. landed_leaf.
  - (* MoveBack *)
    assert (Hnew : in_board ((Player.position p - spaces) mod 40))
      by (apply Z.mod_pos_bound; lia).
    destruct (base_tiles _ _ _ _ _ _ HB _ Hnew) as (t1 & Ht1 & _).
    wp_run.
    eapply Hland; eng_simpl; try assumption; try reflexivity.
    + base_tac.
    + solve_lookup.
    + exact Ht1.
    + exact Hcards.
  - (* JailCard *)
    wp_run. rewrite <- Hord1, <- Hidx1. landed_leaf.
  - (* GoToJail *)
    wp_run. rewrite <- Hord1, <- Hidx1. landed_leaf.
Qed.

End DrawCard.

(** ** Landing on any tile, and [roll_and_move] *)

Lemma handle_landing_card shuffle fuel depth pn t dice :
  Property.tile_type t = CHANCE \/ Property.tile_type t = COMMUNITY_CHEST ->
  _handle_landing shuffle (S fuel) depth pn t dice =
  _draw_card shuffle (_handle_landing shuffle fuel (S depth)) depth pn
    (Property.tile_type t).
Proof. intros [H|H]; cbn [_handle_landing]; rewrite H; reflexivity. Qed.

Section LandingAll.

Variable shuffle : Shuffle.
Hypothesis Hfair : fair shuffle.

Lemma landing_at fuel depth s pn p t dice data :
  Base s ->
  player_order s !! current_player_idx s = Some pn ->
  players s !! pn = Some p ->
  tiles s !! Player.position p = Some t ->
  TILE_DATA !! Player.position p = Some data ->
  td_type data <> CHANCE -> td_type data <> COMMUNITY_CHEST ->
  wp (_handle_landing shuffle (S fuel) depth pn t dice) s
     (landed (player_order s) (current_player_idx s)).
Proof.
  intros HB Hpn Hp Ht Hdata Hnc Hnk.
  pose proof (base_players _ _ _ _ _ _ HB pn p Hp) as (_ & Hpos & _).
  destruct (Base_tile_at s _ data HB Hdata Hpos) as (t' & Ht' & Hty).
  rewrite Ht in Ht'. injection Ht' as <-.
  eapply landing_plain; try eassumption; rewrite Hty; assumption.
Qed.

Lemma landing_community fuel depth s pn p t dice :
  Base s ->
  player_order s !! current_player_idx s = Some pn ->
  players s !! pn = Some p ->
  tiles s !! Player.position p = Some t ->
  Property.tile_type t = COMMUNITY_CHEST ->
  wp (_handle_landing shuffle (S (S fuel)) depth pn t dice) s
     (landed (player_order s) (current_player_idx s)).
Proof.
  intros HB Hpn Hp Ht Hty.
  rewrite handle_landing_card by auto. rewrite Hty.
  eapply (draw_card_ok shuffle Hfair _ _ _ pn (fun z => z = 0));
    try eassumption; try reflexivity.
  - intros s1 p1 t1 dice1 HB1 Ho1 Hi1 Hp1 Ht1 Hz.
    rewrite <- Ho1, <- Hi1.
    eapply (landing_at _ _ s1 pn p1 t1 dice1 (plain "GO" GO)); try eassumption.
    + rewrite Ho1, Hi1. exact Hpn.
    + rewrite Hz. reflexivity.
    + discriminate.
    + discriminate.
  - intros c Hc. apply community_card_kinds in Hc.
    destruct (card_kind c); try exact I; try contradiction.
    subst. split; [unfold in_board; lia | reflexivity].
Qed.

Lemma landing_chance fuel depth s pn p t dice :
  Base s ->
  player_order s !! current_player_idx s = Some pn ->
  players s !! pn = Some p ->
  tiles s !! Player.position p = Some t ->
  Property.tile_type t = CHANCE ->
  wp (_handle_landing shuffle (S (S (S fuel))) depth pn t dice) s
     (landed (player_order s) (current_player_idx s)).
Proof.
  intros HB Hpn Hp Ht Hty.
  pose proof (base_players _ _ _ _ _ _ HB pn p Hp) as (_ & Hpos & _).
  destruct (base_tiles _ _ _ _ _ _ HB _ Hpos) as (t' & Ht' & Htok).
  rewrite Ht in Ht'. injection Ht' as <-.
  destruct (tile_ok_fields _ _ _ Htok) as (data & Hitem & _ & _ & Hty' & _).
  assert (Hat : Player.position p = 7 \/ Player.position p = 22 \/ Player.position p = 36)
    by (apply (chance_positions _ data Hitem); congruence).
  rewrite handle_landing_card by auto. rewrite Hty.
  eapply (draw_card_ok shuffle Hfair _ _ _ pn chance_dest);
    try eassumption; try reflexivity.
  - intros s1 p1 t1 dice1 HB1 Ho1 Hi1 Hp1 Ht1 Hz.
    rewrite <- Ho1, <- Hi1. rewrite <- Ho1, <- Hi1 in Hpn.
    destruct Hz as [Hz|[Hz|[Hz|[Hz|[Hz|[Hz|Hz]]]]]].
    7: { pose proof (base_players _ _ _ _ _ _ HB1 pn p1 Hp1) as (_ & Hpos1 & _).
         destruct (Base_tile_at s1 (Player.position p1)
                     (plain "Community Chest" COMMUNITY_CHEST) HB1)
           as (t' & Ht' & Hty1); [rewrite Hz; reflexivity | exact Hpos1 |].
         rewrite Ht1 in Ht'. injection Ht' as <-.
         eapply landing_community; eassumption. }
    all: eapply landing_at; try eassumption;
         [rewrite Hz; reflexivity | discriminate | discriminate].
  - intros c Hc. apply chance_card_kinds in Hc. unfold chance_dest.
    destruct (card_kind c); try exact I.
    + split; [unfold in_board; lia | tauto].
    + subst. destruct Hat as [Hat | [Hat | Hat]]; rewrite Hat; cbn; auto 10.
Qed.

(** Landing resolution returns within three frames and keeps the
    invariant. *)
Lemma landing_ok fuel depth s pn p t dice :
  (3 <= fuel)%nat ->
  Base s ->
  player_order s !! current_player_idx s = Some pn ->
  players s !! pn = Some p ->
  tiles s !! Player.position p = Some t ->
  wp (_handle_landing shuffle fuel depth pn t dice) s
     (landed (player_order s) (current_player_idx s)).
Proof.
  intros Hfuel HB Hpn Hp Ht.
  destruct fuel as [|[|[|fuel]]]; try lia.
  destruct (decide (Property.tile_type t = CHANCE)) as [Hc|Hc].
  { eapply landing_chance; eassumption. }
  destruct (decide (Property.tile_type t = COMMUNITY_CHEST)) as [Hk|Hk].
  { eapply landing_community; eassumption. }
  eapply landing_plain; eassumption.
Qed.

End LandingAll.

Lemma roll_and_move_kept s fuel d1 d2 shuffle :
  Inv s -> (3 <= fuel)%nat -> fair shuffle ->
  wp (roll_and_move fuel d1 d2 shuffle) s (kept s).
Proof.
  intros [HB Hbuy] Hfuel Hfair. unfold roll_and_move. wp_run.
  destruct (decide (phase s = IN_JAIL)).
  { wp_run. apply kept_error. split; assumption. }
  destruct (decide (phase s <> WAITING_FOR_ROLL)).
  { wp_run. apply kept_error. split; assumption. }
  destruct (Base_current s HB) as (pn & p & t0 & Hpn & Hp & Hok & _ & _).
  destruct Hok as (Hname & Hpos & Hprops).
  wp_run.
  assert (Hnew : in_board ((Player.position p + (d1 + d2)) mod 40))
    by (apply Z.mod_pos_bound; lia).
  destruct (base_tiles _ _ _ _ _ _ HB _ Hnew) as (t & Ht & _).
  (* the landing and what follows it, from the engine after the move *)
  assert (Hrest : forall s1 p1 who,
    Base s1 -> player_order s1 = player_order s ->
    current_player_idx s1 = current_player_idx s ->
    tiles s1 = tiles s ->
    players s1 !! pn = Some p1 ->
    Player.position p1 = (Player.position p + (d1 + d2)) mod 40 ->
    wp (key <- current_tile ;;
        t <- tile key ;;
        _log (who +:+ " landed on " +:+ Property.name t) ;;
        result <- _handle_landing shuffle fuel 0 pn t (d1 + d2) ;;
        finish_roll d1 d2 pn t result) s1 (fun r s' => Inv s' /\ has_error r = false)).
  { intros s1 p1 who HB1 Ho1 Hi1 Htl1 Hp1 Hpos1.
    assert (Hpn1 : player_order s1 !! current_player_idx s1 = Some pn)
      by (rewrite Ho1, Hi1; exact Hpn).
    assert (Ht1 : tiles s1 !! Player.position p1 = Some t)
      by (rewrite Htl1, Hpos1; exact Ht).
    wp_run. rewrite Hpos1 in *. wp_run.
    eapply wp_mono.
    { eapply (landing_ok shuffle Hfair fuel 0 _ pn p1 t); eng_simpl; try assumption.
      rewrite Hpos1. exact Ht1. }
    cbn beta. eng_simpl. intros r s2 ((HB2 & Hbuy2) & Herr & Ho2 & Hi2).
    destruct (Base_current s2 HB2) as (pn2 & p2 & t2 & Hpn2 & Hp2 & _).
    assert (pn2 = pn) by (rewrite Ho2, Hi2, Hpn1 in Hpn2; congruence). subst pn2.
    unfold finish_roll. wp_run.
    destruct ((d1 =? d2) && bool_decide (phase s2 = TURN_COMPLETE)).
    - wp_run. split; [split; [base_tac | not_pending]|].
      rewrite !has_error_dict_set by reflexivity. exact Herr.
    - wp_run. split; [split; assumption|].
      rewrite !has_error_dict_set by reflexivity. exact Herr. }
  assert (Hkept : forall r s', Inv s' /\ has_error r = false -> kept s r s').
  { intros r s' [HI Herr]. split; [exact HI|]. rewrite Herr. discriminate. }
  assert (Hmoved : forall s1 p1 who,
    Base s1 -> player_order s1 = player_order s ->
    current_player_idx s1 = current_player_idx s ->
    tiles s1 = tiles s ->
    players s1 !! pn = Some p1 ->
    Player.position p1 = (Player.position p + (d1 + d2)) mod 40 ->
    wp (key <- current_tile ;;
        t <- tile key ;;
        _log (who +:+ " landed on " +:+ Property.name t) ;;
        result <- _handle_landing shuffle fuel 0 pn t (d1 + d2) ;;
        finish_roll d1 d2 pn t result) s1 (kept s)).
  { intros. eapply wp_mono; [eapply Hrest; eassumption | exact Hkept]. }
  clear Hrest.
  destruct (d1 =? d2) eqn:Hdbl.
  - wp_run. cbn [Player.doubles_count Player.with_doubles_count].
    destruct (3 <=? Player.doubles_count p + 1).
    + wp_run. split; [split; [base_tac | not_pending] | no_error].
    + wp_run. cbn [Player.position Player.with_position Player.with_doubles_count].
      destruct ((_ <? _) && _); [do 3 wp_step | wp_step].
      all: eapply Hmoved; eng_simpl;
        [base_tac | reflexivity | reflexivity | reflexivity | solve_lookup | reflexivity].
  - wp_run. cbn [Player.position Player.with_position Player.with_doubles_count].
    destruct ((_ <? _) && _); [do 3 wp_step | wp_step].
    all: eapply Hmoved; eng_simpl;
      [base_tac | reflexivity | reflexivity | reflexivity | solve_lookup | reflexivity].
Qed.

(** * Building *)

Lemma street_groups_checked : forallb street_group_okb TILE_ITEMS = true.
Proof. vm_compute. reflexivity. Qed.

Lemma street_group pos data :
  (pos, data) ∈ TILE_ITEMS -> td_type data = PROPERTY ->
  pos ∈ color_group_positions (td_color data) /\
  Forall in_board (color_group_positions (td_color data)).
Proof.
  intros Hitem Hty. pose proof street_groups_checked as Hall.
  rewrite forallb_forall in Hall. apply list_elem_of_In in Hitem.
  specialize (Hall _ Hitem). unfold street_group_okb in Hall. cbn [fst snd] in Hall.
  rewrite Hty in Hall. apply andb_prop in Hall as [Hin Hboard].
  split; [apply bool_decide_eq_true in Hin; exact Hin|].
  apply Forall_forall. intros z Hz. apply list_elem_of_In in Hz.
  rewrite forallb_forall in Hboard. specialize (Hboard z Hz).
  unfold in_board. lia.
Qed.

Lemma group_houses_ok (tl : gmap Z Property.t) group :
  (forall g, g ∈ group -> is_Some (tl !! g)) ->
  exists hs, group_houses tl group = Ret hs /\
    length hs = length group /\
    forall h, h ∈ hs <-> exists g tg, g ∈ group /\ tl !! g = Some tg /\ Property.houses tg = h.
Proof.
  induction group as [|g rest IH]; intros Hall; cbn [group_houses].
  - exists []. split; [reflexivity|]. split; [reflexivity|].
    intros h. split; [intros H; inversion H | intros (g & tg & H & _); inversion H].
  - destruct (Hall g) as [tg Hg]; [left|]. rewrite Hg.
    destruct IH as (hs & -> & Hlen & Hhs); [intros g' Hg'; apply Hall; right; exact Hg'|].
    exists (Property.houses tg :: hs). split; [reflexivity|]. split; [cbn; lia|].
    intros h. rewrite elem_of_cons, Hhs. split.
    + intros [->|(g' & tg' & Hin & Hl & Hh)].
      * exists g, tg. split; [left|]. auto.
      * exists g', tg'. split; [right; exact Hin|]. auto.
    + intros (g' & tg' & Hin & Hl & Hh). apply elem_of_cons in Hin as [->|Hin].
      * left. rewrite Hg in Hl. injection Hl as <-. congruence.
      * right. exists g', tg'. auto.
Qed.

Lemma foldl_min_le (l : list Z) (x : Z) :
  foldl Z.min x l <= x /\ (forall h, h ∈ l -> foldl Z.min x l <= h) /\
  (foldl Z.min x l = x \/ foldl Z.min x l ∈ l).
Proof.
  revert x. induction l as [|y l IH]; intros x; cbn [foldl].
  - split; [lia|]. split; [intros h H; inversion H | left; reflexivity].
  - destruct (IH (Z.min x y)) as (H1 & H2 & H3). split; [lia|]. split.
    + intros h Hh. apply elem_of_cons in Hh as [->|Hh]; [lia | apply H2, Hh].
    + destruct H3 as [H3|H3].
      * destruct (Z.min_spec x y) as [[_ E]|[_ E]].
        -- left. rewrite H3. exact E.
        -- right. rewrite H3, E. left.
      * right. right. exact H3.
Qed.

(** [min] of a non-empty list is below every element and is one of them. *)
Lemma py_min_ok (l : list Z) :
  l <> [] ->
  exists m, py_min l = Ret m /\ m ∈ l /\ forall h, h ∈ l -> m <= h.
Proof.
  destruct l as [|x l]; [congruence|]. intros _. cbn [py_min].
  exists (foldl Z.min x l). split; [reflexivity|].
  destruct (foldl_min_le l x) as (H1 & H2 & H3). split.
  - destruct H3 as [->|H3]; [left | right; exact H3].
  - intros h Hh. apply elem_of_cons in Hh as [->|Hh]; [exact H1 | apply H2, Hh].
Qed.

(** The body of the loop of [_get_buildable_properties] returns on a
    position of the board, and accepts it exactly when, in the words of the
    specification, a house can be built there. *)
Lemma buildable_here_spec s p pos :
  Base s -> in_board pos ->
  exists b, buildable_here (tiles s) p pos = Ret b /\
    (b = true <->
     exists t,
       tiles s !! pos = Some t /\
       Property.tile_type t = PROPERTY /\
       Property.is_mortgaged t = false /\
       Property.houses t < 5 /\
       (forall g, g ∈ color_group_positions (Property.color_group t) ->
                  g ∈ Player.properties p) /\
       (forall g tg, g ∈ color_group_positions (Property.color_group t) ->
                     tiles s !! g = Some tg ->
                     Property.houses t <= Property.houses tg) /\
       Property.house_cost t <= Player.money p).
Proof.
  intros HB Hpos.
  destruct (base_tiles _ _ _ _ _ _ HB pos Hpos) as (t & Ht & Htok).
  destruct (tile_ok_fields _ _ _ Htok) as (data & Hitem & _ & _ & Hty & _ & Hcolor).
  unfold buildable_here. rewrite Ht.
  destruct (decide (Property.tile_type t = PROPERTY)) as [Hprop|Hprop].
  2: { rewrite bool_decide_false by assumption. cbn [negb orb].
       exists false. split; [reflexivity|]. split; [discriminate|].
       intros (u & Hu & Hp & _). injection Hu as <-. contradiction. }
  rewrite bool_decide_true by assumption. cbn [negb orb].
  destruct (Z.leb_spec 5 (Property.houses t)) as [Hfive|Hfive]; cbn [orb].
  { exists false. split; [reflexivity|]. split; [discriminate|].
    intros (u & Hu & _ & _ & Hlt & _). injection Hu as <-. lia. }
  destruct (Property.is_mortgaged t) eqn:Hmort.
  { exists false. split; [reflexivity|]. split; [discriminate|].
    intros (u & Hu & _ & Hm & _). injection Hu as <-. congruence. }
  destruct (street_group pos data Hitem) as (Hin & Hboard); [congruence|].
  rewrite <- Hcolor in Hin, Hboard.
  set (group := color_group_positions (Property.color_group t)) in *.
  destruct (forallb (fun g => bool_decide (g ∈ Player.properties p)) group) eqn:Hall.
  2: { exists false. split; [reflexivity|]. split; [discriminate|].
       intros (u & Hu & _ & _ & _ & Hown & _). injection Hu as <-.
       assert (forallb (fun g => bool_decide (g ∈ Player.properties p)) group = true);
         [|congruence].
       apply forallb_forall. intros g Hg. apply bool_decide_eq_true_2, Hown.
       apply list_elem_of_In, Hg. }
  destruct (group_houses_ok (tiles s) group) as (hs & -> & Hlen & Hhs).
  { intros g Hg. apply (Base_tiles_total s HB).
    rewrite Forall_forall in Hboard. apply Hboard, Hg. }
  destruct (py_min_ok hs) as (m & -> & Hm & Hmin).
  { intros ->. destruct group; [inversion Hin | discriminate]. }
  eexists. split; [reflexivity|].
  rewrite andb_true_iff, Z.leb_le, Z.leb_le. split.
  - intros [Hle Hcost]. exists t. repeat split; try assumption.
    + intros g Hg. rewrite forallb_forall in Hall.
      apply (bool_decide_eq_true_1 _), Hall, list_elem_of_In, Hg.
    + intros g tg Hg Htg. etransitivity; [exact Hle|].
      apply Hmin, Hhs. eauto.
  - intros (u & Hu & _ & _ & _ & _ & Hle & Hcost).
    injection Hu as <-. split; [|exact Hcost].
    apply Hhs in Hm as (g & tg & Hg & Htg & <-). eapply Hle; eassumption.
Qed.

Lemma buildable_loop_spec tl p props :
  (forall pos, pos ∈ props -> exists b, buildable_here tl p pos = Ret b) ->
  exists l, buildable_loop tl p props = Ret l /\
    forall x, x ∈ l <-> x ∈ props /\ buildable_here tl p x = Ret true.
Proof.
  induction props as [|pos rest IH]; intros Hall; cbn [buildable_loop].
  - exists []. split; [reflexivity|]. intros x. split.
    + intros H. inversion H.
    + intros [H _]. inversion H.
  - destruct (Hall pos) as [b Hb]; [left|]. rewrite Hb.
    destruct IH as (l & -> & Hl); [intros q Hq; apply Hall; right; exact Hq|].
    eexists. split; [reflexivity|]. intros x.
    destruct b.
    + rewrite !elem_of_cons, Hl. split.
      * intros [->|[H1 H2]]; auto.
      * intros [[->|H1] H2]; auto.
    + rewrite elem_of_cons, Hl. split.
      * intros [H1 H2]. auto.
      * intros [[->|H1] H2]; [congruence | auto].
Qed.

(** [build_house] returns; it accepts exactly when [can_build] holds, in
    whatever phase, and then debits the cost and adds one house; a refusal
    leaves the engine as it was. *)
Lemma build_house_spec s pn p position :
  Base s ->
  player_order s !! current_player_idx s = Some pn ->
  players s !! pn = Some p ->
  wp (build_house position) s (fun r s' =>
    (has_error r = false <-> can_build s p position) /\
    (has_error r = false -> built s pn position s') /\
    (has_error r = true -> s' = s)).
Proof.
  intros HB Hpn Hp.
  pose proof (base_players _ _ _ _ _ _ HB pn p Hp) as (_ & _ & Hprops).
  unfold build_house. wp_run.
  destruct (decide (position ∈ Player.properties p)) as [Hin|Hin].
  2: { rewrite bool_decide_false by assumption. cbn [negb]. wp_run.
       split; [|split; [discriminate | reflexivity]].
       split; [discriminate|]. intros [Hc _]. contradiction. }
  rewrite bool_decide_true by assumption. cbn [negb].
  destruct (Base_owned_tile s pn p position HB Hp Hin) as (t & Ht & Htok).
  wp_run. unfold _get_buildable_properties. wp_run.
  destruct (buildable_loop_spec (tiles s) p (Player.properties p)) as (l & Hl & Hmem).
  { intros pos Hpos. rewrite Forall_forall in Hprops.
    destruct (buildable_here_spec s p pos HB (Hprops pos Hpos)) as (b & Hb & _). eauto. }
  eapply wp_lift; [exact Hl|].
  assert (Hpos : in_board position) by (rewrite Forall_forall in Hprops; auto).
  destruct (buildable_here_spec s p position HB Hpos) as (b & Hb & Hiff).
  destruct (decide (position ∈ l)) as [Hyes|Hno].
  - rewrite bool_decide_true by assumption. cbn [negb].
    apply Hmem in Hyes as [_ Hyes]. rewrite Hyes in Hb. injection Hb as <-.
    wp_run. split; [|split; [|discriminate]].
    + split; [|reflexivity]. intros _. split; [exact Hin | apply Hiff; reflexivity].
    + intros _. exists p, t. eexists. split; [exact Hp|]. split; [exact Ht|].
      eng_simpl. rewrite (alter_insert _ pn (players s) p Hp).
      rewrite (alter_insert _ position (tiles s) t Ht). reflexivity.
  - rewrite bool_decide_false by assumption. cbn [negb]. wp_run.
    split; [|split; [discriminate | reflexivity]].
    split; [discriminate|]. intros [_ Hc]. exfalso. apply Hno, Hmem.
    split; [exact Hin|]. rewrite Hb. f_equal. apply Hiff, Hc.
Qed.

Lemma build_house_kept s position :
  Inv s -> wp (build_house position) s (kept s).
Proof.
  intros [HB Hbuy].
  destruct (Base_current s HB) as (pn & p & t0 & Hpn & Hp & Hok & _ & _).
  eapply wp_mono; [apply (build_house_spec s pn p position HB Hpn Hp)|].
  cbn beta. intros r s' (Hiff & Hbuilt & Hsame). unfold kept.
  destruct (has_error r) eqn:Herr.
  { split; [|exact Hsame]. rewrite (Hsame eq_refl). split; assumption. }
  split; [|discriminate].
  destruct (proj1 Hiff eq_refl) as (Hin & t & Ht & _ & _ & Hlt & _).
  destruct (Hbuilt eq_refl) as (p' & t' & ms & Hp' & Ht' & ->).
  rewrite Hp in Hp'. injection Hp' as <-. rewrite Ht in Ht'. injection Ht' as <-.
  rewrite <- (alter_insert (fun p => Player.with_money (Player.money p - Property.house_cost t) p)
                pn (players s) p Hp).
  rewrite <- (alter_insert (fun t => Property.with_houses (Property.houses t + 1) t)
                position (tiles s) t Ht).
  split.
  - unfold Base in *. eng_simpl. apply base_alter_tile.
    + apply base_alter_player; [assumption | player_ok_same].
    + intros u Hu (Hst & Hh & Ho). rewrite Ht in Hu. injection Hu as <-.
      split; [exact Hst|]. split; [cbn; lia | exact Ho].
  - eapply buy_pending_same; [exact Hbuy | reflexivity..| |]; eng_simpl.
    + apply alter_keeps_position. reflexivity.
    + apply alter_keeps_owner. split; reflexivity.
Qed.

(** * Reachable states *)

(** ** The engine after [initialize] *)

Lemma foldl_new_players (names : list string) : forall (m : gmap string Player.t),
  (forall n p, m !! n = Some p -> p = Player.new n) ->
  (forall n p, foldl (fun m n => <[n := Player.new n]> m) m names !! n = Some p ->
               p = Player.new n) /\
  (forall n, n ∈ names ->
             is_Some (foldl (fun m n => <[n := Player.new n]> m) m names !! n)) /\
  (forall n, is_Some (m !! n) ->
             is_Some (foldl (fun m n => <[n := Player.new n]> m) m names !! n)).
Proof.
  induction names as [|a names IH]; intros m Hm; cbn [foldl].
  - split; [exact Hm|]. split; [intros n H; inversion H | auto].
  - destruct (IH (<[a := Player.new a]> m)) as (H1 & H2 & H3).
    { intros n p. destruct (decide (a = n)) as [<-|Hne].
      - rewrite lookup_insert_eq. congruence.
      - rewrite lookup_insert_ne by assumption. apply Hm. }
    split; [exact H1|]. split.
    + intros n Hn. apply elem_of_cons in Hn as [->|Hn]; [|apply H2, Hn].
      apply H3. rewrite lookup_insert_eq. eauto.
    + intros n Hn. apply H3. destruct (decide (a = n)) as [<-|Hne].
      * rewrite lookup_insert_eq. eauto.
      * rewrite lookup_insert_ne by assumption. exact Hn.
Qed.

(** The loop of [initialize] over the tiles: the tiles it stores, and the
    fields it leaves. *)
Lemma add_tiles_fields (items : list (Z * TileData)) : forall s,
  let s' := foldl add_tile s items in
  players s' = players s /\ player_order s' = player_order s /\
  current_player_idx s' = current_player_idx s /\ phase s' = phase s /\
  chance_deck s' = chance_deck s /\ community_deck s' = community_deck s /\
  (forall pos data, (pos, data) ∈ items -> NoDup items.*1 ->
                    tiles s' !! pos = Some (new_property pos data)).
Proof.
  induction items as [|[pos0 data0] items IH]; intros s; cbn [foldl].
  - repeat split; try reflexivity. intros pos data H. inversion H.
  - destruct (IH (add_tile s (pos0, data0))) as (H1 & H2 & H3 & H4 & H5 & H6 & H7).
    cbn zeta. rewrite H1, H2, H3, H4, H5, H6. repeat split; try reflexivity.
    intros pos data Hin Hnd. cbn [fmap list_fmap fst] in Hnd.
    apply NoDup_cons in Hnd as [Hfresh Hnd].
    apply elem_of_cons in Hin as [[= -> ->]|Hin]; [|apply H7; assumption].
    clear IH H1 H2 H3 H4 H5 H6 H7.
    assert (Hkeep : forall l s1, pos0 ∉ l.*1 ->
              tiles (foldl add_tile s1 l) !! pos0 = tiles s1 !! pos0).
    { induction l as [|[k d] l IHl]; intros s1 Hk; cbn [foldl]; [reflexivity|].
      cbn [fmap list_fmap fst] in Hk. apply not_elem_of_cons in Hk as [Hne Hk].
      rewrite IHl by assumption. cbn. apply lookup_insert_ne. congruence. }
    rewrite Hkeep by assumption. cbn. apply lookup_insert_eq.
Qed.

Lemma tile_items_nodup : NoDup TILE_ITEMS.*1.
Proof. apply (bool_decide_unpack _). vm_compute. exact I. Qed.

Lemma board_positions_checked :
  forallb (fun z => match TILE_DATA !! z with Some _ => true | None => false end)
          (seqZ 0 40) = true.
Proof. vm_compute. reflexivity. Qed.

Lemma board_position pos :
  in_board pos -> exists data, TILE_DATA !! pos = Some data.
Proof.
  intros Hpos. pose proof board_positions_checked as H.
  rewrite forallb_forall in H. specialize (H pos).
  destruct (TILE_DATA !! pos) as [data|]; [eauto|].
  discriminate H. apply list_elem_of_In, elem_of_seqZ. unfold in_board in Hpos. lia.
Qed.

Lemma initialize_Inv names chance community r s :
  names <> [] ->
  Permutation chance CHANCE_CARDS ->
  Permutation community COMMUNITY_CARDS ->
  initialize (__init__ names chance community) = Ret (r, s) ->
  Inv s.
Proof.
  intros Hne Hch Hco Hinit.
  assert (Hs : s = foldl add_tile
                 (with_players
                    (foldl (fun m n => <[n := Player.new n]> m) ∅ names)
                    (__init__ names chance community)) TILE_ITEMS).
  { transitivity (exec initialize (__init__ names chance community)).
    - unfold exec. rewrite Hinit. reflexivity.
    - reflexivity. }
  set (s1 := with_players _ _) in Hs.
  destruct (add_tiles_fields TILE_ITEMS s1) as (H1 & H2 & H3 & H4 & H5 & H6 & H7).
  cbn zeta in *. rewrite <- Hs in *. clear Hs.
  destruct (foldl_new_players names ∅) as (Hnew & Hall & _).
  { intros n p H. rewrite lookup_empty in H. discriminate. }
  split.
  - unfold Base. rewrite H1, H2, H3, H5, H6. subst s1. eng_simpl. cbn [__init__] in *.
    split.
    + change (0 < length names)%nat. destruct names; [congruence | cbn; lia].
    + exact Hall.
    + intros n p Hp. apply Hnew in Hp as ->. cbn.
      split; [reflexivity|]. split; [unfold in_board; cbn; lia | constructor].
    + intros pos Hpos. destruct (board_position pos Hpos) as [data Hdata].
      exists (new_property pos data). split.
      * apply H7; [apply tile_data_item, Hdata | apply tile_items_nodup].
      * split; [exists data; split; [exact Hdata | reflexivity]|].
        split; [cbn; lia | cbn; discriminate].
    + intros c Hc. cbn in Hc. rewrite <- Hch. exact Hc.
    + intros c Hc. cbn in Hc. rewrite <- Hco. exact Hc.
  - intros Hph. rewrite H4 in Hph. subst s1. cbn in Hph. discriminate.
Qed.

(** ** Every operation keeps the invariant *)

Lemma run_op_kept s op :
  Inv s -> valid_op op -> wp (run_op op) s (kept s).
Proof.
  intros HI Hvalid. destruct op; cbn [run_op].
  - destruct Hvalid as (Hfuel & _ & _ & Hfair). apply roll_and_move_kept; assumption.
  - apply buy_current_property_kept, HI.
  - apply decline_purchase_kept, HI.
  - apply pay_bail_kept, HI.
  - apply use_jail_card_kept, HI.
  - apply roll_for_doubles_kept, HI.
  - apply build_house_kept, HI.
  - apply mortgage_property_kept, HI.
  - apply unmortgage_property_kept, HI.
  - apply end_turn_kept, HI.
  - apply get_property_info_kept, HI.
Qed.

Lemma reachable_Inv s : reachable s -> Inv s.
Proof.
  induction 1 as [names chance community r s Hne Hch Hco Hinit | s op r s' _ IH Hvalid Hrun].
  - eapply initialize_Inv; eassumption.
  - destruct (wp_elim _ _ _ (run_op_kept s op IH Hvalid)) as (r0 & s0 & E & HI & _).
    rewrite Hrun in E. injection E as <- <-. exact HI.
Qed.

(** * Errors are atomic and no operation faults *)

(** C6. On every reachable state every operation, with whatever random
    input, returns a result, without raising; and when the result holds
    the key ["error"] the engine is the one before the call: players,
    tiles, decks, phase, index, turn counter, dice and log. *)
Theorem error_leaves_engine_unchanged (s : Engine) (op : Op) :
  reachable s -> valid_op op ->
  exists r s', run_op op s = Ret (r, s') /\ (has_error r = true -> s' = s).
Proof.
  intros Hreach Hvalid.
  destruct (wp_elim _ _ _ (run_op_kept s op (reachable_Inv s Hreach) Hvalid))
    as (r & s' & E & _ & Hsame).
  exists r, s'. split; assumption.
Qed.

(** * A pending purchase is about an unowned ownable tile *)

(** C10. In every reachable state in phase WAITING_FOR_BUY_DECISION the
    current tile, on which [buy_current_property] and [decline_purchase]
    act, is the tile under the current player, is of type PROPERTY,
    RAILROAD or UTILITY and has no owner; every operation that returns
    leads to a state where this holds again. *)
Theorem buy_decision_on_unowned_tile (s : Engine) :
  reachable s ->
  (phase s = WAITING_FOR_BUY_DECISION ->
   exists pn p t,
     player_order s !! current_player_idx s = Some pn /\
     players s !! pn = Some p /\
     current_tile s = Ret (Player.position p, s) /\
     tiles s !! Player.position p = Some t /\
     ownable (Property.tile_type t) /\
     Property.owner t = None) /\
  (forall op r s', valid_op op -> run_op op s = Ret (r, s') -> buy_pending s').
Proof.
  intros Hreach. split.
  - intros Hph. destruct (reachable_Inv s Hreach) as [_ Hbuy].
    destruct (Hbuy Hph) as (pn & p & t & Hpn & Hp & Ht & Hown & Hnone).
    exists pn, p, t. repeat split; try assumption.
    assert (Hwp : wp current_tile s (fun key s' => key = Player.position p /\ s' = s)).
    { wp_run. split; reflexivity. }
    apply wp_elim in Hwp as (key & s' & E & -> & ->). exact E.
  - intros op r s' Hvalid Hrun.
    apply (reachable_Inv s'). eapply reachable_step; eassumption.
Qed.

(** * Running operations from reachable states *)

Lemma reachable_exec s op :
  reachable s -> valid_op op -> reachable (exec (run_op op) s).
Proof.
  intros Hreach Hvalid.
  destruct (wp_elim _ _ _ (run_op_kept s op (reachable_Inv s Hreach) Hvalid))
    as (r & s' & E & _).
  unfold exec. rewrite E. eapply reachable_step; eassumption.
Qed.

Lemma reachable_play ops : forall s,
  reachable s -> Forall valid_op ops -> reachable (play ops s).
Proof.
  induction ops as [|op ops IH]; intros s Hreach Hall; [exact Hreach|].
  apply Forall_cons in Hall as [Hop Hall].
  apply IH; [apply reachable_exec; assumption | exact Hall].
Qed.

Lemma keep_order_fair : fair keep_order.
Proof. intros depth l. reflexivity. Qed.

Lemma roll_valid d1 d2 : die d1 -> die d2 -> valid_op (roll d1 d2).
Proof. intros H1 H2. cbn. repeat split; try apply H1; try apply H2; try lia. apply keep_order_fair. Qed.

Lemma new_game_reachable chance community :
  Permutation chance CHANCE_CARDS -> Permutation community COMMUNITY_CARDS ->
  reachable (new_game chance community).
Proof.
  intros Hch Hco.
  eapply (reachable_init ["A"; "B"] chance community); [discriminate | exact Hch | exact Hco |].
  reflexivity.
Qed.

(** * The move of [roll_and_move] *)

(** Equations for running a method from a given engine. *)
Lemma run_bind {A B} (m : M A) (k : A -> M B) s a s1 R :
  m s = Ret (a, s1) -> k a s1 = R -> bind m k s = R.
Proof. unfold bind. intros ->. auto. Qed.

Lemma run_player pn s p : players s !! pn = Some p -> player pn s = Ret (p, s).
Proof. intros H. unfold player, bind, get. rewrite H. reflexivity. Qed.

Lemma run_tile key s t : tiles s !! key = Some t -> tile key s = Ret (t, s).
Proof. intros H. unfold tile, bind, get. rewrite H. reflexivity. Qed.

Lemma run_current_player s pn p :
  player_order s !! current_player_idx s = Some pn ->
  players s !! pn = Some p ->
  current_player s = Ret (pn, s).
Proof.
  intros H Hp. unfold current_player, player, bind, get. rewrite H, Hp. reflexivity.
Qed.

Lemma run_current_tile s pn p t :
  player_order s !! current_player_idx s = Some pn ->
  players s !! pn = Some p ->
  tiles s !! Player.position p = Some t ->
  current_tile s = Ret (Player.position p, s).
Proof.
  intros H Hp Ht. unfold current_tile.
  eapply run_bind; [eapply run_current_player; eassumption|].
  eapply run_bind; [apply run_player, Hp|].
  eapply run_bind; [apply run_tile, Ht|]. reflexivity.
Qed.

(** The head of a sequence returns: a goal [m s = Ret (?a, ?s')]. *)
Ltac run_head :=
  lazymatch goal with
  | |- bind _ _ _ = _ => eapply run_bind; [run_head | cbv beta; run_head]
  | |- ret _ _ = _ => reflexivity
  | |- get _ = _ => reflexivity
  | |- modify _ _ = _ => reflexivity
  | |- update_player _ _ _ = _ => reflexivity
  | |- update_tile _ _ _ = _ => reflexivity
  | |- set_phase _ _ = _ => reflexivity
  | |- _log _ _ = _ => reflexivity
  | |- player _ _ = _ => apply run_player; solve_lookup
  | |- tile _ _ = _ => apply run_tile; solve_lookup
  | |- current_player _ = _ => eapply run_current_player; solve_lookup
  | |- current_tile _ = _ => eapply run_current_tile; solve_lookup
  end.

Ltac run_step := eapply run_bind; [run_head | cbv beta].

Lemma alter_thrice_insert `{Countable K} {V} (f g h : V -> V) (k : K) (m : gmap K V) x :
  m !! k = Some x -> alter h k (alter g k (alter f k m)) = <[k := h (g (f x))]> m.
Proof.
  intros Hx. apply map_eq. intros j. destruct (decide (k = j)) as [<-|Hne].
  - rewrite !lookup_alter_eq, lookup_insert_eq, Hx. reflexivity.
  - rewrite !lookup_alter_ne, lookup_insert_ne by assumption. reflexivity.
Qed.

Lemma ex_eq_trans {A B} (x y : A) (R : B -> A) :
  x = y -> (exists b, y = R b) -> exists b, x = R b.
Proof. intros ->. auto. Qed.

(** [roll_and_move] up to the landing. *)
Lemma roll_and_move_to_landing s fuel d1 d2 shuffle pn p t :
  phase s = WAITING_FOR_ROLL ->
  player_order s !! current_player_idx s = Some pn ->
  players s !! pn = Some p ->
  ((d1 =? d2) = true -> Player.doubles_count p + 1 < 3) ->
  tiles s !! Player.position (moved d1 d2 p) = Some t ->
  exists ms,
    roll_and_move fuel d1 d2 shuffle s =
    (result <- _handle_landing shuffle fuel 0 pn t (d1 + d2) ;;
     finish_roll d1 d2 pn t result) (after_move s pn d1 d2 p ms).
Proof.
  intros Hph Hpn Hp Hthird Ht.
  assert (Hgo : forall s1 p1 who,
    player_order s1 = player_order s -> current_player_idx s1 = current_player_idx s ->
    tiles s1 = tiles s -> players s1 = <[pn := p1]> (players s) ->
    last_dice s1 = (d1, d2) -> phase s1 = phase s -> turn_number s1 = turn_number s ->
    chance_deck s1 = chance_deck s -> community_deck s1 = community_deck s ->
    p1 = moved d1 d2 p ->
    exists ms,
      (key <- current_tile ;;
       t <- tile key ;;
       _log (who +:+ " landed on " +:+ Property.name t) ;;
       result <- _handle_landing shuffle fuel 0 pn t (d1 + d2) ;;
       finish_roll d1 d2 pn t result) s1 =
      (result <- _handle_landing shuffle fuel 0 pn t (d1 + d2) ;;
       finish_roll d1 d2 pn t result) (after_move s pn d1 d2 p ms)).
  { intros s1 p1 who Ho Hi Htl Hpl Hd Hph1 Htn Hc1 Hc2 ->.
    assert (Hp1 : players s1 !! pn = Some (moved d1 d2 p))
      by (rewrite Hpl; apply lookup_insert_eq).
    assert (Hpn1 : player_order s1 !! current_player_idx s1 = Some pn)
      by (rewrite Ho, Hi; exact Hpn).
    assert (Ht1 : tiles s1 !! Player.position (moved d1 d2 p) = Some t)
      by (rewrite Htl; exact Ht).
    eapply ex_eq_trans; [run_step; run_step; run_step; reflexivity|].
    match goal with |- exists ms, _ ?sx = _ => exists (messages sx) end.
    f_equal. unfold after_move. destruct s1, s. cbn in *. subst. reflexivity. }
  assert (Hmoved : forall q dc,
    (dc = if d1 =? d2 then Player.doubles_count p + 1 else 0) ->
    (q = Player.money p
         + go_credit (Player.position p) ((Player.position p + (d1 + d2)) mod 40)) ->
    Player.mk (Player.name p) q ((Player.position p + (d1 + d2)) mod 40)
      (Player.properties p) (Player.in_jail p) (Player.jail_turns p)
      (Player.jail_cards p) dc (Player.bankrupt p) = moved d1 d2 p).
  { intros q dc -> ->. reflexivity. }
  unfold roll_and_move.
  eapply ex_eq_trans.
  { run_step. rewrite Hph.
    destruct (decide (WAITING_FOR_ROLL = IN_JAIL)) as [e|_]; [discriminate e|].
    destruct (decide (WAITING_FOR_ROLL <> WAITING_FOR_ROLL)) as [e|_]; [contradiction|].
    run_step. run_step. run_step. run_step. reflexivity. }
  destruct (d1 =? d2) eqn:Hdbl.
  - eapply ex_eq_trans.
    { run_step. cbn [Player.doubles_count Player.with_doubles_count].
      replace (3 <=? Player.doubles_count p + 1) with false by (specialize (Hthird eq_refl); lia).
      run_step. run_step. run_step.
      cbn [Player.position Player.with_position Player.with_doubles_count].
      reflexivity. }
    destruct (((Player.position p + (d1 + d2)) mod 40 <? Player.position p)
              && negb ((Player.position p + (d1 + d2)) mod 40 =? 10)) eqn:Hc.
    + eapply ex_eq_trans; [run_step; reflexivity|].
      eapply Hgo; eng_simpl;
        [ reflexivity | reflexivity | reflexivity
        | erewrite alter_thrice_insert by exact Hp; reflexivity
        | reflexivity | reflexivity | reflexivity | reflexivity | reflexivity | ].
      cbn. apply Hmoved; [reflexivity|]. unfold go_credit. rewrite Hc. reflexivity.
    + eapply ex_eq_trans; [run_step; reflexivity|].
      eapply Hgo; eng_simpl;
        [ reflexivity | reflexivity | reflexivity
        | erewrite alter_twice_insert by exact Hp; reflexivity
        | reflexivity | reflexivity | reflexivity | reflexivity | reflexivity | ].
      cbn. apply Hmoved; [reflexivity|]. unfold go_credit. rewrite Hc. cbn. lia.
  - eapply ex_eq_trans.
    { run_step. run_step. run_step. run_step.
      cbn [Player.position Player.with_position Player.with_doubles_count].
      reflexivity. }
    destruct (((Player.position p + (d1 + d2)) mod 40 <? Player.position p)
              && negb ((Player.position p + (d1 + d2)) mod 40 =? 10)) eqn:Hc.
    + eapply ex_eq_trans; [run_step; reflexivity|].
      eapply Hgo; eng_simpl;
        [ reflexivity | reflexivity | reflexivity
        | erewrite alter_thrice_insert by exact Hp; reflexivity
        | reflexivity | reflexivity | reflexivity | reflexivity | reflexivity | ].
      cbn. apply Hmoved; [reflexivity|]. unfold go_credit. rewrite Hc. reflexivity.
    + eapply ex_eq_trans; [run_step; reflexivity|].
      eapply Hgo; eng_simpl;
        [ reflexivity | reflexivity | reflexivity
        | erewrite alter_twice_insert by exact Hp; reflexivity
        | reflexivity | reflexivity | reflexivity | reflexivity | reflexivity | ].
      cbn. apply Hmoved; [reflexivity|]. unfold go_credit. rewrite Hc. cbn. lia.
Qed.

Lemma wrap_to_go (old total : Z) :
  in_board old -> 2 <= total <= 12 -> (old + total) mod 40 = 0 -> 0 < old.
Proof.
  unfold in_board. intros Hold Ht Hmod.
  destruct (Z.eq_dec old 0) as [->|]; [|lia].
  rewrite Z.mod_small in Hmod by lia. lia.
Qed.

(** C2, amended. A roll in phase WAITING_FOR_ROLL that is not a third
    double puts the player on (old position + d1 + d2) mod 40 and credits
    200 when that position is below the old one, unless it is position 10,
    where nothing is credited; the landing is resolved from the engine
    with that move made.  A player who lands on position 0 has collected
    the 200 once when the roll returns. *)
Theorem roll_moves_and_credits (s : Engine) (fuel : nat) (d1 d2 : Z)
    (shuffle : Shuffle) (pn : string) (p : Player.t) :
  reachable s -> die d1 -> die d2 -> (1 <= fuel)%nat ->
  phase s = WAITING_FOR_ROLL ->
  player_order s !! current_player_idx s = Some pn ->
  players s !! pn = Some p ->
  ((d1 =? d2) = true -> Player.doubles_count p + 1 < 3) ->
  let old_pos := Player.position p in
  let new_pos := (old_pos + (d1 + d2)) mod 40 in
  Player.position (moved d1 d2 p) = new_pos /\
  Player.money (moved d1 d2 p) =
    Player.money p + (if (new_pos <? old_pos) && negb (new_pos =? 10) then 200 else 0) /\
  exists t ms,
    tiles s !! new_pos = Some t /\
    roll_and_move fuel d1 d2 shuffle s =
      (result <- _handle_landing shuffle fuel 0 pn t (d1 + d2) ;;
       finish_roll d1 d2 pn t result) (after_move s pn d1 d2 p ms) /\
    (new_pos = 0 ->
     exists r s',
       roll_and_move fuel d1 d2 shuffle s = Ret (r, s') /\
       players s' !! pn = Some (moved d1 d2 p) /\
       Player.money (moved d1 d2 p) = Player.money p + 200).
Proof.
  intros Hreach Hd1 Hd2 Hfuel Hph Hpn Hp Hthird old_pos new_pos.
  split; [reflexivity|]. split; [reflexivity|].
  destruct (reachable_Inv s Hreach) as [HB _].
  pose proof (base_players _ _ _ _ _ _ HB pn p Hp) as (_ & Hpos & _).
  assert (Hnew : in_board new_pos) by (apply Z.mod_pos_bound; lia).
  destruct (base_tiles _ _ _ _ _ _ HB _ Hnew) as (t & Ht & _).
  destruct (roll_and_move_to_landing s fuel d1 d2 shuffle pn p t Hph Hpn Hp Hthird Ht)
    as [ms Heq].
  exists t, ms. split; [exact Ht|]. split; [exact Heq|].
  intros Hzero.
  assert (Hgo : Property.tile_type t = GO).
  { destruct (Base_tile_at s 0 (plain "GO" GO) HB eq_refl) as (t0 & Ht0 & Hty);
      [unfold in_board; lia|].
    rewrite Hzero in Ht. rewrite Ht in Ht0. injection Ht0 as <-. exact Hty. }
  assert (Hq : players (after_move s pn d1 d2 p ms) !! pn = Some (moved d1 d2 p))
    by apply lookup_insert_eq.
  assert (Hwp : wp (result <- _handle_landing shuffle fuel 0 pn t (d1 + d2) ;;
                    finish_roll d1 d2 pn t result) (after_move s pn d1 d2 p ms)
                  (fun _ s' => players s' !! pn = Some (moved d1 d2 p))).
  { destruct fuel as [|fuel]; [lia|]. cbn [_handle_landing]. rewrite Hgo.
    unfold finish_roll. wp_run.
    match goal with |- wp (if ?c then _ else _) _ _ => destruct c end; wp_run; exact Hq. }
  apply wp_elim in Hwp as (r & s' & E & Hs').
  exists r, s'. split; [rewrite Heq; exact E|]. split; [exact Hs'|].
  unfold moved, go_credit. cbn [Player.money]. fold old_pos. fold new_pos.
  rewrite Hzero. cbn [Z.eqb negb].
  assert (0 < old_pos).
  { apply (wrap_to_go old_pos (d1 + d2)); [exact Hpos | unfold die in *; lia | exact Hzero]. }
  replace (0 <? old_pos) with true by lia. reflexivity.
Qed.

(** * Rent goes to the owner, bankrupt or not *)



(** ** The rent tables of the board *)

Lemma street_rents_checked : forallb street_rents_okb TILE_ITEMS = true.
Proof. vm_compute. reflexivity. Qed.

Lemma increasing_from_lookup (l : list Z) : forall lo i x,
  increasing_from lo l = true -> l !! i = Some x ->
  lo < x /\ forall y, l !! S i = Some y -> x < y.
Proof.
  induction l as [|a l IH]; intros lo i x H Hx; [discriminate Hx|].
  cbn [increasing_from] in H. apply andb_true_iff in H as [Hlo Hrest].
  apply Z.ltb_lt in Hlo. destruct i as [|i].
  - injection Hx as <-. split; [exact Hlo|]. intros y Hy. cbn in Hy.
    destruct l as [|b l]; [discriminate Hy|]. injection Hy as <-.
    cbn [increasing_from] in Hrest. apply andb_true_iff in Hrest as [Hab _]. lia.
  - cbn in Hx. destruct (IH a i x Hrest Hx) as [Hax Hnext].
    split; [lia | exact Hnext].
Qed.

Lemma py_index_lookup {A} (l : list A) (i : nat) (x : A) :
  l !! i = Some x -> py_index l (Z.of_nat i) = Ret x.
Proof.
  intros Hx. unfold py_index.
  assert (E : (0 <=? Z.of_nat i) = true) by (apply Z.leb_le; lia).
  cbv zeta. rewrite !E, Nat2Z.id, Hx. reflexivity.
Qed.


(** ** A roll onto the tile of another player *)

(** [_calculate_rent] passes to [get_rent] the dice total and the number
    of railroads or of utilities among the holdings of the owner. *)
Lemma get_rent_arguments t dice rr ut rent :
  Property.get_rent t dice rr ut = Ret rent ->
  match Property.tile_type t with
  | RAILROAD => Property.get_rent t 0 rr 1
  | UTILITY => Property.get_rent t dice 1 ut
  | _ => Property.get_rent t 0 1 1
  end = Ret rent.
Proof.
  unfold Property.get_rent.
  destruct (Property.is_mortgaged t), (Property.tile_type t); auto.
Qed.

Lemma calculate_rent_value s t o q dice rr ut rent :
  Property.owner t = Some o -> players s !! o = Some q ->
  count_type (tiles s) RAILROAD (Player.properties q) = Ret rr ->
  count_type (tiles s) UTILITY (Player.properties q) = Ret ut ->
  Property.get_rent t dice rr ut = Ret rent ->
  wp (_calculate_rent t dice) s (fun x s' => x = rent /\ s' = s).
Proof.
  intros Ho Hq Hrr Hut Hrent. apply get_rent_arguments in Hrent.
  unfold _calculate_rent. wp_steps. rewrite Ho. wp_steps.
  destruct (Property.tile_type t).
  all: try (eapply wp_lift; [exact Hrent | split; reflexivity]).
  - wp_steps. eapply wp_lift; [exact Hrr|]. wp_steps.
    eapply wp_lift; [exact Hrent | split; reflexivity].
  - wp_steps. eapply wp_lift; [exact Hut|]. wp_steps.
    eapply wp_lift; [exact Hrent | split; reflexivity].
Qed.

(** A roll in phase WAITING_FOR_ROLL, no third double, that ends on a
    street, railroad or utility of another player: [roll_and_move] returns,
    and the engine is [rent_paid] for the rent that [get_rent] gives. *)
Lemma roll_onto_owned_tile s fuel d1 d2 shuffle pn o p q t :
  Base s -> (1 <= fuel)%nat ->
  phase s = WAITING_FOR_ROLL ->
  player_order s !! current_player_idx s = Some pn ->
  players s !! pn = Some p ->
  ((d1 =? d2) = true -> Player.doubles_count p + 1 < 3) ->
  tiles s !! Player.position (moved d1 d2 p) = Some t ->
  ownable (Property.tile_type t) ->
  Property.owner t = Some o ->
  o <> pn ->
  players s !! o = Some q ->
  tile_ok (players s) (Player.position (moved d1 d2 p)) t /\
  exists rent railroads utilities r ms,
    count_type (tiles s) RAILROAD (Player.properties q) = Ret railroads /\
    count_type (tiles s) UTILITY (Player.properties q) = Ret utilities /\
    Property.get_rent t (d1 + d2) railroads utilities = Ret rent /\
    roll_and_move fuel d1 d2 shuffle s = Ret (r, rent_paid s pn o d1 d2 p q rent ms) /\
    dict_get "result" r = Some (VStr ("Paid $" +:+ str rent +:+ " rent to " +:+ o)) /\
    dict_get "money" r = Some (VInt (Player.money (moved d1 d2 p) - rent)).
Proof.
  intros HB Hfuel Hph Hpn Hp Hthird Ht Hown Ho Hne Hq.
  pose proof (base_players _ _ _ _ _ _ HB pn p Hp) as (Hname & Hpos & _).
  pose proof (base_players _ _ _ _ _ _ HB o q Hq) as (_ & _ & Hprops).
  assert (Hnew : in_board (Player.position (moved d1 d2 p)))
    by (cbn; apply Z.mod_pos_bound; lia).
  destruct (base_tiles _ _ _ _ _ _ HB _ Hnew) as (t' & Ht' & Hok).
  rewrite Ht in Ht'. injection Ht' as <-.
  split; [exact Hok|].
  destruct (count_type_ok (tiles s) RAILROAD _ (Base_tiles_total s HB) Hprops) as [rr Hrr].
  destruct (count_type_ok (tiles s) UTILITY _ (Base_tiles_total s HB) Hprops) as [ut Hut].
  destruct (get_rent_ok _ _ t (d1 + d2) rr ut Hok) as [rent Hrent].
  destruct (roll_and_move_to_landing s fuel d1 d2 shuffle pn p t Hph Hpn Hp Hthird Ht)
    as [ms Heq].
  assert (Hcheck : negb (String.eqb o (Player.name (moved d1 d2 p))) = true).
  { cbn [moved Player.name]. rewrite Hname. apply negb_true_iff, String.eqb_neq, Hne. }
  assert (Hwp : forall s1,
    players s1 = <[pn := moved d1 d2 p]> (players s) -> tiles s1 = tiles s ->
    wp (result <- _handle_landing shuffle fuel 0 pn t (d1 + d2) ;;
        finish_roll d1 d2 pn t result) s1
       (fun r s' =>
          (exists ms',
             s' = with_phase (if d1 =? d2 then WAITING_FOR_ROLL else TURN_COMPLETE)
                    (with_messages ms'
                       (with_players
                          (<[o := Player.with_money (Player.money q + rent) q]>
                             (<[pn := Player.with_money
                                        (Player.money (moved d1 d2 p) - rent)
                                        (moved d1 d2 p)]> (players s))) s1))) /\
          dict_get "result" r
            = Some (VStr ("Paid $" +:+ str rent +:+ " rent to " +:+ o)) /\
          dict_get "money" r = Some (VInt (Player.money (moved d1 d2 p) - rent)))).
  { intros s1 Hpl Htl.
    match goal with |- wp _ _ ?post => set (Q := post) end.
    assert (Hp1 : players s1 !! pn = Some (moved d1 d2 p))
      by (rewrite Hpl; apply lookup_insert_eq).
    assert (Hq1 : players s1 !! o = Some q)
      by (rewrite Hpl, lookup_insert_ne by congruence; exact Hq).
    assert (Hrent1 : wp (_calculate_rent t (d1 + d2)) s1 (fun x s' => x = rent /\ s' = s1)).
    { apply (calculate_rent_value s1 t o q (d1 + d2) rr ut rent); try assumption;
        rewrite Htl; assumption. }
    assert (Hins : forall f g,
      alter g o (alter f pn (players s1))
      = <[o := g q]> (<[pn := f (moved d1 d2 p)]> (players s))).
    { intros f g. rewrite (alter_insert f pn (players s1) _ Hp1).
      rewrite (alter_insert g o _ q) by (rewrite lookup_insert_ne by congruence; exact Hq1).
      rewrite Hpl, insert_insert_eq. reflexivity. }
    destruct fuel as [|fuel]; [lia|]. cbn [_handle_landing].
    assert (Hpaid : forall x s2, x = rent /\ s2 = s1 ->
      wp (update_player pn (fun p => Player.with_money (Player.money p - x) p) ;;
          update_player o (fun q => Player.with_money (Player.money q + x) q) ;;
          _log (Player.name (moved d1 d2 p) +:+ " paid $" +:+ str x
                +:+ " rent to " +:+ o) ;;
          set_phase TURN_COMPLETE ;;
          ret [("result", VStr ("Paid $" +:+ str x +:+ " rent to " +:+ o))]) s2
         (fun result s3 => wp (finish_roll d1 d2 pn t result) s3 Q)).
    { intros x s2 [-> ->]. unfold finish_roll. wp_steps. eng_simpl.
      destruct (d1 =? d2); cbn [andb];
        rewrite ?bool_decide_eq_true_2 by reflexivity;
        wp_steps; subst Q; cbn beta; eng_simpl; rewrite Hins;
        (split; [eexists; reflexivity|]); split; reflexivity. }
    destruct Hown as [Hty|[Hty|Hty]]; rewrite Hty; wp_steps; rewrite Ho, Hcheck;
      (apply wp_bind; eapply wp_mono; [exact Hrent1 | exact Hpaid]). }
  destruct (wp_elim _ _ _
    (Hwp (after_move s pn d1 d2 p ms) eq_refl eq_refl))
    as (r & s' & E & (ms' & ->) & Hres & Hmoney).
  exists rent, rr, ut, r, ms'.
  split; [exact Hrr|]. split; [exact Hut|]. split; [exact Hrent|].
  split; [rewrite Heq; exact E|]. split; assumption.
Qed.


(** * The example games *)

Ltac valid_ops :=
  repeat first
    [ apply List.Forall_nil
    | apply List.Forall_cons;
      [first [exact I | apply roll_valid; unfold die; lia | cbn; unfold die; lia]|] ].

Lemma first_game_reachable : reachable first_game.
Proof.
  apply new_game_reachable; [|reflexivity].
  apply (bool_decide_unpack _). vm_compute. exact I.
Qed.

Lemma second_game_reachable : reachable second_game.
Proof.
  apply new_game_reachable; [|reflexivity].
  apply (bool_decide_unpack _). vm_compute. exact I.
Qed.

Lemma at_chance_22_reachable : reachable at_chance_22.
Proof.
  apply reachable_play; [apply first_game_reachable|].
  unfold to_chance_22. valid_ops.
Qed.

Lemma at_boardwalk_reachable : reachable at_boardwalk.
Proof.
  apply reachable_play; [apply first_game_reachable|].
  unfold to_boardwalk, to_chance_22. cbn [app]. valid_ops.
Qed.

Lemma chance_exhausted_reachable : reachable chance_exhausted.
Proof.
  apply reachable_play; [apply first_game_reachable|].
  unfold to_empty_deck, to_boardwalk, to_chance_22. cbn [app]. valid_ops.
Qed.

Lemma owns_baltic_reachable : reachable owns_baltic.
Proof.
  apply reachable_play; [apply second_game_reachable|].
  unfold to_baltic. valid_ops.
Qed.

Lemma in_debt_reachable : reachable in_debt.
Proof.
  apply reachable_play; [apply second_game_reachable|].
  unfold to_tax, to_baltic. cbn [app]. valid_ops.
Qed.

Lemma game_over_reachable : reachable game_over.
Proof.
  apply reachable_play; [apply second_game_reachable|].
  unfold to_game_over, to_tax, to_baltic. cbn [app]. valid_ops.
Qed.

Lemma game_over_with_cash_reachable : reachable game_over_with_cash.
Proof. apply reachable_play; [apply game_over_reachable | valid_ops]. Qed.




Lemma baltic_is_mortgaged_reachable : reachable baltic_is_mortgaged.
Proof. apply reachable_play; [apply first_game_reachable | valid_ops]. Qed.

Lemma on_baltic_reachable : reachable on_baltic.
Proof. apply reachable_play; [apply first_game_reachable | valid_ops]. Qed.

Lemma jail_first_game_reachable : reachable (new_game CHANCE_CARDS community_jail_first).
Proof.
  apply new_game_reachable; [reflexivity|].
  apply (bool_decide_unpack _). vm_compute. exact I.
Qed.

(** The result and the engine of a run on a closed engine, by computation. *)
Ltac run_closed :=
  lazymatch goal with
  | |- exists r s', ?m ?s = Ret (r, s') /\ _ =>
      exists (match m s with Ret (r, _) => r | Raise _ => [] end), (exec m s);
      split; [vm_compute; reflexivity|]
  end.

(** * Doubles and jail *)

(** C1. A double that is not the third and whose landing sends the player
    to jail leaves the phase WAITING_FOR_ROLL and grants [roll_again],
    with the player in jail.  On the Go To Jail tile: in the first game A
    stands on 22 and rolls 4 and 4.  By a card: in a new game whose
    Community Chest deck has "Go to Jail" on top, A rolls 1 and 1. *)
Theorem double_into_jail_rolls_again :
  (reachable at_chance_22 /\ phase at_chance_22 = WAITING_FOR_ROLL /\
   exists r s',
     roll_and_move 3 4 4 keep_order at_chance_22 = Ret (r, s') /\
     dict_get "result" r = Some (VStr "Go to Jail!") /\
     dict_get "tile" r = Some (VStr "Go To Jail") /\
     fmap Player.in_jail (players s' !! "A") = Some true /\
     fmap Player.doubles_count (players s' !! "A") = Some 0 /\
     phase s' = WAITING_FOR_ROLL /\
     dict_get "roll_again" r = Some (VBool true)) /\
  (reachable (new_game CHANCE_CARDS community_jail_first) /\
   exists r s',
     roll_and_move 3 1 1 keep_order (new_game CHANCE_CARDS community_jail_first)
       = Ret (r, s') /\
     dict_get "result" r = Some (VStr "Go to Jail!") /\
     dict_get "tile" r = Some (VStr "Community Chest") /\
     fmap Player.in_jail (players s' !! "A") = Some true /\
     phase s' = WAITING_FOR_ROLL /\
     dict_get "roll_again" r = Some (VBool true)).
Proof.
  split.
  - split; [apply at_chance_22_reachable|]. split; [vm_compute; reflexivity|].
    run_closed. vm_compute. repeat split.
  - split; [apply jail_first_game_reachable|].
    run_closed. vm_compute. repeat split.
Qed.

(** * The move of a roll onto position 10 *)

(** C2, counterexample. In the first game B stands on Boardwalk (39) and
    rolls 5 and 6: the new position 10 is below the old one and B's cash
    is the same as before. *)
Lemma wrap_onto_position_10_is_not_credited :
  reachable at_boardwalk /\ phase at_boardwalk = WAITING_FOR_ROLL /\
  player_order at_boardwalk !! current_player_idx at_boardwalk = Some "B" /\
  players at_boardwalk !! "B" = Some B_on_boardwalk /\
  exists r s',
    roll_and_move 3 5 6 keep_order at_boardwalk = Ret (r, s') /\
    fmap Player.position (players s' !! "B") = Some ((39 + 5 + 6) mod 40) /\
    (39 + 5 + 6) mod 40 < Player.position B_on_boardwalk /\
    fmap Player.money (players s' !! "B") = Some (Player.money B_on_boardwalk) /\
    dict_get "money" r = Some (VInt (Player.money B_on_boardwalk)).
Proof.
  split; [apply at_boardwalk_reachable|].
  split; [vm_compute; reflexivity|]. split; [vm_compute; reflexivity|].
  split; [vm_compute; reflexivity|].
  run_closed. vm_compute. repeat split.
Qed.

(** * An exhausted deck *)

(** C3. In the first game, once the ten Chance cards have been drawn the
    Chance deck of the engine is empty, and it stays empty: B rolls 1 and
    1 from Reading Railroad onto the Chance tile 7 and draws "Advance to
    GO", the top of a reshuffled copy, and the deck of the engine holds no
    card afterwards, not the nine others; B's next roll, 3 and 4 from GO,
    draws a card from another full copy: "Advance to GO" again. *)
Theorem exhausted_deck_is_not_refilled :
  reachable chance_exhausted /\
  phase chance_exhausted = WAITING_FOR_ROLL /\
  chance_deck chance_exhausted = [] /\
  exists r1 s1,
    roll_and_move 3 1 1 keep_order chance_exhausted = Ret (r1, s1) /\
    dict_get "tile" r1 = Some (VStr "Chance") /\
    last (messages s1) = Some "B drew: Advance to GO" /\
    chance_deck s1 = [] /\
    phase s1 = WAITING_FOR_ROLL /\
    exists r2 s2,
      roll_and_move 3 3 4 keep_order s1 = Ret (r2, s2) /\
      dict_get "tile" r2 = Some (VStr "Chance") /\
      last (messages s2) = Some "B drew: Advance to GO" /\
      chance_deck s2 = [].
Proof.
  split; [apply chance_exhausted_reachable|].
  split; [vm_compute; reflexivity|]. split; [vm_compute; reflexivity|].
  run_closed.
  split; [vm_compute; reflexivity|]. split; [vm_compute; reflexivity|].
  split; [vm_compute; reflexivity|]. split; [vm_compute; reflexivity|].
  run_closed. vm_compute. repeat split.
Qed.

(** * Building, in whatever phase *)

(** C4, counterexample. The second game is over, and the bankrupt B, who
    has mortgaged two tiles for cash, builds a house on Mediterranean
    Avenue. *)
Lemma build_house_accepted_after_game_over :
  reachable game_over_with_cash /\
  phase game_over_with_cash = GAME_OVER /\
  exists r s',
    build_house 1 game_over_with_cash = Ret (r, s') /\
    has_error r = false /\
    dict_get "success" r = Some (VBool true) /\
    dict_get "houses" r = Some (VInt 1) /\
    fmap Property.houses (tiles s' !! 1) = Some 1 /\
    fmap Player.money (players s' !! "B") = Some (99 - 50) /\
    phase s' = GAME_OVER.
Proof.
  split; [apply game_over_with_cash_reachable|].
  split; [vm_compute; reflexivity|].
  run_closed. vm_compute. repeat split.
Qed.

(** C4, amended. On a reachable state, in whatever phase,
    [build_house(position)] returns; it succeeds exactly when the current
    player owns the tile, the tile is a street that is not mortgaged and
    has fewer than five houses, the player owns every position of its
    color group, no tile of the group has fewer houses and the cash covers
    the house cost; it then debits the house cost and adds one house, and
    otherwise leaves the engine as it was. *)
Theorem build_house_accepted_iff (s : Engine) (pn : string) (p : Player.t)
    (position : Z) :
  reachable s ->
  player_order s !! current_player_idx s = Some pn ->
  players s !! pn = Some p ->
  exists r s',
    build_house position s = Ret (r, s') /\
    (has_error r = false <-> can_build s p position) /\
    (has_error r = false -> built s pn position s') /\
    (has_error r = true -> s' = s).
Proof.
  intros Hreach Hpn Hp.
  destruct (reachable_Inv s Hreach) as [HB _].
  apply wp_elim, build_house_spec; assumption.
Qed.

(** * The theorems at work on the example games *)

(** B mortgages and unmortgages Baltic Avenue right after buying it. *)
Lemma mortgage_unmortgage_round_trip_witness :
  exists r1 s1 r2 s2,
    mortgage_property 3 owns_baltic = Ret (r1, s1) /\
    has_error r1 = false /\
    tiles s1 !! 3 = Some (Property.with_is_mortgaged true baltic_of_B) /\
    unmortgage_property 3 s1 = Ret (r2, s2) /\
    has_error r2 = false /\
    dict_get "cost" r2 = Some (VInt (30 + 3)) /\
    after_round_trip owns_baltic "B" B_with_baltic baltic_of_B s2.
Proof.
  apply (mortgage_unmortgage_round_trip owns_baltic "B" B_with_baltic 3 baltic_of_B).
  - vm_compute; reflexivity.
  - vm_compute; reflexivity.
  - apply (bool_decide_unpack _). vm_compute. exact I.
  - vm_compute; reflexivity.
  - reflexivity.
  - reflexivity.
  - vm_compute. discriminate.
Defined.

(** B ends the turn with a cash of -81. *)
Lemma end_turn_bankruptcy_and_rotation_witness :
  Player.bankrupt (turn_ended B_in_debt) = true /\
  exists r s' ms,
    end_turn in_debt = Ret (r, s') /\
    rotated
      (with_messages ms
         (with_players (<["B" := turn_ended B_in_debt]> (players in_debt)) in_debt))
      r s'.
Proof.
  apply (end_turn_bankruptcy_and_rotation in_debt "B" B_in_debt).
  - vm_compute; reflexivity.
  - vm_compute; reflexivity.
  - vm_compute; reflexivity.
  - exact (base_order _ _ _ _ _ _ (proj1 (reachable_Inv _ in_debt_reachable))).
Defined.

(** Before any roll there is nothing to buy. *)
Lemma error_leaves_engine_unchanged_witness :
  exists r s',
    run_op BuyCurrentProperty first_game = Ret (r, s') /\
    (has_error r = true -> s' = first_game).
Proof.
  apply (error_leaves_engine_unchanged first_game BuyCurrentProperty).
  - exact first_game_reachable.
  - exact I.
Defined.

(** A stands on Baltic Avenue, which nobody owns. *)
Lemma buy_decision_on_unowned_tile_witness :
  (phase on_baltic = WAITING_FOR_BUY_DECISION ->
   exists pn p t,
     player_order on_baltic !! current_player_idx on_baltic = Some pn /\
     players on_baltic !! pn = Some p /\
     current_tile on_baltic = Ret (Player.position p, on_baltic) /\
     tiles on_baltic !! Player.position p = Some t /\
     ownable (Property.tile_type t) /\
     Property.owner t = None) /\
  (forall op r s',
     valid_op op -> run_op op on_baltic = Ret (r, s') -> buy_pending s').
Proof.
  apply (buy_decision_on_unowned_tile on_baltic).
  exact on_baltic_reachable.
Defined.


(** From Boardwalk, B rolls 4 and 4 and passes GO. *)
Lemma roll_moves_and_credits_witness :
  Player.position (moved 4 4 B_on_boardwalk) = 7 /\
  Player.money (moved 4 4 B_on_boardwalk) = 1485 + 200 /\
  exists t ms,
    tiles at_boardwalk !! 7 = Some t /\
    roll_and_move 3 4 4 keep_order at_boardwalk =
      (result <- _handle_landing keep_order 3 0 "B" t (4 + 4) ;;
       finish_roll 4 4 "B" t result) (after_move at_boardwalk "B" 4 4 B_on_boardwalk ms) /\
    (7 = 0 ->
     exists r s',
       roll_and_move 3 4 4 keep_order at_boardwalk = Ret (r, s') /\
       players s' !! "B" = Some (moved 4 4 B_on_boardwalk) /\
       Player.money (moved 4 4 B_on_boardwalk) = Player.money B_on_boardwalk + 200).
Proof.
  apply (roll_moves_and_credits at_boardwalk 3 4 4 keep_order "B" B_on_boardwalk).
  - exact at_boardwalk_reachable.
  - unfold die. lia.
  - unfold die. lia.
  - lia.
  - vm_compute; reflexivity.
  - vm_compute; reflexivity.
  - vm_compute; reflexivity.
  - intros _. vm_compute. reflexivity.
Defined.

(** After the game, B with a cash of 99 can build on Mediterranean
    Avenue. *)
Lemma build_house_accepted_iff_witness :
  exists r s',
    build_house 1 game_over_with_cash = Ret (r, s') /\
    (has_error r = false <-> can_build game_over_with_cash B_with_cash 1) /\
    (has_error r = false -> built game_over_with_cash "B" 1 s') /\
    (has_error r = true -> s' = game_over_with_cash).
Proof.
  apply (build_house_accepted_iff game_over_with_cash "B" B_with_cash 1).
  - exact game_over_with_cash_reachable.
  - vm_compute; reflexivity.
  - vm_compute; reflexivity.
Defined.

(** * What each operation does *)

Lemma engine_ext (a b : Engine) :
  players a = players b -> player_order a = player_order b ->
  current_player_idx a = current_player_idx b -> phase a = phase b ->
  tiles a = tiles b -> last_dice a = last_dice b ->
  turn_number a = turn_number b -> messages a = messages b ->
  chance_deck a = chance_deck b -> community_deck a = community_deck b ->
  a = b.
Proof. destruct a, b. cbn. intros. subst. reflexivity. Qed.

(** Field assignments to the player [pn], as one replacement of the record. *)
Ltac players_eq Hp :=
  lazymatch type of Hp with
  | ?pl !! ?pn = Some ?p =>
      rewrite (alter_insert _ pn pl p Hp); rewrite ?alter_insert_eq;
      try reflexivity
  end.

Ltac engine_eq := apply engine_ext; eng_simpl; try reflexivity.

(** ** Buying and declining *)

Lemma buy_current_property_wp (s : Engine) (pn : string) (p : Player.t)
    (t : Property.t) :
  player_order s !! current_player_idx s = Some pn ->
  players s !! pn = Some p ->
  tiles s !! Player.position p = Some t ->
  wp buy_current_property s (fun r s' =>
    (has_error r = false <->
     phase s = WAITING_FOR_BUY_DECISION /\ Property.price t <= Player.money p) /\
    (has_error r = false ->
     (exists ms, s' = bought s pn p t ms) /\
     dict_get "remaining_money" r = Some (VInt (Player.money p - Property.price t))) /\
    (has_error r = true -> s' = s)).
Proof.
  intros Hpn Hp Ht. unfold buy_current_property. wp_steps.
  destruct (decide (phase s <> WAITING_FOR_BUY_DECISION)) as [Hne|Hph].
  { wp_steps. split; [|split; [discriminate | reflexivity]].
    split; [discriminate | intros [Hph _]; contradiction]. }
  apply phase_not_not in Hph. wp_steps.
  destruct (Z.ltb_spec (Player.money p) (Property.price t)).
  { wp_steps. split; [|split; [discriminate | reflexivity]].
    split; [discriminate | intros [_ Hc]; lia]. }
  wp_steps. split; [|split; [|discriminate]].
  - split; [intros _; split; [exact Hph | lia] | reflexivity].
  - intros _. split; [|reflexivity].
    eexists. unfold bought. engine_eq.
    + rewrite (alter_twice_insert _ _ pn (players s) p Hp). reflexivity.
    + rewrite (alter_insert _ _ (tiles s) t Ht). reflexivity.
Qed.

(** [buy_current_property] is accepted exactly in phase
    WAITING_FOR_BUY_DECISION when the cash covers the price; it then debits
    the price, makes the player the owner, appends the position to the
    holdings and completes the turn.  A refusal changes nothing. *)
Theorem buy_current_property_spec (s : Engine) (pn : string) (p : Player.t)
    (t : Property.t) :
  player_order s !! current_player_idx s = Some pn ->
  players s !! pn = Some p ->
  tiles s !! Player.position p = Some t ->
  exists r s',
    buy_current_property s = Ret (r, s') /\
    (has_error r = false <->
     phase s = WAITING_FOR_BUY_DECISION /\ Property.price t <= Player.money p) /\
    (has_error r = false ->
     (exists ms, s' = bought s pn p t ms) /\
     dict_get "remaining_money" r = Some (VInt (Player.money p - Property.price t))) /\
    (has_error r = true -> s' = s).
Proof. intros. eapply wp_elim, buy_current_property_wp; eassumption. Qed.

Lemma decline_purchase_wp (s : Engine) (pn : string) (p : Player.t)
    (t : Property.t) :
  player_order s !! current_player_idx s = Some pn ->
  players s !! pn = Some p ->
  tiles s !! Player.position p = Some t ->
  wp decline_purchase s (fun r s' =>
    (has_error r = false <-> phase s = WAITING_FOR_BUY_DECISION) /\
    (has_error r = false -> exists ms, s' = with_messages ms (with_phase TURN_COMPLETE s)) /\
    (has_error r = true -> s' = s)).
Proof.
  intros Hpn Hp Ht. unfold decline_purchase. wp_steps.
  destruct (decide (phase s <> WAITING_FOR_BUY_DECISION)) as [Hne|Hph].
  { wp_steps. split; [|split; [discriminate | reflexivity]].
    split; [discriminate | intros Hph; contradiction]. }
  apply phase_not_not in Hph. wp_steps. split; [|split; [|discriminate]].
  - split; [intros _; exact Hph | reflexivity].
  - intros _. eexists. engine_eq.
Qed.

(** [decline_purchase] is accepted exactly in phase
    WAITING_FOR_BUY_DECISION and then only completes the turn: cash, tiles
    and holdings are as before and the tile stays without owner. *)
Theorem decline_purchase_spec (s : Engine) (pn : string) (p : Player.t)
    (t : Property.t) :
  player_order s !! current_player_idx s = Some pn ->
  players s !! pn = Some p ->
  tiles s !! Player.position p = Some t ->
  exists r s',
    decline_purchase s = Ret (r, s') /\
    (has_error r = false <-> phase s = WAITING_FOR_BUY_DECISION) /\
    (has_error r = false -> exists ms, s' = with_messages ms (with_phase TURN_COMPLETE s)) /\
    (has_error r = true -> s' = s).
Proof. intros. eapply wp_elim, decline_purchase_wp; eassumption. Qed.

(** ** Leaving jail *)

Lemma pay_bail_wp (s : Engine) (pn : string) (p : Player.t) :
  player_order s !! current_player_idx s = Some pn ->
  players s !! pn = Some p ->
  wp pay_bail s (fun r s' =>
    (has_error r = false <-> Player.in_jail p = true /\ 50 <= Player.money p) /\
    (has_error r = false ->
     (exists ms,
        s' = set_player pn (released (Player.with_money (Player.money p - 50) p))
               WAITING_FOR_ROLL ms s) /\
     dict_get "remaining_money" r = Some (VInt (Player.money p - 50))) /\
    (has_error r = true -> s' = s)).
Proof.
  intros Hpn Hp. unfold pay_bail. wp_steps.
  destruct (Player.in_jail p) eqn:Hjail; cbn [negb].
  2: { wp_steps. split; [|split; [discriminate | reflexivity]].
       split; [discriminate | intros [Hc _]; discriminate Hc]. }
  destruct (Z.ltb_spec (Player.money p) 50).
  { wp_steps. split; [|split; [discriminate | reflexivity]].
    split; [discriminate | intros [_ Hc]; lia]. }
  wp_steps. split; [|split; [|discriminate]].
  - split; [intros _; split; [reflexivity | lia] | reflexivity].
  - intros _. split; [|reflexivity].
    eexists. unfold set_player. engine_eq.
    rewrite (alter_thrice_insert _ _ _ pn (players s) p Hp). reflexivity.
Qed.

(** [pay_bail], in whatever phase, is accepted exactly when the current
    player is in jail with a cash of at least 50; the player then pays 50,
    is out of jail and is to roll. *)
Theorem pay_bail_spec (s : Engine) (pn : string) (p : Player.t) :
  player_order s !! current_player_idx s = Some pn ->
  players s !! pn = Some p ->
  exists r s',
    pay_bail s = Ret (r, s') /\
    (has_error r = false <-> Player.in_jail p = true /\ 50 <= Player.money p) /\
    (has_error r = false ->
     (exists ms,
        s' = set_player pn (released (Player.with_money (Player.money p - 50) p))
               WAITING_FOR_ROLL ms s) /\
     dict_get "remaining_money" r = Some (VInt (Player.money p - 50))) /\
    (has_error r = true -> s' = s).
Proof. intros. eapply wp_elim, pay_bail_wp; eassumption. Qed.

Lemma use_jail_card_wp (s : Engine) (pn : string) (p : Player.t) :
  player_order s !! current_player_idx s = Some pn ->
  players s !! pn = Some p ->
  wp use_jail_card s (fun r s' =>
    (has_error r = false <-> Player.in_jail p = true /\ 1 <= Player.jail_cards p) /\
    (has_error r = false ->
     exists ms,
       s' = set_player pn
              (released (Player.with_jail_cards (Player.jail_cards p - 1) p))
              WAITING_FOR_ROLL ms s) /\
    (has_error r = true -> s' = s)).
Proof.
  intros Hpn Hp. unfold use_jail_card. wp_steps.
  destruct (Player.in_jail p) eqn:Hjail; cbn [negb].
  2: { wp_steps. split; [|split; [discriminate | reflexivity]].
       split; [discriminate | intros [Hc _]; discriminate Hc]. }
  destruct (Z.ltb_spec (Player.jail_cards p) 1).
  { wp_steps. split; [|split; [discriminate | reflexivity]].
    split; [discriminate | intros [_ Hc]; lia]. }
  wp_steps. split; [|split; [|discriminate]].
  - split; [intros _; split; [reflexivity | lia] | reflexivity].
  - intros _. eexists. unfold set_player. engine_eq.
    rewrite (alter_thrice_insert _ _ _ pn (players s) p Hp). reflexivity.
Qed.

(** [use_jail_card], in whatever phase, is accepted exactly when the
    current player is in jail and holds a card; the player then gives one
    card, is out of jail and is to roll. *)
Theorem use_jail_card_spec (s : Engine) (pn : string) (p : Player.t) :
  player_order s !! current_player_idx s = Some pn ->
  players s !! pn = Some p ->
  exists r s',
    use_jail_card s = Ret (r, s') /\
    (has_error r = false <-> Player.in_jail p = true /\ 1 <= Player.jail_cards p) /\
    (has_error r = false ->
     exists ms,
       s' = set_player pn
              (released (Player.with_jail_cards (Player.jail_cards p - 1) p))
              WAITING_FOR_ROLL ms s) /\
    (has_error r = true -> s' = s).
Proof. intros. eapply wp_elim, use_jail_card_wp; eassumption. Qed.

Lemma roll_for_doubles_wp (s : Engine) (d1 d2 : Z) (pn : string)
    (p : Player.t) :
  player_order s !! current_player_idx s = Some pn ->
  players s !! pn = Some p ->
  wp (roll_for_doubles d1 d2) s (fun r s' =>
    (has_error r = false <-> Player.in_jail p = true) /\
    (has_error r = false ->
     (exists ms,
        s' = set_player pn (jail_roll d1 d2 p) (jail_roll_phase d1 d2 p) ms
               (with_last_dice (d1, d2) s)) /\
     dict_get "escaped" r = Some (VBool (d1 =? d2))) /\
    (has_error r = true -> s' = s)).
Proof.
  intros Hpn Hp. unfold roll_for_doubles. wp_steps.
  destruct (Player.in_jail p) eqn:Hjail; cbn [negb].
  2: { wp_steps. split; [|split; [discriminate | reflexivity]].
       split; discriminate. }
  wp_steps. unfold jail_roll, jail_roll_phase.
  destruct (d1 =? d2) eqn:Hdbl; cbn [orb].
  { wp_steps. split; [|split; [|discriminate]]; [split; reflexivity|].
    intros _. split; [|reflexivity].
    eexists. unfold set_player. engine_eq.
    rewrite (alter_twice_insert _ _ pn (players s) p Hp). reflexivity. }
  wp_steps. cbn [Player.jail_turns Player.with_jail_turns].
  destruct (3 <=? Player.jail_turns p + 1) eqn:Hthird.
  - wp_steps. split; [|split; [|discriminate]]; [split; reflexivity|].
    intros _. split; [|reflexivity].
    eexists. unfold set_player. engine_eq.
    rewrite (alter_insert _ pn (players s) p Hp). rewrite !alter_insert_eq.
    reflexivity.
  - wp_steps. split; [|split; [|discriminate]]; [split; reflexivity|].
    intros _. split; [|reflexivity].
    eexists. unfold set_player. engine_eq.
    rewrite (alter_insert _ pn (players s) p Hp). reflexivity.
Qed.

(** [roll_for_doubles], in whatever phase, is accepted exactly when the
    current player is in jail.  A double frees the player, who is to roll;
    the third miss frees the player for 50, whatever the cash, which can
    become negative; another miss adds a turn in jail and completes the
    turn.  The dice are recorded. *)
Theorem roll_for_doubles_spec (s : Engine) (d1 d2 : Z) (pn : string)
    (p : Player.t) :
  player_order s !! current_player_idx s = Some pn ->
  players s !! pn = Some p ->
  exists r s',
    roll_for_doubles d1 d2 s = Ret (r, s') /\
    (has_error r = false <-> Player.in_jail p = true) /\
    (has_error r = false ->
     (exists ms,
        s' = set_player pn (jail_roll d1 d2 p) (jail_roll_phase d1 d2 p) ms
               (with_last_dice (d1, d2) s)) /\
     dict_get "escaped" r = Some (VBool (d1 =? d2))) /\
    (has_error r = true -> s' = s).
Proof. intros. eapply wp_elim, roll_for_doubles_wp; eassumption. Qed.

(** ** The third double *)

(** A third double in a row sends the player to jail from where the
    player stands: no move, no landing, no 200, and the turn is complete
    without [roll_again]. *)
Theorem third_double_goes_to_jail (s : Engine) (fuel : nat) (d1 d2 : Z)
    (shuffle : Shuffle) (pn : string) (p : Player.t) :
  phase s = WAITING_FOR_ROLL ->
  player_order s !! current_player_idx s = Some pn ->
  players s !! pn = Some p ->
  d1 = d2 ->
  3 <= Player.doubles_count p + 1 ->
  exists r s' ms,
    roll_and_move fuel d1 d2 shuffle s = Ret (r, s') /\
    s' = set_player pn (jailed p) TURN_COMPLETE ms (with_last_dice (d1, d2) s) /\
    has_error r = false /\
    dict_get "roll_again" r = None /\
    dict_get "result" r = Some (VStr "Sent to jail for 3 doubles!").
Proof.
  intros Hph Hpn Hp -> Hthird.
  assert (Hwp : wp (roll_and_move fuel d2 d2 shuffle) s (fun r s' =>
    (exists ms, s' = set_player pn (jailed p) TURN_COMPLETE ms (with_last_dice (d2, d2) s)) /\
    has_error r = false /\ dict_get "roll_again" r = None /\
    dict_get "result" r = Some (VStr "Sent to jail for 3 doubles!"))).
  { unfold roll_and_move. wp_steps. rewrite Hph.
    destruct (decide (WAITING_FOR_ROLL = IN_JAIL)) as [e|_]; [discriminate e|].
    destruct (decide (WAITING_FOR_ROLL <> WAITING_FOR_ROLL)) as [e|_]; [contradiction|].
    wp_steps. rewrite Z.eqb_refl. wp_steps.
    cbn [Player.doubles_count Player.with_doubles_count].
    replace (3 <=? Player.doubles_count p + 1) with true by lia.
    unfold _send_to_jail. wp_steps.
    split; [|split; [reflexivity | split; reflexivity]].
    eexists. unfold set_player, jailed. engine_eq.
    rewrite (alter_insert _ pn (players s) p Hp). rewrite !alter_insert_eq.
    reflexivity. }
  apply wp_elim in Hwp as (r & s' & E & (ms & Hs') & H1 & H2 & H3).
  exists r, s', ms. repeat split; assumption.
Qed.

(** ** Mortgages *)

Lemma mortgage_property_wp (s : Engine) (position : Z) (pn : string) (p : Player.t) :
  Base s ->
  player_order s !! current_player_idx s = Some pn ->
  players s !! pn = Some p ->
  wp (mortgage_property position) s (fun r s' =>
    (has_error r = false <-> can_mortgage s p position) /\
    (has_error r = false ->
     exists t ms,
       tiles s !! position = Some t /\
       s' = tile_and_player s position (Property.with_is_mortgaged true t) pn
              (Player.with_money (Player.money p + Property.mortgage_value t) p) ms /\
       dict_get "received" r = Some (VInt (Property.mortgage_value t))) /\
    (has_error r = true -> s' = s)).
Proof.
  intros HB Hpn Hp. unfold mortgage_property, can_mortgage. wp_steps.
  destruct (decide (position ∈ Player.properties p)) as [Hin|Hin].
  2: { rewrite bool_decide_false by assumption. cbn [negb]. wp_steps.
       split; [|split; [discriminate | reflexivity]].
       split; [discriminate | intros [Hc _]; contradiction]. }
  rewrite bool_decide_true by assumption. cbn [negb].
  destruct (Base_owned_tile s pn p position HB Hp Hin) as (t & Ht & Htok).
  wp_steps. destruct (Property.is_mortgaged t) eqn:Hm.
  { wp_steps. split; [|split; [discriminate | reflexivity]].
    split; [discriminate|]. intros (_ & t' & Ht' & Hm' & _).
    rewrite Ht in Ht'. injection Ht' as <-. congruence. }
  destruct (Z.ltb_spec 0 (Property.houses t)).
  { wp_steps. split; [|split; [discriminate | reflexivity]].
    split; [discriminate|]. intros (_ & t' & Ht' & _ & Hh).
    rewrite Ht in Ht'. injection Ht' as <-. lia. }
  wp_steps. split; [|split; [|discriminate]].
  - split; [|reflexivity]. intros _. split; [exact Hin|].
    exists t. split; [exact Ht|]. split; [exact Hm | lia].
  - intros _. exists t. eexists. split; [exact Ht|]. split; [|reflexivity].
    unfold tile_and_player. engine_eq.
    + rewrite (alter_insert _ pn (players s) p Hp). reflexivity.
    + rewrite (alter_insert _ position (tiles s) t Ht). reflexivity.
Qed.

(** On a reachable state [mortgage_property(position)], in whatever
    phase, is accepted exactly when the current player holds the position
    and its tile is not mortgaged and has no house; the tile is then
    mortgaged and the player receives the mortgage value.  A refusal
    changes nothing. *)
Theorem mortgage_property_spec (s : Engine) (position : Z) (pn : string)
    (p : Player.t) :
  reachable s ->
  player_order s !! current_player_idx s = Some pn ->
  players s !! pn = Some p ->
  exists r s',
    mortgage_property position s = Ret (r, s') /\
    (has_error r = false <-> can_mortgage s p position) /\
    (has_error r = false ->
     exists t ms,
       tiles s !! position = Some t /\
       s' = tile_and_player s position (Property.with_is_mortgaged true t) pn
              (Player.with_money (Player.money p + Property.mortgage_value t) p) ms /\
       dict_get "received" r = Some (VInt (Property.mortgage_value t))) /\
    (has_error r = true -> s' = s).
Proof.
  intros Hreach Hpn Hp. destruct (reachable_Inv s Hreach) as [HB _].
  apply wp_elim, mortgage_property_wp; assumption.
Qed.

Lemma unmortgage_property_wp (s : Engine) (position : Z) (pn : string) (p : Player.t) :
  Base s ->
  player_order s !! current_player_idx s = Some pn ->
  players s !! pn = Some p ->
  wp (unmortgage_property position) s (fun r s' =>
    (has_error r = false <-> can_unmortgage s p position) /\
    (has_error r = false ->
     exists t ms,
       tiles s !! position = Some t /\
       s' = tile_and_player s position (Property.with_is_mortgaged false t) pn
              (Player.with_money
                 (Player.money p - unmortgage_cost (Property.mortgage_value t)) p) ms /\
       dict_get "cost" r = Some (VInt (unmortgage_cost (Property.mortgage_value t)))) /\
    (has_error r = true -> s' = s)).
Proof.
  intros HB Hpn Hp. unfold unmortgage_property, can_unmortgage. wp_steps.
  destruct (decide (position ∈ Player.properties p)) as [Hin|Hin].
  2: { rewrite bool_decide_false by assumption. cbn [negb]. wp_steps.
       split; [|split; [discriminate | reflexivity]].
       split; [discriminate | intros [Hc _]; contradiction]. }
  rewrite bool_decide_true by assumption. cbn [negb].
  destruct (Base_owned_tile s pn p position HB Hp Hin) as (t & Ht & Htok).
  wp_steps. destruct (Property.is_mortgaged t) eqn:Hm; cbn [negb].
  2: { wp_steps. split; [|split; [discriminate | reflexivity]].
       split; [discriminate|]. intros (_ & t' & Ht' & Hm' & _).
       rewrite Ht in Ht'. injection Ht' as <-. congruence. }
  destruct (Z.ltb_spec (Player.money p) (unmortgage_cost (Property.mortgage_value t))).
  { wp_steps. split; [|split; [discriminate | reflexivity]].
    split; [discriminate|]. intros (_ & t' & Ht' & _ & Hc).
    rewrite Ht in Ht'. injection Ht' as <-. lia. }
  wp_steps. split; [|split; [|discriminate]].
  - split; [|reflexivity]. intros _. split; [exact Hin|].
    exists t. split; [exact Ht|]. split; [exact Hm | lia].
  - intros _. exists t. eexists. split; [exact Ht|]. split; [|reflexivity].
    unfold tile_and_player. engine_eq.
    + rewrite (alter_insert _ pn (players s) p Hp). reflexivity.
    + rewrite (alter_insert _ position (tiles s) t Ht). reflexivity.
Qed.

(** On a reachable state [unmortgage_property(position)], in whatever
    phase, is accepted exactly when the current player holds the position,
    its tile is mortgaged and the cash covers 110% of the mortgage value;
    the mortgage is then lifted and that cost debited.  A refusal changes
    nothing. *)
Theorem unmortgage_property_spec (s : Engine) (position : Z) (pn : string)
    (p : Player.t) :
  reachable s ->
  player_order s !! current_player_idx s = Some pn ->
  players s !! pn = Some p ->
  exists r s',
    unmortgage_property position s = Ret (r, s') /\
    (has_error r = false <-> can_unmortgage s p position) /\
    (has_error r = false ->
     exists t ms,
       tiles s !! position = Some t /\
       s' = tile_and_player s position (Property.with_is_mortgaged false t) pn
              (Player.with_money
                 (Player.money p - unmortgage_cost (Property.mortgage_value t)) p) ms /\
       dict_get "cost" r = Some (VInt (unmortgage_cost (Property.mortgage_value t)))) /\
    (has_error r = true -> s' = s).
Proof.
  intros Hreach Hpn Hp. destruct (reachable_Inv s Hreach) as [HB _].
  apply wp_elim, unmortgage_property_wp; assumption.
Qed.

(** * Frames: what a method leaves alone *)

Section Preserves.

Context (R : Engine -> Engine -> Prop) `{!Reflexive R, !Transitive R}.
Context {A B : Type}.

Lemma preserves_ret (a : A) : preserves R (ret a).
Proof. intros s a' s' [= <- <-]. reflexivity. Qed.

Lemma preserves_raise (e : Fault) : preserves R (raise e : M A).
Proof. intros s a s' H. discriminate H. Qed.

Lemma preserves_lift (r : res A) : preserves R (lift r).
Proof. intros s a s'. unfold lift. destruct r; [intros [= <- <-]; reflexivity | discriminate]. Qed.

Lemma preserves_bind (m : M A) (k : A -> M B) :
  preserves R m -> (forall a, preserves R (k a)) -> preserves R (bind m k).
Proof.
  intros Hm Hk s b s'. unfold bind.
  destruct (m s) as [[a s1]|e] eqn:E; [|discriminate].
  intros Hks. transitivity s1; [eapply Hm, E | eapply Hk, Hks].
Qed.

(** A method that reads the engine and goes on. *)
Lemma preserves_get (k : Engine -> M B) :
  (forall s, preserves R (k s)) -> preserves R (bind get k).
Proof. intros Hk s b s' H. eapply Hk, H. Qed.

Lemma preserves_modify (f : Engine -> Engine) :
  (forall s, R s (f s)) -> preserves R (modify f).
Proof. intros Hf s a s' [= _ <-]. apply Hf. Qed.

End Preserves.

Ltac tc_side :=
  try lazymatch goal with
      | |- Reflexive _ => tc_solve
      | |- Transitive _ => tc_solve
      end.

Section PreservesReads.

Context (R : Engine -> Engine -> Prop) `{!Reflexive R, !Transitive R}.

Lemma preserves_player pn : preserves R (player pn).
Proof.
  unfold player. apply preserves_get; tc_side. intros s.
  destruct (players s !! pn); [apply preserves_ret; tc_side | apply preserves_raise; tc_side].
Qed.

Lemma preserves_tile key : preserves R (tile key).
Proof.
  unfold tile. apply preserves_get; tc_side. intros s.
  destruct (tiles s !! key); [apply preserves_ret; tc_side | apply preserves_raise; tc_side].
Qed.

Lemma preserves_current_player : preserves R current_player.
Proof.
  unfold current_player. apply preserves_get; tc_side. intros s.
  destruct (player_order s !! current_player_idx s); [|apply preserves_raise; tc_side].
  apply preserves_bind; tc_side; [apply preserves_player; tc_side|].
  intros _. apply preserves_ret; tc_side.
Qed.

Lemma preserves_current_tile : preserves R current_tile.
Proof.
  unfold current_tile.
  apply preserves_bind; tc_side; [apply preserves_current_player; tc_side|].
  intros pn. apply preserves_bind; tc_side; [apply preserves_player; tc_side|].
  intros p. apply preserves_bind; tc_side; [apply preserves_tile; tc_side|].
  intros _. apply preserves_ret; tc_side.
Qed.

Lemma preserves_last_dice_sum : preserves R last_dice_sum.
Proof. unfold last_dice_sum. apply preserves_get; tc_side. intros s. apply preserves_ret; tc_side. Qed.

Lemma preserves_calculate_rent t dice : preserves R (_calculate_rent t dice).
Proof.
  unfold _calculate_rent. apply preserves_get; tc_side. intros s.
  destruct (Property.owner t); [|apply preserves_raise; tc_side].
  apply preserves_bind; tc_side; [apply preserves_player; tc_side|]. intros o.
  destruct (Property.tile_type t);
    repeat first [ apply preserves_lift; tc_side | apply preserves_bind; tc_side; [|intros ?] ].
Qed.

Lemma preserves_tax_amount t : preserves R (tax_amount t).
Proof.
  unfold tax_amount.
  destruct (TILE_DATA !! Property.position t);
    [apply preserves_ret; tc_side | apply preserves_raise; tc_side].
Qed.

End PreservesReads.

(** One step through a method body; the field assignments are left as
    goals [forall s, R s (f s)]. *)
Ltac pres_step :=
  lazymatch goal with
  | |- preserves _ (bind get _) => apply preserves_get; tc_side; intros ?
  | |- preserves _ (bind _ _) => apply preserves_bind; tc_side; [| intros ?]
  | |- preserves _ (ret _) => apply preserves_ret; tc_side
  | |- preserves _ (raise _) => apply preserves_raise; tc_side
  | |- preserves _ (lift _) => apply preserves_lift; tc_side
  | |- preserves _ (player _) => apply preserves_player; tc_side
  | |- preserves _ (tile _) => apply preserves_tile; tc_side
  | |- preserves _ current_player => apply preserves_current_player; tc_side
  | |- preserves _ current_tile => apply preserves_current_tile; tc_side
  | |- preserves _ last_dice_sum => apply preserves_last_dice_sum; tc_side
  | |- preserves _ (_calculate_rent _ _) => apply preserves_calculate_rent; tc_side
  | |- preserves _ (tax_amount _) => apply preserves_tax_amount; tc_side
  | |- preserves _ (_send_to_jail _ _) => unfold _send_to_jail
  | |- preserves _ (update_player _ _) => apply preserves_modify; tc_side
  | |- preserves _ (update_tile _ _) => apply preserves_modify; tc_side
  | |- preserves _ (set_phase _) => apply preserves_modify; tc_side
  | |- preserves _ (_log _) => apply preserves_modify; tc_side
  | |- preserves _ advance_idx => apply preserves_modify; tc_side
  | |- preserves _ (modify _) => apply preserves_modify; tc_side
  | |- preserves _ (if ?c then _ else _) => destruct c
  | |- preserves _ (match ?x with _ => _ end) => destruct x
  | |- preserves _ (let _ := _ in _) => cbv zeta
  end.

Ltac pres_run := repeat pres_step.

(** ** Tiles and holdings *)

#[global] Instance same_holdings_refl : Reflexive same_holdings.
Proof. intros s. split; reflexivity. Qed.

#[global] Instance same_holdings_trans : Transitive same_holdings.
Proof.
  intros a b c [Ht1 Hp1] [Ht2 Hp2]. split; [congruence|].
  intros n. rewrite Hp2. apply Hp1.
Qed.

Lemma alter_keeps_properties (g : Player.t -> Player.t) pn
    (pl : gmap string Player.t) n :
  (forall q, Player.properties (g q) = Player.properties q) ->
  Player.properties <$> (alter g pn pl !! n) = Player.properties <$> (pl !! n).
Proof.
  intros Hg. destruct (decide (pn = n)) as [<-|Hne].
  - rewrite lookup_alter_eq. destruct (pl !! pn); cbn; [rewrite Hg|]; reflexivity.
  - rewrite lookup_alter_ne by assumption. reflexivity.
Qed.

(** An assignment that is not to a tile or to the holdings of a player. *)
Ltac holdings_leaf :=
  let s := fresh "s" in let n := fresh "n" in
  intros s; split; eng_simpl;
  [ reflexivity
  | intros n;
    first [ reflexivity
          | apply alter_keeps_properties; intros ?; reflexivity
          | match goal with |- context [if ?b then _ else _] => destruct b; reflexivity end ] ].

Lemma handle_landing_holdings shuffle fuel : forall depth pn t dice,
  preserves same_holdings (_handle_landing shuffle fuel depth pn t dice).
Proof.
  induction fuel as [|fuel IH]; intros depth pn t dice; cbn [_handle_landing];
    [apply preserves_raise|].
  destruct (Property.tile_type t); try unfold _draw_card; pres_run;
    first [apply IH | holdings_leaf].
Qed.

Lemma roll_and_move_holdings fuel d1 d2 shuffle :
  preserves same_holdings (roll_and_move fuel d1 d2 shuffle).
Proof.
  unfold roll_and_move, finish_roll. pres_run;
    first [apply handle_landing_holdings | holdings_leaf].
Qed.

Lemma skip_bankrupt_holdings fuel : preserves same_holdings (skip_bankrupt fuel).
Proof.
  induction fuel as [|fuel IH]; cbn [skip_bankrupt]; pres_run;
    first [apply IH | holdings_leaf].
Qed.

Lemma end_turn_holdings : preserves same_holdings end_turn.
Proof.
  unfold end_turn, move_to_next_player. pres_run;
    first [apply skip_bankrupt_holdings | holdings_leaf].
Qed.

Lemma run_op_holdings op : trades op = false -> preserves same_holdings (run_op op).
Proof.
  destruct op; cbn [trades run_op]; intros Hop; try discriminate Hop.
  - apply roll_and_move_holdings.
  - unfold decline_purchase. pres_run; holdings_leaf.
  - unfold pay_bail. pres_run; holdings_leaf.
  - unfold use_jail_card. pres_run; holdings_leaf.
  - unfold roll_for_doubles. pres_run; holdings_leaf.
  - apply end_turn_holdings.
  - unfold get_property_info. pres_run; holdings_leaf.
Qed.

(** Rolling, declining, the jail operations, ending the turn and reading
    a tile never change a tile (owner, houses, mortgage) or the holdings
    of a player: only [buy_current_property], [build_house],
    [mortgage_property] and [unmortgage_property] do. *)
Theorem only_trades_change_tiles_and_holdings (s : Engine) (op : Op) :
  reachable s -> valid_op op -> trades op = false ->
  exists r s',
    run_op op s = Ret (r, s') /\
    tiles s' = tiles s /\
    forall n, Player.properties <$> (players s' !! n)
              = Player.properties <$> (players s !! n).
Proof.
  intros Hreach Hvalid Hop.
  destruct (wp_elim _ _ _ (run_op_kept s op (reachable_Inv s Hreach) Hvalid))
    as (r & s' & E & _).
  exists r, s'. split; [exact E|]. apply (run_op_holdings op Hop s r s' E).
Qed.

(** * Holdings, houses and mortgages *)

Lemma holdings_ok_same_ownership s s' :
  same_ownership s s' -> holdings_ok s -> holdings_ok s'.
Proof.
  intros [Hp Ht] H n p' Hp'. specialize (Hp n). rewrite Hp' in Hp.
  destruct (players s !! n) as [p|] eqn:E; [|discriminate Hp].
  injection Hp as Hprops. destruct (H n p E) as [Hnd Hiff].
  rewrite Hprops. split; [exact Hnd|]. intros pos. rewrite Hiff.
  specialize (Ht pos). split; intros (t & Hlook & Ho); rewrite Hlook in Ht.
  - destruct (tiles s' !! pos) as [t'|]; [|discriminate Ht].
    injection Ht as Ht. exists t'. split; [reflexivity | congruence].
  - destruct (tiles s !! pos) as [t'|]; [|discriminate Ht].
    injection Ht as Ht. exists t'. split; [reflexivity | congruence].
Qed.

Lemma same_holdings_ownership s s' : same_holdings s s' -> same_ownership s s'.
Proof. intros [Ht Hp]. split; [exact Hp|]. intros pos. rewrite Ht. reflexivity. Qed.

Lemma same_ownership_update s s' pn p p' pos t t' :
  players s !! pn = Some p -> tiles s !! pos = Some t ->
  Player.properties p' = Player.properties p ->
  Property.owner t' = Property.owner t ->
  players s' = <[pn := p']> (players s) ->
  tiles s' = <[pos := t']> (tiles s) ->
  same_ownership s s'.
Proof.
  intros Hp Ht Hprops Ho Hpl Htl. unfold same_ownership. rewrite Hpl, Htl. split.
  - intros n. destruct (decide (pn = n)) as [<-|Hne].
    + rewrite lookup_insert_eq, Hp. cbn. congruence.
    + rewrite lookup_insert_ne by assumption. reflexivity.
  - intros k. destruct (decide (pos = k)) as [<-|Hne].
    + rewrite lookup_insert_eq, Ht. cbn. congruence.
    + rewrite lookup_insert_ne by assumption. reflexivity.
Qed.

Lemma tiles_sound_insert s s' pos t t' :
  tiles_sound s -> tiles s !! pos = Some t -> tile_sound t' ->
  tiles s' = <[pos := t']> (tiles s) ->
  tiles_sound s'.
Proof.
  intros H Ht Hs' Heq k u. rewrite Heq. destruct (decide (pos = k)) as [<-|Hne].
  - rewrite lookup_insert_eq. intros [= <-]. split; [apply (H pos t Ht) | exact Hs'].
  - rewrite lookup_insert_ne by assumption. apply H.
Qed.

(** ** The trading operations *)

Lemma bought_Sound s pn p t ms :
  Inv s -> Sound s ->
  phase s = WAITING_FOR_BUY_DECISION ->
  player_order s !! current_player_idx s = Some pn ->
  players s !! pn = Some p ->
  tiles s !! Player.position p = Some t ->
  Sound (bought s pn p t ms).
Proof.
  intros [HB Hbuy] [Hhold Hts] Hph Hpn Hp Ht.
  destruct (Hbuy Hph) as (pn' & p' & t' & Hpn' & Hp' & Ht' & Hown & Hnone).
  rewrite Hpn in Hpn'. injection Hpn' as <-.
  rewrite Hp in Hp'. injection Hp' as <-.
  rewrite Ht in Ht'. injection Ht' as <-.
  pose proof (base_players _ _ _ _ _ _ HB pn p Hp) as (Hname & Hpos & _).
  destruct (base_tiles _ _ _ _ _ _ HB _ Hpos) as (t' & Ht' & Htok).
  rewrite Ht in Ht'. injection Ht' as <-.
  destruct (tile_ok_fields _ _ _ Htok) as (_ & _ & _ & Hposn & _).
  assert (Hfree : forall n q, players s !! n = Some q ->
                              Player.position p ∉ Player.properties q).
  { intros n q Hq Hin. apply (Hhold n q Hq) in Hin as (t0 & Ht0 & Ho).
    rewrite Ht in Ht0. injection Ht0 as <-. congruence. }
  unfold bought. split.
  - intros n q. eng_simpl. destruct (decide (pn = n)) as [<-|Hne].
    + rewrite lookup_insert_eq. intros [= <-]. cbn [Player.properties Player.with_properties].
      destruct (Hhold pn p Hp) as [Hnd Hiff]. rewrite Hposn, Hname. split.
      * apply NoDup_app. split; [exact Hnd|]. split; [|apply NoDup_singleton].
        intros x Hx Hx'. apply list_elem_of_singleton in Hx' as ->.
        apply (Hfree pn p Hp), Hx.
      * intros pos. rewrite elem_of_app, list_elem_of_singleton.
        destruct (decide (Player.position p = pos)) as [<-|Hk].
        -- rewrite lookup_insert_eq. split; [|auto]. intros _. eauto.
        -- rewrite lookup_insert_ne by assumption. rewrite Hiff.
           split; [intros [H|H]; [exact H | congruence] | auto].
    + rewrite lookup_insert_ne by assumption. intros Hq.
      destruct (Hhold n q Hq) as [Hnd Hiff]. split; [exact Hnd|].
      intros pos. destruct (decide (Player.position p = pos)) as [<-|Hk].
      * rewrite lookup_insert_eq. split.
        -- intros Hin. exfalso. apply (Hfree n q Hq), Hin.
        -- intros (t0 & [= <-] & Ho). cbn in Ho. congruence.
      * rewrite lookup_insert_ne by assumption. apply Hiff.
  - eapply (tiles_sound_insert s _ (Player.position p) t); [exact Hts | exact Ht | | reflexivity].
    destruct (Hts _ _ Ht) as (_ & Hh & Hm & _).
    split; [exact Hh|]. split; [intros _; cbn; eauto | intros _; exact Hown].
Qed.

Lemma Sound_update s s' pn p p' pos t t' :
  Sound s ->
  players s !! pn = Some p -> tiles s !! pos = Some t ->
  players s' = <[pn := p']> (players s) ->
  tiles s' = <[pos := t']> (tiles s) ->
  Player.properties p' = Player.properties p ->
  Property.owner t' = Property.owner t ->
  tile_sound t' ->
  Sound s'.
Proof.
  intros [Hhold Hts] Hp Ht Hpl Htl Hprops Ho Hsound. split.
  - eapply holdings_ok_same_ownership; [|exact Hhold].
    eapply same_ownership_update; eassumption.
  - eapply tiles_sound_insert; eassumption.
Qed.

Lemma owned_by_holder s n p pos t :
  holdings_ok s -> players s !! n = Some p -> pos ∈ Player.properties p ->
  tiles s !! pos = Some t -> Property.owner t = Some n.
Proof.
  intros Hhold Hp Hin Ht. apply (Hhold n p Hp) in Hin as (t0 & Ht0 & Ho).
  rewrite Ht in Ht0. injection Ht0 as <-. exact Ho.
Qed.

Lemma run_op_Sound s op r s' :
  Inv s -> Sound s -> valid_op op -> run_op op s = Ret (r, s') -> Sound s'.
Proof.
  intros HI HS Hvalid E. destruct (trades op) eqn:Htr.
  2: { pose proof (run_op_holdings op Htr s r s' E) as Hsame.
       destruct HS as [Hh Ht]. split.
       - eapply holdings_ok_same_ownership; [apply same_holdings_ownership, Hsame | exact Hh].
       - intros pos t. rewrite (proj1 Hsame). apply Ht. }
  pose proof HI as [HB Hbuy]. pose proof HS as [Hhold Hts].
  destruct (Base_current s HB) as (pn & p & t0 & Hpn & Hp & Hok & Ht0 & Htok0).
  destruct op; try discriminate Htr; cbn [run_op] in E.
  - destruct (wp_elim _ _ _ (buy_current_property_wp s pn p t0 Hpn Hp Ht0))
      as (r0 & s0 & E0 & Hiff & Heff & Herr).
    rewrite E in E0. injection E0 as <- <-.
    destruct (has_error r) eqn:He; [rewrite (Herr eq_refl); exact HS|].
    destruct (Heff eq_refl) as [[ms ->] _].
    apply bought_Sound; try assumption. apply Hiff. reflexivity.
  - destruct (wp_elim _ _ _ (build_house_spec s pn p position HB Hpn Hp))
      as (r0 & s0 & E0 & Hiff & Heff & Herr).
    rewrite E in E0. injection E0 as <- <-.
    destruct (has_error r) eqn:He; [rewrite (Herr eq_refl); exact HS|].
    destruct (proj1 Hiff eq_refl) as (Hin & t & Ht & Hty & Hm & _).
    destruct (Heff eq_refl) as (p1 & t1 & ms & Hp1 & Ht1 & ->).
    rewrite Hp in Hp1. injection Hp1 as <-. rewrite Ht in Ht1. injection Ht1 as <-.
    destruct (Hts _ _ Ht) as (_ & _ & _ & Hown).
    eapply (Sound_update s _ pn p _ position t);
      [exact HS | exact Hp | exact Ht | reflexivity | reflexivity | reflexivity | reflexivity |].
    split; [intros _; split; assumption|].
    split; [|exact Hown].
    intros _. cbn. rewrite (owned_by_holder s pn p position t Hhold Hp Hin Ht). eauto.
  - destruct (wp_elim _ _ _ (mortgage_property_wp s position pn p HB Hpn Hp))
      as (r0 & s0 & E0 & Hiff & Heff & Herr).
    rewrite E in E0. injection E0 as <- <-.
    destruct (has_error r) eqn:He; [rewrite (Herr eq_refl); exact HS|].
    destruct (proj1 Hiff eq_refl) as (Hin & t & Ht & Hm & Hh).
    destruct (Heff eq_refl) as (t1 & ms & Ht1 & -> & _).
    rewrite Ht in Ht1. injection Ht1 as <-.
    destruct (Hts _ _ Ht) as (_ & _ & _ & Hown).
    eapply (Sound_update s _ pn p _ position t);
      [exact HS | exact Hp | exact Ht | reflexivity | reflexivity | reflexivity | reflexivity |].
    split; [cbn; lia|]. split; [|exact Hown].
    intros _. cbn. rewrite (owned_by_holder s pn p position t Hhold Hp Hin Ht). eauto.
  - destruct (wp_elim _ _ _ (unmortgage_property_wp s position pn p HB Hpn Hp))
      as (r0 & s0 & E0 & Hiff & Heff & Herr).
    rewrite E in E0. injection E0 as <- <-.
    destruct (has_error r) eqn:He; [rewrite (Herr eq_refl); exact HS|].
    destruct (proj1 Hiff eq_refl) as (Hin & t & Ht & Hm & Hc).
    destruct (Heff eq_refl) as (t1 & ms & Ht1 & -> & _).
    rewrite Ht in Ht1. injection Ht1 as <-.
    destruct (Hts _ _ Ht) as (_ & Hhs & _ & Hown).
    eapply (Sound_update s _ pn p _ position t);
      [exact HS | exact Hp | exact Ht | reflexivity | reflexivity | reflexivity | reflexivity |].
    split; [intros Hpos; split; [apply Hhs, Hpos | reflexivity]|].
    split; [|exact Hown].
    intros _. cbn. rewrite (owned_by_holder s pn p position t Hhold Hp Hin Ht). eauto.
Qed.

(** ** The engine after [initialize] *)

Lemma add_tiles_lookup (items : list (Z * TileData)) : forall s pos t,
  tiles (foldl add_tile s items) !! pos = Some t ->
  tiles s !! pos = Some t \/
  exists data, (pos, data) ∈ items /\ t = new_property pos data.
Proof.
  induction items as [|[pos0 data0] items IH]; intros s pos t; cbn [foldl]; [auto|].
  intros H. apply IH in H as [H|(data & Hin & ->)].
  - cbn in H. destruct (decide (pos0 = pos)) as [<-|Hne].
    + rewrite lookup_insert_eq in H. injection H as <-.
      right. exists data0. split; [apply elem_of_cons; auto | reflexivity].
    + rewrite lookup_insert_ne in H by assumption. auto.
  - right. exists data. split; [apply elem_of_cons; auto | reflexivity].
Qed.

Lemma tile_items_on_board :
  forallb (fun item => (0 <=? item.1) && (item.1 <? 40)) TILE_ITEMS = true.
Proof. vm_compute. reflexivity. Qed.

Lemma initialize_Sound names chance community r s :
  initialize (__init__ names chance community) = Ret (r, s) -> Sound s.
Proof.
  intros Hinit.
  assert (Hs : s = foldl add_tile
                 (with_players
                    (foldl (fun m n => <[n := Player.new n]> m) ∅ names)
                    (__init__ names chance community)) TILE_ITEMS).
  { transitivity (exec initialize (__init__ names chance community)).
    - unfold exec. rewrite Hinit. reflexivity.
    - reflexivity. }
  set (s1 := with_players _ _) in Hs.
  destruct (add_tiles_fields TILE_ITEMS s1) as (H1 & _).
  cbn zeta in H1. rewrite <- Hs in H1.
  destruct (foldl_new_players names ∅) as (Hnew & _).
  { intros n p H. rewrite lookup_empty in H. discriminate. }
  assert (Htile : forall pos t, tiles s !! pos = Some t ->
            in_board pos /\ exists data, t = new_property pos data).
  { intros pos t Ht. rewrite Hs in Ht.
    apply add_tiles_lookup in Ht as [Ht|(data & Hin & ->)].
    - subst s1. cbn in Ht. rewrite lookup_empty in Ht. discriminate.
    - split; [|eauto]. pose proof tile_items_on_board as Hb.
      rewrite forallb_forall in Hb. apply list_elem_of_In in Hin.
      specialize (Hb _ Hin). cbn in Hb. unfold in_board. lia. }
  split.
  - intros n p Hp. rewrite H1 in Hp. subst s1. cbn in Hp. apply Hnew in Hp as ->.
    cbn. split; [constructor|]. intros pos. split; [intros H; inversion H|].
    intros (t & Ht & Ho). apply Htile in Ht as (_ & data & ->). discriminate Ho.
  - intros pos t Ht. destruct (Htile pos t Ht) as (Hpos & data & ->).
    split; [exact Hpos|]. split; [cbn; lia|].
    split; [intros [H|H]; [cbn in H; lia | discriminate H]|].
    intros [o Ho]. discriminate Ho.
Qed.

Lemma reachable_Sound s : reachable s -> Sound s.
Proof.
  induction 1 as [names chance community r s Hne Hch Hco Hinit | s op r s' Hreach IH Hvalid Hrun].
  - eapply initialize_Sound, Hinit.
  - eapply run_op_Sound; [apply reachable_Inv, Hreach | exact IH | exact Hvalid | exact Hrun].
Qed.

(** In every reachable state holdings and owners agree: a player holds a
    position exactly when the tile there names the player as owner, no
    position is listed twice and no position is held by two players. *)
Theorem holdings_agree_with_owners (s : Engine) (n : string) (p : Player.t) :
  reachable s -> players s !! n = Some p ->
  NoDup (Player.properties p) /\
  (forall pos, pos ∈ Player.properties p <->
               exists t, tiles s !! pos = Some t /\ Property.owner t = Some n) /\
  (forall m q pos, players s !! m = Some q ->
                   pos ∈ Player.properties p -> pos ∈ Player.properties q -> m = n).
Proof.
  intros Hreach Hp. destruct (reachable_Sound s Hreach) as [Hhold _].
  destruct (Hhold n p Hp) as [Hnd Hiff]. split; [exact Hnd|]. split; [exact Hiff|].
  intros m q pos Hq Hin Hin'.
  apply Hiff in Hin as (t & Ht & Ho).
  apply (Hhold m q Hq) in Hin' as (t' & Ht' & Ho').
  rewrite Ht in Ht'. injection Ht' as <-. congruence.
Qed.

(** In every reachable state the tiles are those of the 40 board
    positions; houses stand only on streets that are not mortgaged; a tile
    with a house or a mortgage has an owner; and a tile with an owner is a
    street, a railroad or a utility. *)
Theorem houses_and_mortgages_are_sound (s : Engine) (pos : Z) (t : Property.t) :
  reachable s -> tiles s !! pos = Some t ->
  0 <= pos < 40 /\
  (0 < Property.houses t ->
   Property.tile_type t = PROPERTY /\ Property.is_mortgaged t = false) /\
  (0 < Property.houses t \/ Property.is_mortgaged t = true ->
   is_Some (Property.owner t)) /\
  (is_Some (Property.owner t) -> ownable (Property.tile_type t)).
Proof.
  intros Hreach Ht. destruct (reachable_Sound s Hreach) as [_ Hts].
  exact (Hts pos t Ht).
Qed.

(** * The roster and the log *)

(** The frame of every operation, for a relation whose field assignments
    [leaf] proves. *)
Ltac frame_landing leaf :=
  intros fuel; induction fuel as [|fuel IH]; intros ? ? ? ?; cbn [_handle_landing];
  [ apply preserves_raise
  | match goal with |- preserves _ (match Property.tile_type ?t with _ => _ end) =>
      destruct (Property.tile_type t) end;
    try unfold _draw_card; pres_run; first [apply IH | leaf] ].

Ltac frame_skip leaf :=
  intros fuel; induction fuel as [|fuel IH]; cbn [skip_bankrupt]; pres_run;
  first [apply IH | leaf].

Ltac frame_ops landing skip leaf :=
  let op := fresh "op" in
  intros op; destruct op; cbn [run_op];
  unfold roll_and_move, finish_roll, buy_current_property, decline_purchase, pay_bail,
    use_jail_card, roll_for_doubles, build_house, _get_buildable_properties,
    mortgage_property, unmortgage_property, end_turn, move_to_next_player,
    get_property_info;
  pres_run; first [apply landing | apply skip | leaf].

(** ** The roster *)

#[global] Instance same_roster_refl : Reflexive same_roster.
Proof. intros s. split; reflexivity. Qed.

#[global] Instance same_roster_trans : Transitive same_roster.
Proof.
  intros a b c [Ho1 Hp1] [Ho2 Hp2]. split; [congruence|].
  intros n. rewrite Hp2. apply Hp1.
Qed.

Ltac roster_leaf :=
  intros ?; split; eng_simpl;
  [ reflexivity
  | intros ?;
    first [ reflexivity
          | apply is_Some_alter
          | match goal with |- context [if ?b then _ else _] => destruct b; reflexivity end ] ].

Lemma handle_landing_roster shuffle : forall fuel depth pn t dice,
  preserves same_roster (_handle_landing shuffle fuel depth pn t dice).
Proof. frame_landing ltac:(roster_leaf). Qed.

Lemma skip_bankrupt_roster : forall fuel, preserves same_roster (skip_bankrupt fuel).
Proof. frame_skip ltac:(roster_leaf). Qed.

Lemma run_op_roster : forall op, preserves same_roster (run_op op).
Proof. frame_ops handle_landing_roster skip_bankrupt_roster ltac:(roster_leaf). Qed.

(** No operation adds, removes, renames or reorders players. *)
Theorem roster_never_changes (s : Engine) (op : Op) :
  reachable s -> valid_op op ->
  exists r s',
    run_op op s = Ret (r, s') /\
    player_order s' = player_order s /\
    forall n, is_Some (players s' !! n) <-> is_Some (players s !! n).
Proof.
  intros Hreach Hvalid.
  destruct (wp_elim _ _ _ (run_op_kept s op (reachable_Inv s Hreach) Hvalid))
    as (r & s' & E & _).
  exists r, s'. split; [exact E|]. apply (run_op_roster op s r s' E).
Qed.

(** ** The log *)

#[global] Instance keeps_log_bound_refl : Reflexive keeps_log_bound.
Proof. intros s H. exact H. Qed.

#[global] Instance keeps_log_bound_trans : Transitive keeps_log_bound.
Proof. intros a b c H1 H2 H. apply H2, H1, H. Qed.

Lemma log_keeps_bound msg s : log_bounded (exec (_log msg) s).
Proof.
  unfold log_bounded, exec, _log, modify. cbv zeta. eng_simpl.
  destruct (Nat.ltb_spec 50 (length (messages s ++ [msg]))) as [Hlt|Hle]; eng_simpl.
  - rewrite length_drop. lia.
  - exact Hle.
Qed.

Ltac log_leaf :=
  intros ? ?;
  first [ apply log_keeps_bound
        | unfold log_bounded in *; eng_simpl; assumption
        | match goal with |- context [if ?b then _ else _] =>
            destruct b; unfold log_bounded in *; eng_simpl; assumption end ].

Lemma handle_landing_log shuffle : forall fuel depth pn t dice,
  preserves keeps_log_bound (_handle_landing shuffle fuel depth pn t dice).
Proof. frame_landing ltac:(log_leaf). Qed.

Lemma skip_bankrupt_log : forall fuel, preserves keeps_log_bound (skip_bankrupt fuel).
Proof. frame_skip ltac:(log_leaf). Qed.

Lemma run_op_log : forall op, preserves keeps_log_bound (run_op op).
Proof. frame_ops handle_landing_log skip_bankrupt_log ltac:(log_leaf). Qed.

Lemma add_tiles_messages (items : list (Z * TileData)) : forall s,
  length (messages (foldl add_tile s items)) = (length (messages s) + length items)%nat.
Proof.
  induction items as [|[pos data] items IH]; intros s; cbn [foldl length]; [lia|].
  rewrite IH. cbn. rewrite length_app. cbn. lia.
Qed.

(** The log of a running engine never holds more than 50 messages: the 40
    start messages of [initialize], then what [_log] keeps. *)
Theorem log_never_exceeds_50 (s : Engine) :
  reachable s -> (length (messages s) <= 50)%nat.
Proof.
  induction 1 as [names chance community r s Hne Hch Hco Hinit | s op r s' Hreach IH Hvalid Hrun].
  - assert (Hs : s = exec initialize (__init__ names chance community))
      by (unfold exec; rewrite Hinit; reflexivity).
    rewrite Hs. unfold exec, initialize, bind, modify, get, ret. cbn match.
    rewrite add_tiles_messages. cbn. lia.
  - exact (run_op_log op s r s' Hrun IH).
Qed.

(** * Once the game is over *)

Lemma error_is_error msg : has_error (error msg) = true.
Proof. reflexivity. Qed.

Lemma game_over_wp s op pn p :
  Base s -> phase s = GAME_OVER ->
  player_order s !! current_player_idx s = Some pn ->
  players s !! pn = Some p ->
  Player.in_jail p = false ->
  wp (run_op op) s (fun r s' =>
    phase s' = GAME_OVER /\
    player_order s' !! current_player_idx s' = Some pn /\
    exists p', players s' !! pn = Some p' /\ Player.in_jail p' = false).
Proof.
  intros HB Hph Hpn Hp Hjail.
  assert (Hsame : phase s = GAME_OVER /\
                  player_order s !! current_player_idx s = Some pn /\
                  exists p', players s !! pn = Some p' /\ Player.in_jail p' = false)
    by (split; [exact Hph | split; [exact Hpn | eauto]]).
  destruct op; cbn [run_op].
  - unfold roll_and_move. wp_steps. rewrite Hph.
    destruct (decide (GAME_OVER = IN_JAIL)) as [e|_]; [discriminate e|].
    destruct (decide (GAME_OVER <> WAITING_FOR_ROLL)) as [_|e]; [|exfalso; apply e; discriminate].
    wp_steps. exact Hsame.
  - unfold buy_current_property. wp_steps. rewrite Hph.
    destruct (decide (GAME_OVER <> WAITING_FOR_BUY_DECISION)) as [_|e];
      [|exfalso; apply e; discriminate].
    wp_steps. exact Hsame.
  - unfold decline_purchase. wp_steps. rewrite Hph.
    destruct (decide (GAME_OVER <> WAITING_FOR_BUY_DECISION)) as [_|e];
      [|exfalso; apply e; discriminate].
    wp_steps. exact Hsame.
  - unfold pay_bail. wp_steps. rewrite Hjail. cbn [negb]. wp_steps. exact Hsame.
  - unfold use_jail_card. wp_steps. rewrite Hjail. cbn [negb]. wp_steps. exact Hsame.
  - unfold roll_for_doubles. wp_steps. rewrite Hjail. cbn [negb]. wp_steps. exact Hsame.
  - eapply wp_mono; [apply (build_house_spec s pn p position HB Hpn Hp)|].
    cbn beta. intros r s' (_ & Heff & Herr).
    destruct (has_error r); [rewrite (Herr eq_refl); exact Hsame|].
    destruct (Heff eq_refl) as (p1 & t1 & ms & Hp1 & Ht1 & ->). eng_simpl.
    rewrite Hp in Hp1. injection Hp1 as <-.
    split; [exact Hph|]. split; [exact Hpn|].
    eexists. split; [apply lookup_insert_eq | exact Hjail].
  - eapply wp_mono; [apply (mortgage_property_wp s position pn p HB Hpn Hp)|].
    cbn beta. intros r s' (_ & Heff & Herr).
    destruct (has_error r); [rewrite (Herr eq_refl); exact Hsame|].
    destruct (Heff eq_refl) as (t1 & ms & Ht1 & -> & _). unfold tile_and_player. eng_simpl.
    split; [exact Hph|]. split; [exact Hpn|].
    eexists. split; [apply lookup_insert_eq | exact Hjail].
  - eapply wp_mono; [apply (unmortgage_property_wp s position pn p HB Hpn Hp)|].
    cbn beta. intros r s' (_ & Heff & Herr).
    destruct (has_error r); [rewrite (Herr eq_refl); exact Hsame|].
    destruct (Heff eq_refl) as (t1 & ms & Ht1 & -> & _). unfold tile_and_player. eng_simpl.
    split; [exact Hph|]. split; [exact Hpn|].
    eexists. split; [apply lookup_insert_eq | exact Hjail].
  - unfold end_turn. wp_steps. rewrite Hph.
    destruct (decide (GAME_OVER <> TURN_COMPLETE)) as [_|e]; [|exfalso; apply e; discriminate].
    wp_steps. exact Hsame.
  - unfold get_property_info. wp_steps. destruct (tiles s !! position); wp_steps; exact Hsame.
Qed.

(** Once the phase is GAME_OVER and the current player is not in jail, no
    operation leaves that phase: the current player stays the same and
    stays out of jail, so that the game is over for good.  (The three jail
    operations do not look at the phase.) *)
Theorem game_over_is_final (s : Engine) (op : Op) (pn : string) (p : Player.t) :
  reachable s ->
  phase s = GAME_OVER ->
  player_order s !! current_player_idx s = Some pn ->
  players s !! pn = Some p ->
  Player.in_jail p = false ->
  exists r s',
    run_op op s = Ret (r, s') /\
    phase s' = GAME_OVER /\
    player_order s' !! current_player_idx s' = Some pn /\
    exists p', players s' !! pn = Some p' /\ Player.in_jail p' = false.
Proof.
  intros Hreach Hph Hpn Hp Hjail. destruct (reachable_Inv s Hreach) as [HB _].
  apply wp_elim, (game_over_wp s op pn p); assumption.
Qed.

(** * Landing on a mortgaged tile *)

Lemma money_unchanged (p : Player.t) :
  Player.with_money (Player.money p - 0) p = p /\
  Player.with_money (Player.money p + 0) p = p.
Proof.
  unfold Player.with_money. rewrite Z.sub_0_r, Z.add_0_r. destruct p. split; reflexivity.
Qed.

(** A roll that ends on a mortgaged street, railroad or utility of
    another player returns, and nothing is paid: the engine is the one
    after the move, with the turn complete unless a double rolls again, so
    that no cash but the credit of the move has changed hands. *)
Theorem mortgaged_tile_collects_no_rent (s : Engine) (fuel : nat) (d1 d2 : Z)
    (shuffle : Shuffle) (pn o : string) (p : Player.t) (t : Property.t) :
  reachable s -> (1 <= fuel)%nat ->
  phase s = WAITING_FOR_ROLL ->
  player_order s !! current_player_idx s = Some pn ->
  players s !! pn = Some p ->
  ((d1 =? d2) = true -> Player.doubles_count p + 1 < 3) ->
  tiles s !! Player.position (moved d1 d2 p) = Some t ->
  ownable (Property.tile_type t) ->
  Property.owner t = Some o ->
  o <> pn ->
  Property.is_mortgaged t = true ->
  exists r ms,
    roll_and_move fuel d1 d2 shuffle s
      = Ret (r, with_phase (if d1 =? d2 then WAITING_FOR_ROLL else TURN_COMPLETE)
                  (after_move s pn d1 d2 p ms)) /\
    dict_get "result" r = Some (VStr ("Paid $0 rent to " +:+ o)) /\
    dict_get "money" r = Some (VInt (Player.money (moved d1 d2 p))).
Proof.
  intros Hreach Hfuel Hph Hpn Hp Hthird Ht Hown Ho Hne Hm.
  destruct (reachable_Inv s Hreach) as [HB _].
  pose proof (base_players _ _ _ _ _ _ HB pn p Hp) as (_ & Hpos & _).
  assert (Hnew : in_board (Player.position (moved d1 d2 p)))
    by (cbn; apply Z.mod_pos_bound; lia).
  destruct (base_tiles _ _ _ _ _ _ HB _ Hnew) as (t' & Ht' & Hok).
  rewrite Ht in Ht'. injection Ht' as <-.
  destruct Hok as (_ & _ & Howner). destruct (Howner o Ho) as [q Hq].
  destruct (roll_onto_owned_tile s fuel d1 d2 shuffle pn o p q t
              HB Hfuel Hph Hpn Hp Hthird Ht Hown Ho Hne Hq)
    as (_ & rent & rr & ut & r & ms & _ & _ & Hrent & E & Hres & Hmoney).
  assert (rent = 0) as ->.
  { unfold Property.get_rent in Hrent. rewrite Hm in Hrent. congruence. }
  exists r, ms. split; [|split].
  - rewrite E. do 2 f_equal. unfold rent_paid, after_move.
    rewrite (proj1 (money_unchanged _)), (proj2 (money_unchanged _)).
    rewrite (insert_id _ o q) by (rewrite lookup_insert_ne by congruence; exact Hq).
    reflexivity.
  - exact Hres.
  - rewrite Hmoney. do 2 f_equal. lia.
Qed.

(** * Reading a tile *)

(** On a reachable state [get_property_info(position)] changes nothing;
    it reports an error exactly for a position off the board, and
    otherwise the owner, the houses and the mortgage flag of the tile. *)
Theorem get_property_info_spec (s : Engine) (position : Z) :
  reachable s ->
  exists r,
    get_property_info position s = Ret (r, s) /\
    (has_error r = true <-> ~ 0 <= position < 40) /\
    (has_error r = false ->
     exists t,
       tiles s !! position = Some t /\
       dict_get "name" r = Some (VStr (Property.name t)) /\
       dict_get "owner" r = Some (VOptStr (Property.owner t)) /\
       dict_get "houses" r = Some (VInt (Property.houses t)) /\
       dict_get "is_mortgaged" r = Some (VBool (Property.is_mortgaged t))).
Proof.
  intros Hreach. destruct (reachable_Inv s Hreach) as [HB _].
  destruct (reachable_Sound s Hreach) as [_ Hts].
  unfold get_property_info, bind, get, ret.
  destruct (tiles s !! position) as [t|] eqn:Ht.
  - eexists. split; [reflexivity|]. split.
    + split; [discriminate|]. intros Hoff. exfalso. apply Hoff, (Hts _ _ Ht).
    + intros _. exists t. repeat split; reflexivity.
  - eexists. split; [reflexivity|]. split; [|discriminate].
    split; [|reflexivity]. intros _ Hon.
    destruct (base_tiles _ _ _ _ _ _ HB position Hon) as (t & Ht' & _). congruence.
Qed.

(** * The actions on offer *)

Lemma get_buildable_wp s pn p :
  Base s -> players s !! pn = Some p ->
  wp (_get_buildable_properties pn) s (fun l s' =>
    s' = s /\ forall x, x ∈ l <-> can_build s p x).
Proof.
  intros HB Hp.
  pose proof (base_players _ _ _ _ _ _ HB pn p Hp) as (_ & _ & Hprops).
  rewrite Forall_forall in Hprops.
  unfold _get_buildable_properties. wp_steps.
  destruct (buildable_loop_spec (tiles s) p (Player.properties p)) as (l & Hl & Hmem).
  { intros pos Hpos.
    destruct (buildable_here_spec s p pos HB (Hprops pos Hpos)) as (b & Hb & _). eauto. }
  eapply wp_lift; [exact Hl|]. split; [reflexivity|].
  intros x. rewrite Hmem. unfold can_build. split.
  - intros [Hin Hb]. split; [exact Hin|].
    destruct (buildable_here_spec s p x HB (Hprops x Hin)) as (b & Hb' & Hiff).
    apply Hiff. congruence.
  - intros [Hin Hc]. split; [exact Hin|].
    destruct (buildable_here_spec s p x HB (Hprops x Hin)) as (b & Hb' & Hiff).
    rewrite Hb'. f_equal. apply Hiff, Hc.
Qed.

(** The entry of [get_available_actions] for building. *)
Lemma get_available_actions_wp s pn p :
  Base s ->
  player_order s !! current_player_idx s = Some pn ->
  players s !! pn = Some p ->
  wp get_available_actions s (fun r s' =>
    s' = s /\
    exists buildable,
      (forall x, x ∈ buildable <-> can_build s p x) /\
      dict_get "actions" r =
        Some (VStrs
          (phase_actions (phase s) p ++
           if bool_decide (phase s = GAME_OVER) then []
           else match buildable with
                | [] => []
                | _ :: _ =>
                    ["build_house (on positions: " +:+ py_list_repr buildable +:+ ")"]
                end))).
Proof.
  intros HB Hpn Hp. unfold get_available_actions. wp_steps.
  destruct (wp_elim _ _ _ (get_buildable_wp s pn p HB Hp)) as (l & s0 & El & -> & Hl).
  destruct (bool_decide (phase s = GAME_OVER)); cbn [negb].
  - wp_steps. split; [reflexivity|]. exists l. split; [exact Hl|].
    rewrite app_nil_r. reflexivity.
  - apply wp_bind. eapply wp_intro; [exact El|].
    destruct l as [|x l]; wp_steps.
    + split; [reflexivity|]. exists []. split; [exact Hl|].
      rewrite app_nil_r. reflexivity.
    + split; [reflexivity|]. exists (x :: l). split; [exact Hl | reflexivity].
Qed.

(** On a reachable state [get_available_actions] changes nothing.  While
    the game is not over it offers to build exactly when some position can
    be built on, and the positions it lists are exactly those where
    [build_house] succeeds; with the phase GAME_OVER it offers nothing. *)
Theorem offered_builds_are_accepted (s : Engine) (pn : string) (p : Player.t) :
  reachable s ->
  player_order s !! current_player_idx s = Some pn ->
  players s !! pn = Some p ->
  exists r buildable,
    get_available_actions s = Ret (r, s) /\
    (forall x, x ∈ buildable <->
               exists r' s', build_house x s = Ret (r', s') /\ has_error r' = false) /\
    dict_get "actions" r =
      Some (VStrs
        (phase_actions (phase s) p ++
         if bool_decide (phase s = GAME_OVER) then []
         else match buildable with
              | [] => []
              | _ :: _ =>
                  ["build_house (on positions: " +:+ py_list_repr buildable +:+ ")"]
              end)) /\
    (phase s = GAME_OVER -> dict_get "actions" r = Some (VStrs [])).
Proof.
  intros Hreach Hpn Hp. destruct (reachable_Inv s Hreach) as [HB _].
  destruct (wp_elim _ _ _ (get_available_actions_wp s pn p HB Hpn Hp))
    as (r & s' & E & -> & l & Hl & Hr).
  exists r, l. split; [exact E|]. split; [|split; [exact Hr|]].
  - intros x. rewrite Hl.
    destruct (wp_elim _ _ _ (build_house_spec s pn p x HB Hpn Hp))
      as (r' & s' & E' & Hiff & _).
    split.
    + intros Hc. exists r', s'. split; [exact E' | apply Hiff, Hc].
    + intros (r2 & s2 & E2 & He). rewrite E' in E2. injection E2 as <- <-.
      apply Hiff, He.
  - intros Hph. rewrite Hr, Hph. reflexivity.
Qed.

Lemma clean_build_entry (l : string) :
  _clean_action_name ("build_house (on positions: " +:+ l) = "build_house".
Proof. reflexivity. Qed.

(** Every action that [get_available_actions] offers is known to the
    dispatch of the server: its cleaned name is a key of the action map,
    so that no offer ends in "Unknown action". *)
Theorem offered_actions_are_dispatched (s : Engine) (pn : string) (p : Player.t)
    (fuel : nat) (d1 d2 : Z) (shuffle : Shuffle) (params : option Z) :
  reachable s ->
  player_order s !! current_player_idx s = Some pn ->
  players s !! pn = Some p ->
  exists r actions,
    get_available_actions s = Ret (r, s) /\
    dict_get "actions" r = Some (VStrs actions) /\
    forall a, a ∈ actions ->
      exists op,
        _execute_runner_action fuel d1 d2 shuffle (_clean_action_name a) params
        = run_op op.
Proof.
  intros Hreach Hpn Hp. destruct (reachable_Inv s Hreach) as [HB _].
  destruct (wp_elim _ _ _ (get_available_actions_wp s pn p HB Hpn Hp))
    as (r & s' & E & -> & l & Hl & Hr).
  exists r. eexists. split; [exact E|]. split; [exact Hr|].
  intros a Ha.
  cut (is_Some (action_map fuel d1 d2 shuffle (default 0 params) (_clean_action_name a))).
  { intros [op Hop]. exists op. unfold _execute_runner_action. rewrite Hop. reflexivity. }
  apply elem_of_app in Ha as [Ha|Ha].
  - unfold phase_actions in Ha.
    destruct (phase s); try destruct (0 <? Player.jail_cards p); cbn [app] in Ha;
      repeat (apply elem_of_cons in Ha as [->|Ha]; [cbn; eauto|]);
      inversion Ha.
  - destruct (bool_decide (phase s = GAME_OVER)); [inversion Ha|].
    destruct l as [|x l]; [inversion Ha|].
    apply list_elem_of_singleton in Ha as ->.
    rewrite clean_build_entry. cbn. eauto.
Qed.

(** * A running engine is well formed *)

(** In every reachable state the current index names a registered player;
    a player's record carries the player's name and a position on the
    board; each of the 40 positions holds its tile, with the name, type,
    price, mortgage value, color, house cost and rents of [TILE_DATA], at
    most five houses and an owner who is registered. *)
Theorem running_engine_is_well_formed (s : Engine) :
  reachable s ->
  (exists pn p, player_order s !! current_player_idx s = Some pn /\
                players s !! pn = Some p) /\
  (forall n, n ∈ player_order s -> is_Some (players s !! n)) /\
  (forall n p, players s !! n = Some p ->
     Player.name p = n /\ 0 <= Player.position p < 40 /\
     Forall (fun pos => 0 <= pos < 40) (Player.properties p)) /\
  (forall pos, 0 <= pos < 40 ->
     exists t data,
       tiles s !! pos = Some t /\ TILE_DATA !! pos = Some data /\
       Property.position t = pos /\
       Property.name t = td_name data /\
       Property.tile_type t = td_type data /\
       Property.price t = td_price data /\
       Property.mortgage_value t = td_mortgage data /\
       Property.color_group t = td_color data /\
       Property.house_cost t = td_house_cost data /\
       Property.rent t = td_rent data /\
       0 <= Property.houses t <= 5 /\
       (forall o, Property.owner t = Some o -> is_Some (players s !! o))).
Proof.
  intros Hreach. destruct (reachable_Inv s Hreach) as [HB _].
  split; [|split; [|split]].
  - destruct (Base_current s HB) as (pn & p & _ & Hpn & Hp & _). eauto.
  - apply (base_order _ _ _ _ _ _ HB).
  - intros n p Hp. apply (base_players _ _ _ _ _ _ HB n p Hp).
  - intros pos Hpos.
    destruct (base_tiles _ _ _ _ _ _ HB pos Hpos) as (t & Ht & (data & Hdata & Hst) & Hh & Ho).
    apply reset_fields in Hst as (H1 & H2 & H3 & H4 & H5 & H6 & H7 & H8).
    exists t, data. repeat split; try assumption; apply Hh.
Qed.

(** * The decks only shrink *)

#[global] Instance decks_shrink_refl : Reflexive decks_shrink.
Proof. intros s. split; reflexivity. Qed.

#[global] Instance decks_shrink_trans : Transitive decks_shrink.
Proof. intros a b c [H1 H2] [H3 H4]. split; etrans; eassumption. Qed.

Ltac decks_leaf :=
  intros ?; split; eng_simpl;
  first [ reflexivity
        | match goal with |- context [if ?b then _ else _] => destruct b; reflexivity end ].

Lemma bind_inv {A B} (m : M A) (k : A -> M B) s b s' :
  bind m k s = Ret (b, s') -> exists a s1, m s = Ret (a, s1) /\ k a s1 = Ret (b, s').
Proof. unfold bind. destruct (m s) as [[a s1]|e]; [eauto | discriminate]. Qed.

Lemma draw_card_decks shuffle landing depth pn card_type :
  (forall pn t dice, preserves decks_shrink (landing pn t dice)) ->
  preserves decks_shrink (_draw_card shuffle landing depth pn card_type).
Proof.
  intros Hland s r s' H. unfold _draw_card in H.
  apply bind_inv in H as (s0 & s1 & [= <- <-] & H).
  apply bind_inv in H as (card & s1 & Hcard & H).
  assert (Hfirst : decks_shrink s s1).
  { destruct (bool_decide (card_type = CHANCE)).
    - destruct (chance_deck s) as [|c rest] eqn:Hdeck.
      + destruct (shuffle depth CHANCE_CARDS); [discriminate Hcard|].
        injection Hcard as <- <-. reflexivity.
      + injection Hcard as <- <-. split; eng_simpl; [|reflexivity].
        rewrite Hdeck. apply suffix_cons_r. reflexivity.
    - destruct (community_deck s) as [|c rest] eqn:Hdeck.
      + destruct (shuffle depth COMMUNITY_CARDS); [discriminate Hcard|].
        injection Hcard as <- <-. reflexivity.
      + injection Hcard as <- <-. split; eng_simpl; [reflexivity|].
        rewrite Hdeck. apply suffix_cons_r. reflexivity. }
  transitivity s1; [exact Hfirst|].
  lazymatch type of H with
  | ?rest s1 = _ => cut (preserves decks_shrink rest); [intros Hk; exact (Hk s1 r s' H)|]
  end.
  cbv beta.
  pres_run; first [apply Hland | decks_leaf].
Qed.

Lemma handle_landing_decks shuffle : forall fuel depth pn t dice,
  preserves decks_shrink (_handle_landing shuffle fuel depth pn t dice).
Proof.
  intros fuel; induction fuel as [|fuel IH]; intros depth pn t dice; cbn [_handle_landing];
    [apply preserves_raise|].
  destruct (Property.tile_type t);
    try (apply draw_card_decks; intros; apply IH);
    pres_run; decks_leaf.
Qed.

Lemma skip_bankrupt_decks : forall fuel, preserves decks_shrink (skip_bankrupt fuel).
Proof. frame_skip ltac:(decks_leaf). Qed.

Lemma run_op_decks : forall op, preserves decks_shrink (run_op op).
Proof. frame_ops handle_landing_decks skip_bankrupt_decks ltac:(decks_leaf). Qed.

(** No operation adds a card to a deck or reorders one: after an
    operation each deck of the engine is a suffix of what it was, so that
    the cards of a deck are drawn from the top, in order, and an emptied
    deck stays empty. *)
Theorem decks_only_shrink (s : Engine) (op : Op) :
  reachable s -> valid_op op ->
  exists r s',
    run_op op s = Ret (r, s') /\
    chance_deck s' `suffix_of` chance_deck s /\
    community_deck s' `suffix_of` community_deck s.
Proof.
  intros Hreach Hvalid.
  destruct (wp_elim _ _ _ (run_op_kept s op (reachable_Inv s Hreach) Hvalid))
    as (r & s' & E & _).
  exists r, s'. split; [exact E|]. apply (run_op_decks op s r s' E).
Qed.

(** * The players who are not acting *)

#[global] Instance cash_only_refl : Reflexive cash_only.
Proof. intros q. unfold cash_only. destruct q. reflexivity. Qed.

#[global] Instance cash_only_trans : Transitive cash_only.
Proof.
  intros a b c H1 H2. unfold cash_only in *. rewrite H2, H1. destruct a. reflexivity.
Qed.

Section TurnFrame.

Context (rel : Player.t -> Player.t -> Prop) `{!Reflexive rel, !Transitive rel}.
Variable pn : string.

#[global] Instance turn_frame_refl : Reflexive (turn_frame rel pn).
Proof.
  intros s _. split; [reflexivity|]. split; [reflexivity|].
  intros n q _ Hq. exists q. split; [exact Hq | reflexivity].
Qed.

#[global] Instance turn_frame_trans : Transitive (turn_frame rel pn).
Proof.
  intros a b c H1 H2 Hcur. destruct (H1 Hcur) as (Ho1 & Hi1 & Hr1).
  destruct H2 as (Ho2 & Hi2 & Hr2); [rewrite Ho1, Hi1; exact Hcur|].
  split; [congruence|]. split; [congruence|].
  intros n q Hne Hq. destruct (Hr1 n q Hne Hq) as (q1 & Hq1 & Hrel1).
  destruct (Hr2 n q1 Hne Hq1) as (q2 & Hq2 & Hrel2).
  exists q2. split; [exact Hq2 | etrans; eassumption].
Qed.

(** A method that starts from the current player. *)
Lemma turn_frame_current {B} (k : string -> M B) :
  preserves (turn_frame rel pn) (k pn) ->
  preserves (turn_frame rel pn) (bind current_player k).
Proof.
  intros Hk s b s' H Hcur. apply bind_inv in H as (pn0 & s1 & Hc & H).
  unfold current_player, bind, get in Hc. rewrite Hcur in Hc.
  apply bind_inv in Hc as (q & s2 & Hq & [= <- <-]).
  assert (s2 = s) as ->.
  { unfold player, bind, get in Hq. destruct (players s !! pn); [|discriminate Hq].
    injection Hq as _ <-. reflexivity. }
  exact (Hk s b s' H Hcur).
Qed.

(** An assignment to the acting player. *)
Lemma turn_frame_self f s :
  turn_frame rel pn s (with_players (alter f pn (players s)) s).
Proof.
  intros _. split; [reflexivity|]. split; [reflexivity|].
  intros n q Hne Hq. exists q. eng_simpl.
  rewrite lookup_alter_ne by congruence. split; [exact Hq | reflexivity].
Qed.

(** An assignment to any player that [rel] allows. *)
Lemma turn_frame_other f o s :
  (forall q, rel q (f q)) ->
  turn_frame rel pn s (with_players (alter f o (players s)) s).
Proof.
  intros Hf _. split; [reflexivity|]. split; [reflexivity|].
  intros n q Hne Hq. eng_simpl. destruct (decide (o = n)) as [<-|Hon].
  - rewrite lookup_alter_eq, Hq. eexists. split; [reflexivity | apply Hf].
  - rewrite lookup_alter_ne by assumption. exists q. split; [exact Hq | reflexivity].
Qed.

(** An assignment to no player. *)
Lemma turn_frame_same_players s s' :
  player_order s' = player_order s ->
  current_player_idx s' = current_player_idx s ->
  players s' = players s ->
  turn_frame rel pn s s'.
Proof.
  intros Ho Hi Hp _. split; [exact Ho|]. split; [exact Hi|].
  intros n q _ Hq. exists q. rewrite Hp. split; [exact Hq | reflexivity].
Qed.

End TurnFrame.

Lemma cash_only_credit amount (q : Player.t) :
  cash_only q (Player.with_money (Player.money q + amount) q).
Proof. unfold cash_only. destruct q. reflexivity. Qed.

Ltac turn_leaf :=
  intros ?;
  first [ apply turn_frame_self; tc_side
        | apply turn_frame_other; tc_side; intros ?; apply cash_only_credit
        | apply turn_frame_same_players; tc_side; eng_simpl; reflexivity
        | match goal with |- context [if ?b then _ else _] =>
            destruct b; apply turn_frame_same_players; tc_side; eng_simpl; reflexivity end ].

Ltac turn_run :=
  repeat first
    [ lazymatch goal with
      | |- preserves (turn_frame _ _) (bind current_player _) =>
          apply turn_frame_current; tc_side
      end
    | pres_step ].

Lemma handle_landing_turn shuffle pn : forall fuel depth t dice,
  preserves (turn_frame cash_only pn) (_handle_landing shuffle fuel depth pn t dice).
Proof.
  intros fuel; induction fuel as [|fuel IH]; intros depth t dice; cbn [_handle_landing];
    [apply preserves_raise|].
  destruct (Property.tile_type t); try unfold _draw_card; pres_run;
    first [apply IH | turn_leaf].
Qed.

Lemma roll_and_move_turn fuel d1 d2 shuffle pn :
  preserves (turn_frame cash_only pn) (roll_and_move fuel d1 d2 shuffle).
Proof.
  unfold roll_and_move, finish_roll. turn_run;
    first [apply handle_landing_turn | turn_leaf].
Qed.

Ltac still_leaf :=
  intros ?;
  first [ apply turn_frame_self; tc_side
        | apply turn_frame_same_players; tc_side; eng_simpl; reflexivity
        | match goal with |- context [if ?b then _ else _] =>
            destruct b; apply turn_frame_same_players; tc_side; eng_simpl; reflexivity end ].

Lemma run_op_turn op pn :
  is_roll op = false -> op <> EndTurn ->
  preserves (turn_frame eq pn) (run_op op).
Proof.
  destruct op; cbn [is_roll run_op]; intros Hroll Hend;
    try discriminate Hroll; try congruence;
    unfold buy_current_property, decline_purchase, pay_bail,
      use_jail_card, roll_for_doubles, build_house, _get_buildable_properties,
      mortgage_property, unmortgage_property, get_property_info;
    turn_run; still_leaf.
Qed.

Lemma end_turn_others s pn :
  Base s -> player_order s !! current_player_idx s = Some pn ->
  forall r s', end_turn s = Ret (r, s') ->
  forall n q, n <> pn -> players s !! n = Some q -> players s' !! n = Some q.
Proof.
  intros HB Hpn r s' E n q Hne Hq.
  destruct (decide (phase s = TURN_COMPLETE)) as [Hph|Hph].
  - destruct (base_order _ _ _ _ _ _ HB pn) as [p Hp];
      [eapply list_elem_of_lookup_2, Hpn|].
    destruct (wp_elim _ _ _ (end_turn_spec s pn p Hph Hpn Hp (base_order _ _ _ _ _ _ HB)))
      as (r0 & s0 & E0 & ms & _ & ph & tn & i & -> & _).
    rewrite E in E0. injection E0 as _ ->. eng_simpl.
    rewrite lookup_insert_ne by congruence. exact Hq.
  - assert (E0 : end_turn s
                 = Ret (error ("Cannot end turn in phase: " +:+ phase_value (phase s)), s)).
    { unfold end_turn. run_step.
      destruct (decide (phase s <> TURN_COMPLETE)); [reflexivity | contradiction]. }
    rewrite E in E0. injection E0 as _ ->. exact Hq.
Qed.

(** An operation changes nothing but the cash of a player who is not the
    current one, and only [roll_and_move], which pays rent, changes that:
    it never moves, jails or frees another player, and never touches
    another player's holdings, cards, counters or bankrupt flag. *)
Theorem other_players_change_only_in_cash (s : Engine) (op : Op) (pn n : string)
    (q : Player.t) :
  reachable s -> valid_op op ->
  player_order s !! current_player_idx s = Some pn ->
  n <> pn ->
  players s !! n = Some q ->
  exists r s' q',
    run_op op s = Ret (r, s') /\
    players s' !! n = Some q' /\
    q' = Player.with_money (Player.money q') q /\
    (is_roll op = false -> q' = q).
Proof.
  intros Hreach Hvalid Hpn Hne Hq.
  pose proof (reachable_Inv s Hreach) as HI. pose proof HI as [HB _].
  destruct (wp_elim _ _ _ (run_op_kept s op HI Hvalid)) as (r & s' & E & _).
  exists r, s'.
  destruct (is_roll op) eqn:Hroll.
  - destruct op; try discriminate Hroll. cbn [run_op] in E.
    destruct (roll_and_move_turn fuel d1 d2 shuffle pn s r s' E Hpn) as (_ & _ & Hothers).
    destruct (Hothers n q Hne Hq) as (q' & Hq' & Hrel).
    exists q'. split; [exact E|]. split; [exact Hq'|]. split; [exact Hrel | discriminate].
  - exists q. split; [exact E|].
    assert (Hsame : players s' !! n = Some q).
    { destruct op; try discriminate Hroll.
      all: try lazymatch type of E with
               | run_op EndTurn _ = _ =>
                   apply (end_turn_others s pn HB Hpn r s' E n q Hne Hq)
               end.
      all: lazymatch type of E with
           | run_op ?o _ = _ =>
               destruct (run_op_turn o pn eq_refl ltac:(discriminate) s r s' E Hpn)
                 as (_ & _ & Hothers)
           end;
           destruct (Hothers n q Hne Hq) as (q' & Hq' & <-); exact Hq'. }
    split; [exact Hsame|]. split; [|reflexivity].
    destruct q. reflexivity.
Qed.

(** * Rent *)

(** On every tile of a running engine [get_rent] returns a rent, which is
    not negative when the dice total is not; and on a street that is not
    mortgaged one more house, up to the fifth, raises the rent. *)
Theorem rent_is_defined_and_grows_with_houses (s : Engine) (pos : Z) (t : Property.t)
    (dice_roll railroads_owned utilities_owned : Z) :
  reachable s -> tiles s !! pos = Some t -> 0 <= dice_roll ->
  exists rent,
    Property.get_rent t dice_roll railroads_owned utilities_owned = Ret rent /\
    0 <= rent /\
    (Property.tile_type t = PROPERTY -> Property.is_mortgaged t = false ->
     Property.houses t < 5 ->
     exists more,
       Property.get_rent (Property.with_houses (Property.houses t + 1) t)
         dice_roll railroads_owned utilities_owned = Ret more /\
       rent < more).
Proof.
  intros Hreach Ht Hdice. destruct (reachable_Inv s Hreach) as [HB _].
  destruct (reachable_Sound s Hreach) as [_ Hts].
  destruct (Hts pos t Ht) as [Hpos _].
  destruct (base_tiles _ _ _ _ _ _ HB pos Hpos) as (t' & Ht' & Hok).
  rewrite Ht in Ht'. injection Ht' as <-.
  destruct (tile_ok_fields _ _ _ Hok) as (data & Hitem & _ & _ & Hty & Hrent & _).
  destruct Hok as (_ & Hh & _).
  pose proof street_rents_checked as Hchk. rewrite forallb_forall in Hchk.
  specialize (Hchk (pos, data) (proj1 (list_elem_of_In _ _) Hitem)).
  unfold street_rents_okb in Hchk. cbn [snd] in Hchk.
  unfold Property.get_rent.
  destruct (Property.is_mortgaged t) eqn:Hm.
  { exists 0. split; [reflexivity|]. split; [lia|]. intros _ Hc. discriminate Hc. }
  destruct (Property.tile_type t) eqn:E;
    try (exists 0; split; [reflexivity|]; split; [lia|]; intros Hc; discriminate Hc).
  - (* a street *)
    rewrite <- Hty in Hchk. apply andb_true_iff in Hchk as [Hlen Hinc].
    apply Nat.eqb_eq in Hlen. rewrite <- Hrent in Hlen, Hinc.
    destruct (lookup_lt_is_Some_2 (Property.rent t) (Z.to_nat (Z.min (Property.houses t) 5)))
      as [rent Hr]; [lia|].
    destruct (increasing_from_lookup _ _ _ _ Hinc Hr) as [Hpos0 Hnext].
    exists rent. split; [|split; [lia|]].
    + rewrite <- (py_index_lookup _ _ _ Hr). f_equal. lia.
    + intros _ _ Hlt.
      cbn [Property.with_houses Property.is_mortgaged Property.tile_type Property.rent
           Property.houses].
      rewrite Hm, E.
      destruct (lookup_lt_is_Some_2 (Property.rent t)
                  (S (Z.to_nat (Z.min (Property.houses t) 5)))) as [more Hmore]; [lia|].
      exists more. split; [|apply Hnext, Hmore].
      rewrite <- (py_index_lookup _ _ _ Hmore). f_equal. lia.
  - (* a railroad *)
    eexists. split; [reflexivity|]. split; [|intros Hc; discriminate Hc].
    unfold Property.rr_rent. repeat case_match; lia.
  - (* a utility *)
    eexists. split; [reflexivity|]. split; [|intros Hc; discriminate Hc].
    destruct (utilities_owned =? 2); lia.
Qed.

(** * Action names *)

Lemma before_char_lacks c s : contains_char c (before_char c s) = false.
Proof.
  induction s as [|a s IH]; [reflexivity|]. cbn.
  destruct (Ascii.eqb a c) eqn:E; [reflexivity|]. cbn. rewrite E. exact IH.
Qed.

Lemma lstrip_lacks c s : contains_char c s = false -> contains_char c (lstrip s) = false.
Proof.
  induction s as [|a s IH]; [reflexivity|]. cbn. intros H.
  apply orb_false_iff in H as [Ha Hs].
  destruct (is_space a); [apply IH, Hs|]. cbn. rewrite Ha. exact Hs.
Qed.

Lemma rstrip_lacks c s : contains_char c s = false -> contains_char c (rstrip s) = false.
Proof.
  induction s as [|a s IH]; [reflexivity|]. cbn. intros H.
  apply orb_false_iff in H as [Ha Hs]. specialize (IH Hs).
  destruct (rstrip s) as [|b r].
  - destruct (is_space a); [reflexivity|]. cbn. rewrite Ha. reflexivity.
  - cbn in *. rewrite Ha. exact IH.
Qed.

Lemma replace_char_lacks c d s : c <> d -> contains_char c (replace_char c d s) = false.
Proof.
  intros Hne. induction s as [|a s IH]; [reflexivity|]. cbn. rewrite IH, orb_false_r.
  destruct (Ascii.eqb a c) eqn:E; [apply Ascii.eqb_neq; congruence | exact E].
Qed.

Lemma replace_char_keeps e c d s :
  e <> d -> contains_char e s = false -> contains_char e (replace_char c d s) = false.
Proof.
  intros Hne. induction s as [|a s IH]; [reflexivity|]. cbn. intros H.
  apply orb_false_iff in H as [Ha Hs]. rewrite (IH Hs), orb_false_r.
  destruct (Ascii.eqb a c); [apply Ascii.eqb_neq; congruence | exact Ha].
Qed.

Lemma replace_char_id c d s : contains_char c s = false -> replace_char c d s = s.
Proof.
  induction s as [|a s IH]; [reflexivity|]. cbn. intros H.
  apply orb_false_iff in H as [Ha Hs]. rewrite Ha, (IH Hs). reflexivity.
Qed.

(** A cleaned action name holds neither a space nor an opening
    parenthesis, and cleaning it again changes nothing. *)
Theorem clean_action_name_is_clean (action : string) :
  contains_char " "%char (_clean_action_name action) = false /\
  contains_char "("%char (_clean_action_name action) = false /\
  _clean_action_name (_clean_action_name action) = _clean_action_name action.
Proof.
  assert (Hsp : contains_char " "%char (_clean_action_name action) = false)
    by (apply replace_char_lacks; discriminate).
  assert (Hpar : contains_char "("%char (_clean_action_name action) = false).
  { unfold _clean_action_name. apply replace_char_keeps; [discriminate|].
    destruct (contains_char "("%char action) eqn:E; [|exact E].
    apply rstrip_lacks, lstrip_lacks, before_char_lacks. }
  split; [exact Hsp|]. split; [exact Hpar|].
  unfold _clean_action_name at 1. cbv zeta. rewrite Hpar.
  apply replace_char_id, Hsp.
Qed.

(** * More of the example games *)

Lemma A_in_jail_reachable : reachable A_in_jail.
Proof.
  apply reachable_play; [apply second_game_reachable|].
  unfold to_baltic. cbn [app]. valid_ops.
Qed.

Lemma two_doubles_reachable : reachable two_doubles.
Proof. apply reachable_play; [apply first_game_reachable | valid_ops]. Qed.

(** A, with 1500, stands on Baltic Avenue, which costs 60. *)
Lemma buy_current_property_spec_witness :
  exists r s',
    buy_current_property on_baltic = Ret (r, s') /\
    (has_error r = false <->
     phase on_baltic = WAITING_FOR_BUY_DECISION /\
     Property.price baltic <= Player.money A_on_baltic) /\
    (has_error r = false ->
     (exists ms, s' = bought on_baltic "A" A_on_baltic baltic ms) /\
     dict_get "remaining_money" r = Some (VInt (1500 - 60))) /\
    (has_error r = true -> s' = on_baltic).
Proof.
  apply (buy_current_property_spec on_baltic "A" A_on_baltic baltic).
  - vm_compute; reflexivity.
  - vm_compute; reflexivity.
  - vm_compute; reflexivity.
Defined.

Lemma decline_purchase_spec_witness :
  exists r s',
    decline_purchase on_baltic = Ret (r, s') /\
    (has_error r = false <-> phase on_baltic = WAITING_FOR_BUY_DECISION) /\
    (has_error r = false ->
     exists ms, s' = with_messages ms (with_phase TURN_COMPLETE on_baltic)) /\
    (has_error r = true -> s' = on_baltic).
Proof.
  apply (decline_purchase_spec on_baltic "A" A_on_baltic baltic).
  - vm_compute; reflexivity.
  - vm_compute; reflexivity.
  - vm_compute; reflexivity.
Defined.

(** A is in jail with 1500 and no card. *)
Lemma pay_bail_spec_witness :
  exists r s',
    pay_bail A_in_jail = Ret (r, s') /\
    (has_error r = false <-> Player.in_jail A_jailed = true /\ 50 <= Player.money A_jailed) /\
    (has_error r = false ->
     (exists ms,
        s' = set_player "A" (released (Player.with_money (1500 - 50) A_jailed))
               WAITING_FOR_ROLL ms A_in_jail) /\
     dict_get "remaining_money" r = Some (VInt (1500 - 50))) /\
    (has_error r = true -> s' = A_in_jail).
Proof.
  apply (pay_bail_spec A_in_jail "A" A_jailed).
  - vm_compute; reflexivity.
  - vm_compute; reflexivity.
Defined.

Lemma use_jail_card_spec_witness :
  exists r s',
    use_jail_card A_in_jail = Ret (r, s') /\
    (has_error r = false <->
     Player.in_jail A_jailed = true /\ 1 <= Player.jail_cards A_jailed) /\
    (has_error r = false ->
     exists ms,
       s' = set_player "A"
              (released (Player.with_jail_cards (Player.jail_cards A_jailed - 1) A_jailed))
              WAITING_FOR_ROLL ms A_in_jail) /\
    (has_error r = true -> s' = A_in_jail).
Proof.
  apply (use_jail_card_spec A_in_jail "A" A_jailed).
  - vm_compute; reflexivity.
  - vm_compute; reflexivity.
Defined.

Lemma roll_for_doubles_spec_witness :
  exists r s',
    roll_for_doubles 2 5 A_in_jail = Ret (r, s') /\
    (has_error r = false <-> Player.in_jail A_jailed = true) /\
    (has_error r = false ->
     (exists ms,
        s' = set_player "A" (jail_roll 2 5 A_jailed) (jail_roll_phase 2 5 A_jailed) ms
               (with_last_dice (2, 5) A_in_jail)) /\
     dict_get "escaped" r = Some (VBool (2 =? 5))) /\
    (has_error r = true -> s' = A_in_jail).
Proof.
  apply (roll_for_doubles_spec A_in_jail 2 5 "A" A_jailed).
  - vm_compute; reflexivity.
  - vm_compute; reflexivity.
Defined.

(** After two doubles A rolls 2 and 2. *)
Lemma third_double_goes_to_jail_witness :
  exists r s' ms,
    roll_and_move 3 2 2 keep_order two_doubles = Ret (r, s') /\
    s' = set_player "A" (jailed A_after_two_doubles) TURN_COMPLETE ms
           (with_last_dice (2, 2) two_doubles) /\
    has_error r = false /\
    dict_get "roll_again" r = None /\
    dict_get "result" r = Some (VStr "Sent to jail for 3 doubles!").
Proof.
  apply (third_double_goes_to_jail two_doubles 3 2 2 keep_order "A" A_after_two_doubles).
  - vm_compute; reflexivity.
  - vm_compute; reflexivity.
  - vm_compute; reflexivity.
  - reflexivity.
  - vm_compute. discriminate.
Defined.

(** B mortgages Baltic Avenue. *)
Lemma mortgage_property_spec_witness :
  exists r s',
    mortgage_property 3 owns_baltic = Ret (r, s') /\
    (has_error r = false <-> can_mortgage owns_baltic B_with_baltic 3) /\
    (has_error r = false ->
     exists t ms,
       tiles owns_baltic !! 3 = Some t /\
       s' = tile_and_player owns_baltic 3 (Property.with_is_mortgaged true t) "B"
              (Player.with_money (Player.money B_with_baltic + Property.mortgage_value t)
                 B_with_baltic) ms /\
       dict_get "received" r = Some (VInt (Property.mortgage_value t))) /\
    (has_error r = true -> s' = owns_baltic).
Proof.
  apply (mortgage_property_spec owns_baltic 3 "B" B_with_baltic).
  - exact owns_baltic_reachable.
  - vm_compute; reflexivity.
  - vm_compute; reflexivity.
Defined.

(** After the game B lifts the mortgage of the railroad, if the cash of
    99 allows it. *)
Lemma unmortgage_property_spec_witness :
  exists r s',
    unmortgage_property 25 game_over_with_cash = Ret (r, s') /\
    (has_error r = false <-> can_unmortgage game_over_with_cash B_with_cash 25) /\
    (has_error r = false ->
     exists t ms,
       tiles game_over_with_cash !! 25 = Some t /\
       s' = tile_and_player game_over_with_cash 25 (Property.with_is_mortgaged false t) "B"
              (Player.with_money
                 (Player.money B_with_cash - unmortgage_cost (Property.mortgage_value t))
                 B_with_cash) ms /\
       dict_get "cost" r = Some (VInt (unmortgage_cost (Property.mortgage_value t)))) /\
    (has_error r = true -> s' = game_over_with_cash).
Proof.
  apply (unmortgage_property_spec game_over_with_cash 25 "B" B_with_cash).
  - exact game_over_with_cash_reachable.
  - vm_compute; reflexivity.
  - vm_compute; reflexivity.
Defined.

(** A's first roll, onto Chance. *)
Lemma only_trades_change_tiles_and_holdings_witness :
  exists r s',
    run_op (roll 3 4) first_game = Ret (r, s') /\
    tiles s' = tiles first_game /\
    forall n, Player.properties <$> (players s' !! n)
              = Player.properties <$> (players first_game !! n).
Proof.
  apply (only_trades_change_tiles_and_holdings first_game (roll 3 4)).
  - exact first_game_reachable.
  - apply roll_valid; unfold die; lia.
  - reflexivity.
Defined.

(** The six tiles of the bankrupt B. *)
Lemma holdings_agree_with_owners_witness :
  NoDup (Player.properties B_bankrupt) /\
  (forall pos, pos ∈ Player.properties B_bankrupt <->
               exists t, tiles game_over !! pos = Some t /\ Property.owner t = Some "B") /\
  (forall m q pos, players game_over !! m = Some q ->
                   pos ∈ Player.properties B_bankrupt -> pos ∈ Player.properties q ->
                   m = "B").
Proof.
  apply (holdings_agree_with_owners game_over "B" B_bankrupt).
  - exact game_over_reachable.
  - vm_compute; reflexivity.
Defined.

(** Virginia Avenue, mortgaged after the game. *)
Lemma houses_and_mortgages_are_sound_witness :
  let t := Property.with_is_mortgaged true virginia_of_B in
  0 <= 14 < 40 /\
  (0 < Property.houses t ->
   Property.tile_type t = PROPERTY /\ Property.is_mortgaged t = false) /\
  (0 < Property.houses t \/ Property.is_mortgaged t = true ->
   is_Some (Property.owner t)) /\
  (is_Some (Property.owner t) -> ownable (Property.tile_type t)).
Proof.
  apply (houses_and_mortgages_are_sound game_over_with_cash 14).
  - exact game_over_with_cash_reachable.
  - vm_compute; reflexivity.
Defined.

Lemma roster_never_changes_witness :
  exists r s',
    run_op EndTurn in_debt = Ret (r, s') /\
    player_order s' = player_order in_debt /\
    forall n, is_Some (players s' !! n) <-> is_Some (players in_debt !! n).
Proof.
  apply (roster_never_changes in_debt EndTurn).
  - exact in_debt_reachable.
  - exact I.
Defined.

Lemma log_never_exceeds_50_witness : (length (messages chance_exhausted) <= 50)%nat.
Proof. apply (log_never_exceeds_50 chance_exhausted). exact chance_exhausted_reachable. Defined.

(** After the game B tries to roll. *)
Lemma game_over_is_final_witness :
  exists r s',
    run_op (roll 3 4) game_over = Ret (r, s') /\
    phase s' = GAME_OVER /\
    player_order s' !! current_player_idx s' = Some "B" /\
    exists p', players s' !! "B" = Some p' /\ Player.in_jail p' = false.
Proof.
  apply (game_over_is_final game_over (roll 3 4) "B" B_bankrupt).
  - exact game_over_reachable.
  - vm_compute; reflexivity.
  - vm_compute; reflexivity.
  - vm_compute; reflexivity.
  - reflexivity.
Defined.

(** In the first game B rolls 1 and 2 onto Baltic Avenue, which A has
    mortgaged. *)
Lemma mortgaged_tile_collects_no_rent_witness :
  exists r ms,
    roll_and_move 3 1 2 keep_order baltic_is_mortgaged
      = Ret (r, with_phase (if 1 =? 2 then WAITING_FOR_ROLL else TURN_COMPLETE)
                  (after_move baltic_is_mortgaged "B" 1 2 (Player.new "B") ms)) /\
    dict_get "result" r = Some (VStr ("Paid $0 rent to " +:+ "A")) /\
    dict_get "money" r = Some (VInt (Player.money (moved 1 2 (Player.new "B")))).
Proof.
  apply (mortgaged_tile_collects_no_rent baltic_is_mortgaged 3 1 2 keep_order "B" "A"
           (Player.new "B") baltic_mortgaged_by_A).
  - exact baltic_is_mortgaged_reachable.
  - lia.
  - vm_compute; reflexivity.
  - vm_compute; reflexivity.
  - vm_compute; reflexivity.
  - intros H; discriminate H.
  - vm_compute; reflexivity.
  - left. reflexivity.
  - reflexivity.
  - discriminate.
  - reflexivity.
Defined.

Lemma get_property_info_spec_witness :
  exists r,
    get_property_info 40 first_game = Ret (r, first_game) /\
    (has_error r = true <-> ~ 0 <= 40 < 40) /\
    (has_error r = false ->
     exists t,
       tiles first_game !! 40 = Some t /\
       dict_get "name" r = Some (VStr (Property.name t)) /\
       dict_get "owner" r = Some (VOptStr (Property.owner t)) /\
       dict_get "houses" r = Some (VInt (Property.houses t)) /\
       dict_get "is_mortgaged" r = Some (VBool (Property.is_mortgaged t))).
Proof. apply (get_property_info_spec first_game 40). exact first_game_reachable. Defined.

Lemma offered_builds_are_accepted_witness :
  exists r buildable,
    get_available_actions in_debt = Ret (r, in_debt) /\
    (forall x, x ∈ buildable <->
               exists r' s', build_house x in_debt = Ret (r', s') /\ has_error r' = false) /\
    dict_get "actions" r =
      Some (VStrs
        (phase_actions (phase in_debt) B_in_debt ++
         if bool_decide (phase in_debt = GAME_OVER) then []
         else match buildable with
              | [] => []
              | _ :: _ =>
                  ["build_house (on positions: " +:+ py_list_repr buildable +:+ ")"]
              end)) /\
    (phase in_debt = GAME_OVER -> dict_get "actions" r = Some (VStrs [])).
Proof.
  apply (offered_builds_are_accepted in_debt "B" B_in_debt).
  - exact in_debt_reachable.
  - vm_compute; reflexivity.
  - vm_compute; reflexivity.
Defined.

Lemma offered_actions_are_dispatched_witness :
  exists r actions,
    get_available_actions A_in_jail = Ret (r, A_in_jail) /\
    dict_get "actions" r = Some (VStrs actions) /\
    forall a, a ∈ actions ->
      exists op,
        _execute_runner_action 3 1 2 keep_order (_clean_action_name a) None = run_op op.
Proof.
  apply (offered_actions_are_dispatched A_in_jail "A" A_jailed 3 1 2 keep_order None).
  - exact A_in_jail_reachable.
  - vm_compute; reflexivity.
  - vm_compute; reflexivity.
Defined.

Lemma running_engine_is_well_formed_witness :
  exists pn p,
    player_order game_over !! current_player_idx game_over = Some pn /\
    players game_over !! pn = Some p.
Proof.
  exact (proj1 (running_engine_is_well_formed game_over game_over_reachable)).
Defined.

Lemma decks_only_shrink_witness :
  exists r s',
    run_op (roll 3 4) first_game = Ret (r, s') /\
    chance_deck s' `suffix_of` chance_deck first_game /\
    community_deck s' `suffix_of` community_deck first_game.
Proof.
  apply (decks_only_shrink first_game (roll 3 4)).
  - exact first_game_reachable.
  - apply roll_valid; unfold die; lia.
Defined.

(** A's first roll leaves the record of B as it is. *)
Lemma other_players_change_only_in_cash_witness :
  exists r s' q',
    run_op (roll 3 4) first_game = Ret (r, s') /\
    players s' !! "B" = Some q' /\
    q' = Player.with_money (Player.money q') (Player.new "B") /\
    (is_roll (roll 3 4) = false -> q' = Player.new "B").
Proof.
  apply (other_players_change_only_in_cash first_game (roll 3 4) "A" "B" (Player.new "B")).
  - exact first_game_reachable.
  - apply roll_valid; unfold die; lia.
  - vm_compute; reflexivity.
  - discriminate.
  - vm_compute; reflexivity.
Defined.

Lemma rent_is_defined_and_grows_with_houses_witness :
  exists rent,
    Property.get_rent virginia_of_B 4 1 1 = Ret rent /\
    0 <= rent /\
    (Property.tile_type virginia_of_B = PROPERTY ->
     Property.is_mortgaged virginia_of_B = false ->
     Property.houses virginia_of_B < 5 ->
     exists more,
       Property.get_rent
         (Property.with_houses (Property.houses virginia_of_B + 1) virginia_of_B) 4 1 1
         = Ret more /\
       rent < more).
Proof.
  apply (rent_is_defined_and_grows_with_houses game_over 14 virginia_of_B 4 1 1).
  - exact game_over_reachable.
  - vm_compute; reflexivity.
  - lia.
Defined.
